(** * StegDetector: LSB payload codec, audio/video carriers and analysis

    A shallow embedding of the core of the StegDetector project:

    - [core/stego_audio.py] and [core/stego_video.py]: the length-prefixed
      bit codec and the LSB embed/extract operations;
    - [core/audio_detector.py] and [core/video_detector.py]: the LSB balance
      statistic, the learned method and the combination into an overview.

    Python integers are [Z], NumPy arrays are flat lists of [Z] with a shape,
    Python [str] is a list of code points, exceptions are an error monad,
    and the files the functions read and write live in a finite map from
    paths to decoded contents. *)

From Stdlib Require Import ZArith List String Ascii Bool Lia QArith Qabs Lqa Qminmax.
From stdpp Require Import gmap strings list fin_maps pretty.

Local Open Scope Z_scope.

(** ** Exceptions *)

(** The exceptions the modelled code can raise, one constructor per kind;
    the two capacity errors keep the numbers their messages print. *)
Inductive exn : Type :=
| UnicodeEncodeError
| OverflowError
| ReshapeError
| BytesRangeError
| IntParseError
| AudioTooSmall (capacity needed : Z)
| VideoTooSmall (capacity needed : Z)
| RuntimeError (msg : string)
| IOError (msg : string)
| EmptyAudioSignal
| ZeroDivisionError
| LibraryError (msg : string).

Inductive result (A : Type) : Type :=
| Ok (a : A)
| Raise (e : exn).
Arguments Ok {A} a.
Arguments Raise {A} e.

Definition bind {A B} (m : result A) (k : A -> result B) : result B :=
  match m with
  | Ok a => k a
  | Raise e => Raise e
  end.

Notation "'do' x <- m ; k" := (bind m (fun x => k))
  (at level 10, x name, m at level 100, k at level 200).

Fixpoint mapM {A B} (f : A -> result B) (l : list A) : result (list B) :=
  match l with
  | [] => Ok []
  | a :: t => do b <- f a; do bs <- mapM f t; Ok (b :: bs)
  end.

(** ** Python strings and the built-in UTF-8 codec *)

(** A Python [str] is a sequence of code points in [0, 0x10FFFF]. *)
Definition pystr : Type := list Z.

Definition py (s : string) : pystr :=
  map (fun a => Z.of_N (N_of_ascii a)) (list_ascii_of_string s).

Definition is_surrogate (c : Z) : bool := (0xD800 <=? c) && (c <=? 0xDFFF).

Definition code_point (c : Z) : Prop := 0 <= c <= 0x10FFFF.

(** [str.encode("utf-8")]: one to four bytes per code point; lone
    surrogates raise [UnicodeEncodeError]. *)
Definition utf8_encode_char (c : Z) : result (list Z) :=
  if c <? 0x80 then Ok [c]
  else if c <? 0x800 then Ok [0xC0 + c / 64; 0x80 + c mod 64]
  else if is_surrogate c then Raise UnicodeEncodeError
  else if c <? 0x10000 then
    Ok [0xE0 + c / 4096; 0x80 + (c / 64) mod 64; 0x80 + c mod 64]
  else
    Ok [0xF0 + c / 262144; 0x80 + (c / 4096) mod 64;
        0x80 + (c / 64) mod 64; 0x80 + c mod 64].

Fixpoint utf8_encode (s : pystr) : result (list Z) :=
  match s with
  | [] => Ok []
  | c :: t =>
      do bs <- utf8_encode_char c;
      do rest <- utf8_encode t;
      Ok (bs ++ rest)
  end.

(** [bytes.decode("utf-8", errors="replace")]: a byte-at-a-time automaton.
    [needed] continuation bytes are still expected, the next one must lie
    in [lower, upper]; every maximal ill-formed prefix becomes one U+FFFD
    and the offending byte is examined again as a start byte. *)
Record dstate : Type := mkD { needed : nat; acc : Z; lower : Z; upper : Z }.

Definition d0 : dstate := mkD 0 0 0x80 0xBF.

Definition REPLACEMENT : Z := 0xFFFD.

Definition start_byte (b : Z) : dstate * list Z :=
  if b <? 0x80 then (d0, [b])
  else if (0xC2 <=? b) && (b <=? 0xDF) then (mkD 1 (b - 0xC0) 0x80 0xBF, [])
  else if (0xE0 <=? b) && (b <=? 0xEF) then
    (mkD 2 (b - 0xE0)
       (if b =? 0xE0 then 0xA0 else 0x80)
       (if b =? 0xED then 0x9F else 0xBF), [])
  else if (0xF0 <=? b) && (b <=? 0xF4) then
    (mkD 3 (b - 0xF0)
       (if b =? 0xF0 then 0x90 else 0x80)
       (if b =? 0xF4 then 0x8F else 0xBF), [])
  else (d0, [REPLACEMENT]).

Definition step_byte (s : dstate) (b : Z) : dstate * list Z :=
  match needed s with
  | O => start_byte b
  | S k =>
      if (lower s <=? b) && (b <=? upper s) then
        let c := acc s * 64 + (b - 0x80) in
        match k with
        | O => (d0, [c])
        | S _ => (mkD k c 0x80 0xBF, [])
        end
      else
        let '(s', out) := start_byte b in (s', REPLACEMENT :: out)
  end.

Fixpoint utf8_run (s : dstate) (bs : list Z) : pystr :=
  match bs with
  | [] => match needed s with O => [] | S _ => [REPLACEMENT] end
  | b :: t => let '(s', out) := step_byte s b in out ++ utf8_run s' t
  end.

Definition utf8_decode_replace (bs : list Z) : pystr := utf8_run d0 bs.

(** [str.isspace] on one code point, and [str.strip()]. *)
Definition isspace (c : Z) : bool :=
  ((0x09 <=? c) && (c <=? 0x0D)) || ((0x1C <=? c) && (c <=? 0x20))
  || (c =? 0x85) || (c =? 0xA0) || (c =? 0x1680)
  || ((0x2000 <=? c) && (c <=? 0x200A))
  || (c =? 0x2028) || (c =? 0x2029) || (c =? 0x202F)
  || (c =? 0x205F) || (c =? 0x3000).

Fixpoint lstrip (s : pystr) : pystr :=
  match s with
  | [] => []
  | c :: t => if isspace c then lstrip t else s
  end.

Definition strip (s : pystr) : pystr := rev (lstrip (rev (lstrip s))).

Definition pystr_eqb (a b : pystr) : bool := bool_decide (a = b).

(** ** Python and NumPy primitives used by the codecs *)

(** [len(x)] as a Python integer. *)
Definition len {A} (l : list A) : Z := Z.of_nat (length l).

(** [a[lo:hi]] for [0 <= lo]: the elements at positions [lo .. hi-1] that
    exist. *)
Definition slice {A} (lo hi : Z) (l : list A) : list A :=
  take (Z.to_nat (hi - lo)) (drop (Z.to_nat lo) l).

(** [n.to_bytes(length, byteorder="big")]: [OverflowError] unless
    [0 <= n < 256^length]. *)
Fixpoint be_bytes (k : nat) (n : Z) : list Z :=
  match k with
  | O => []
  | S k' => (n / 256 ^ Z.of_nat k') mod 256 :: be_bytes k' n
  end.

Definition to_bytes_big (n : Z) (k : nat) : result (list Z) :=
  if (0 <=? n) && (n <? 256 ^ Z.of_nat k) then Ok (be_bytes k n)
  else Raise OverflowError.

(** [f"{b:08b}"]: binary digits, sign first, zero-padded to width 8. *)
Fixpoint pos_bin (p : positive) (tail : list ascii) : list ascii :=
  match p with
  | xH => "1"%char :: tail
  | xO p' => pos_bin p' ("0"%char :: tail)
  | xI p' => pos_bin p' ("1"%char :: tail)
  end.

Definition zfill (width : nat) (digits : list ascii) : list ascii :=
  repeat "0"%char (width - length digits) ++ digits.

Definition format_08b (b : Z) : list ascii :=
  match b with
  | Z0 => zfill 8 ["0"%char]
  | Zpos p => zfill 8 (pos_bin p [])
  | Zneg p => "-"%char :: zfill 7 (pos_bin p [])
  end.

(** [int(ch)] on a one-character string: a decimal digit or [ValueError]. *)
Definition int_of_char (ch : ascii) : result Z :=
  let c := Z.of_N (N_of_ascii ch) in
  if (48 <=? c) && (c <=? 57) then Ok (c - 48) else Raise IntParseError.

(** [range(7, -1, -1)]. *)
Definition range_7_down : list Z := [7; 6; 5; 4; 3; 2; 1; 0].

(** [a.astype(np.uint8)], [a.astype(np.int16)], [a.astype(np.int32)] on
    integer data: wrap-around. *)
Definition wrap_unsigned (w x : Z) : Z := x mod 2 ^ w.
Definition wrap_signed (w x : Z) : Z :=
  (x + 2 ^ (w - 1)) mod 2 ^ w - 2 ^ (w - 1).

Definition astype_uint8 (a : list Z) : list Z := map (wrap_unsigned 8) a.
Definition astype_int16 (a : list Z) : list Z := map (wrap_signed 16) a.
Definition astype_int32 (a : list Z) : list Z := map (wrap_signed 32) a.

(** The accumulation [val = (val << 1) | int(b)] over a row of bits. *)
Definition shift_in (v b : Z) : Z := Z.lor (Z.shiftl v 1) b.
Definition bits_to_int (row : list Z) : Z := fold_left shift_in row 0.

(** [a.reshape(-1, cols)] on a flat array: rows of [cols] elements,
    [ValueError] when the length is not a multiple of [cols]. *)
Fixpoint rows_of (cols fuel : nat) (l : list Z) : list (list Z) :=
  match fuel with
  | O => []
  | S fuel' =>
      match l with
      | [] => []
      | _ :: _ => take cols l :: rows_of cols fuel' (drop cols l)
      end
  end.

Definition reshape_rows (l : list Z) (cols : nat) : result (list (list Z)) :=
  if (0 <? Z.of_nat cols) && (len l mod Z.of_nat cols =? 0)
  then Ok (rows_of cols (length l) l)
  else Raise ReshapeError.

(** [bytes(ints)]: [ValueError] unless every value is in [range(256)]. *)
Definition bytes_of_ints (vals : list Z) : result (list Z) :=
  if forallb (fun v => (0 <=? v) && (v <? 256)) vals then Ok vals
  else Raise BytesRangeError.

(** An [ndarray]: a shape and the elements in row-major order. *)
Record ndarray : Type := mkArr { shape : list nat; data : list Z }.

Definition size (a : ndarray) : Z := len (data a).

Definition shape_size (sh : list nat) : nat := fold_right Nat.mul 1%nat sh.

Definition wf_ndarray (a : ndarray) : Prop :=
  shape_size (shape a) = length (data a).

(** [flat.reshape(shape)]: [ValueError] when the sizes differ. *)
Definition reshape (flat : list Z) (sh : list nat) : result ndarray :=
  if Nat.eqb (shape_size sh) (length flat) then Ok (mkArr sh flat)
  else Raise ReshapeError.

(** ** core/stego_audio.py *)

Module stego_audio.

Definition _encode_message_to_bits (message : pystr) : result (list Z) :=
  do msg_bytes <- utf8_encode message;
  let length := len msg_bytes in
  do header <- to_bytes_big length 4;
  let payload := header ++ msg_bytes in
  let bit_str := concat (map format_08b payload) in
  mapM int_of_char bit_str.

Definition _decode_bits_to_message (bits : list Z) (max_len_bytes : Z)
  : result (option pystr) :=
  let bits := astype_uint8 bits in
  if len bits <? 32 then Ok None
  else
    let length_bits := slice 0 32 bits in
    let length_val := fold_left shift_in length_bits 0 in
    let max_possible := (len bits - 32) / 8 in
    if (length_val <=? 0) || (max_possible <? length_val)
       || (max_len_bytes <? length_val)
    then Ok None
    else
      let needed := 32 + length_val * 8 in
      if len bits <? needed then Ok None
      else
        do msg_bits <- reshape_rows (slice 32 needed bits) 8;
        let byte_vals := map bits_to_int msg_bits in
        match bytes_of_ints byte_vals with
        | Raise _ => Ok None
        | Ok raw =>
            let msg := utf8_decode_replace raw in
            if pystr_eqb (strip msg) [] then Ok None else Ok (Some msg)
        end.

(** The default of [max_len_bytes]. *)
Definition max_len_bytes_default : Z := 100000.

(** A decoded sound file: [(samples, channels)] int16 data and the
    sample rate. *)
Record wav : Type := mkWav { samples : ndarray; samplerate : Z }.

Definition int16 (x : Z) : Prop := -32768 <= x <= 32767.

Definition wf_wav (w : wav) : Prop :=
  wf_ndarray (samples w) /\ Forall int16 (data (samples w)).

Definition _load_audio_int16 (fs : gmap string wav) (path : string)
  : result (ndarray * Z) :=
  match fs !! path with
  | Some w => Ok (mkArr (shape (samples w)) (astype_int16 (data (samples w))),
                  samplerate w)
  | None => Raise (IOError path)
  end.

Definition _save_audio_int16 (fs : gmap string wav) (path : string)
    (int_data : ndarray) (sr : Z) : gmap string wav :=
  <[path := mkWav (mkArr (shape int_data) (astype_int16 (data int_data))) sr]> fs.

(** [flat32[:n] = (flat32[:n] & ~1) | bits]. *)
Definition set_lsbs (flat32 bits : list Z) : list Z :=
  let n := len bits in
  zip_with (fun x b => Z.lor (Z.land x (Z.lnot 1)) b) (slice 0 n flat32) bits
  ++ drop (Z.to_nat n) flat32.

Definition embed_lsb_audio (fs : gmap string wav)
    (cover_path stego_path : string) (message : pystr)
  : result unit * gmap string wav :=
  match _load_audio_int16 fs cover_path with
  | Raise e => (Raise e, fs)
  | Ok (int_data, sr) =>
      let shp := shape int_data in
      let flat32 := astype_int32 (data int_data) in
      match _encode_message_to_bits message with
      | Raise e => (Raise e, fs)
      | Ok bits =>
          let bits := astype_int32 bits in
          let capacity := len flat32 in
          if capacity <? len bits
          then (Raise (AudioTooSmall capacity (len bits)), fs)
          else
            let flat32 := set_lsbs flat32 bits in
            match reshape flat32 shp with
            | Raise e => (Raise e, fs)
            | Ok arr =>
                let stego_int16 := mkArr (shape arr) (astype_int16 (data arr)) in
                (Ok tt, _save_audio_int16 fs stego_path stego_int16 sr)
            end
      end
  end.

Definition NO_PAYLOAD : pystr :=
  py "[No valid LSB text payload found in this audio file]".

Definition extract_lsb_audio (fs : gmap string wav) (stego_path : string)
  : result pystr :=
  do loaded <- _load_audio_int16 fs stego_path;
  let flat32 := astype_int32 (data (fst loaded)) in
  let bits := astype_uint8 (map (fun x => Z.land x 1) flat32) in
  do msg <- _decode_bits_to_message bits max_len_bytes_default;
  match msg with
  | None => Ok NO_PAYLOAD
  | Some m => Ok m
  end.

End stego_audio.

(** ** core/stego_video.py *)

Module stego_video.

Definition HEADER_BYTES : Z := 4.

Definition _encode_message_to_bits (message : pystr) : result (list Z) :=
  do msg_bytes <- utf8_encode message;
  let length := len msg_bytes in
  do header <- to_bytes_big length (Z.to_nat HEADER_BYTES);
  let payload := header ++ msg_bytes in
  let bit_list :=
    fold_left
      (fun bit_list b =>
         fold_left
           (fun bit_list i => bit_list ++ [Z.land (Z.shiftr b i) 1])
           range_7_down bit_list)
      payload [] in
  Ok (astype_uint8 bit_list).

Definition _decode_bits_to_message (bits : list Z) (max_len_bytes : Z)
  : result (option pystr) :=
  let bits := astype_uint8 bits in
  if len bits <? HEADER_BYTES * 8 then Ok None
  else
    let length_bits := slice 0 (HEADER_BYTES * 8) bits in
    let length_val := fold_left shift_in length_bits 0 in
    let max_possible := (len bits - HEADER_BYTES * 8) / 8 in
    if (length_val <=? 0) || (max_possible <? length_val)
       || (max_len_bytes <? length_val)
    then Ok None
    else
      let needed := HEADER_BYTES * 8 + length_val * 8 in
      if len bits <? needed then Ok None
      else
        do msg_bits <- reshape_rows (slice (HEADER_BYTES * 8) needed bits) 8;
        let byte_vals := map bits_to_int msg_bits in
        match bytes_of_ints byte_vals with
        | Raise _ => Ok None
        | Ok raw =>
            let msg := utf8_decode_replace raw in
            if pystr_eqb (strip msg) [] then Ok None else Ok (Some msg)
        end.

Definition max_len_bytes_default : Z := 200000.

(** What a path holds: a container the reader cannot open (with the
    text of the exception), or a video with its frame rate and its
    decoded RGB frames, each of shape [H; W; 3] with 8-bit entries. *)
Inductive container : Type :=
| Unreadable (err : string)
| Video (fps : Q) (frames : list ndarray).

(** What one encoding run of the tool does: it fails with the text it
    prints or ends well, and in either case it may leave a file at the
    output path: what the reader will find there afterwards. *)
Record encoding : Type := mkEncoding {
  failure : option string;
  written : option container
}.

(** The external tool: not installed, failing on extraction with the text
    it prints, or extracting the frames of a cover; the encoding run of
    such a tool, from a frame rate, the frames of the scratch directory
    and the output path, is its own and nothing here says that it
    succeeds or that its file reads back as the frames it was given. *)
Inductive tool : Type :=
| Absent
| Broken (stderr : string)
| Working (ffv1 : Q -> list ndarray -> string -> encoding).

(** The encoding run the embedding hopes for: it succeeds and its file
    reads back as the frames and the rate it was given. *)
Definition exact_ffv1 (fps : Q) (frames : list ndarray) (stego_path : string)
  : encoding :=
  mkEncoding None (Some (Video fps frames)).

(** The files, the scratch directory of frame images (absent, or the
    frames it holds in file-name order) and the tool. *)
Record world : Type := mkWorld {
  files : gmap string container;
  temp_dir : option (list ndarray);
  ffmpeg : tool
}.

Definition set_files (w : world) (f : gmap string container) : world :=
  mkWorld f (temp_dir w) (ffmpeg w).
Definition set_temp_dir (w : world) (t : option (list ndarray)) : world :=
  mkWorld (files w) t (ffmpeg w).

(** [imageio.get_reader(path)]: the exception text, or the frame rate
    and the frames. *)
Definition get_reader (w : world) (path : string)
  : string + (Q * list ndarray) :=
  match files w !! path with
  | None => inl ("No such file: '" ++ path ++ "'")%string
  | Some (Unreadable err) => inl err
  | Some (Video fps frames) =>
      inr (fps, map (fun f => mkArr (shape f) (astype_uint8 (data f))) frames)
  end.

(** The loop [for i in range(bits.size)] that rewrites [flat[i]]. *)
Fixpoint embed_loop (idxs : list nat) (bits flat : list Z)
  : result (list Z) :=
  match idxs with
  | [] => Ok flat
  | i :: rest =>
      match bits !! i, flat !! i with
      | Some b, Some x =>
          let x' := if b =? 0 then Z.land x 0xFE else Z.lor x 0x01 in
          embed_loop rest bits (<[i := x']> flat)
      | _, _ => Raise (LibraryError "index out of bounds")
      end
  end.

(** The loop that cuts the flat buffer back into frames. *)
Fixpoint split_frames (frames : list ndarray) (flat : list Z) (idx : Z)
  : result (list ndarray) :=
  match frames with
  | [] => Ok []
  | f :: rest =>
      let size := size f in
      do a <- reshape (slice idx (idx + size) flat) (shape f);
      do others <- split_frames rest flat (idx + size);
      Ok (mkArr (shape a) (astype_uint8 (data a)) :: others)
  end.

(** The two runs of the tool: frames of the cover written to the
    scratch directory, and the scratch frames encoded to [stego_path]. *)
Definition ffmpeg_extract (w : world) (cover_path : string)
  : result unit * world :=
  match ffmpeg w with
  | Absent => (Raise (IOError "ffmpeg"), w)
  | Broken stderr =>
      (Raise (RuntimeError ("ffmpeg extraction failed: " ++ stderr)), w)
  | Working _ =>
      match get_reader w cover_path with
      | inl err =>
          (Raise (RuntimeError ("ffmpeg extraction failed: " ++ err)), w)
      | inr (_, frames) => (Ok tt, set_temp_dir w (Some frames))
      end
  end.

Definition ffmpeg_encode (w : world) (fps : Q) (stego_path : string)
  : result unit * world :=
  match ffmpeg w, temp_dir w with
  | Working ffv1, Some frames =>
      let run := ffv1 fps frames stego_path in
      let w :=
        match written run with
        | Some c => set_files w (<[stego_path := c]> (files w))
        | None => w
        end in
      match failure run with
      | Some stderr =>
          (Raise (RuntimeError ("ffmpeg encoding failed: " ++ stderr)), w)
      | None => (Ok tt, w)
      end
  | Broken stderr, _ =>
      (Raise (RuntimeError ("ffmpeg encoding failed: " ++ stderr)), w)
  | _, _ => (Raise (IOError "ffmpeg"), w)
  end.

(** The body of the [try] block; the scratch directory is already
    created. *)
Definition embed_body (w : world) (cover_path stego_path : string)
    (fps : Q) (message : pystr) : result unit * world :=
  match ffmpeg_extract w cover_path with
  | (Raise e, w) => (Raise e, w)
  | (Ok _, w) =>
      match temp_dir w with
      | None | Some [] =>
          (Raise (RuntimeError "No frames extracted from video"), w)
      | Some frame_files =>
          let frames :=
            map (fun f => mkArr (shape f) (astype_uint8 (data f))) frame_files in
          let flat := astype_uint8 (concat (map data frames)) in
          let capacity := len flat in
          match _encode_message_to_bits message with
          | Raise e => (Raise e, w)
          | Ok bits =>
              if capacity <? len bits
              then (Raise (VideoTooSmall capacity (len bits)), w)
              else
                match embed_loop (seq 0 (length bits)) bits flat with
                | Raise e => (Raise e, w)
                | Ok flat =>
                    match split_frames frames flat 0 with
                    | Raise e => (Raise e, w)
                    | Ok frames =>
                        let w := set_temp_dir w (Some frames) in
                        ffmpeg_encode w fps stego_path
                    end
                end
          end
      end
  end.

Definition embed_lsb_video (w : world) (cover_path stego_path : string)
    (message : pystr) : result unit * world :=
  match ffmpeg w with
  | Absent =>
      (Raise (RuntimeError "ffmpeg is required but not found in PATH."), w)
  | _ =>
      match get_reader w cover_path with
      | inl err => (Raise (IOError err), w)
      | inr (fps, _) =>
          let w := set_temp_dir w (Some []) in
          let '(r, w) := embed_body w cover_path stego_path fps message in
          (r, set_temp_dir w None)
      end
  end.

Definition NO_PAYLOAD : pystr :=
  py "[No valid LSB text payload found in this video]".
Definition NO_FRAMES : pystr := py "[No frames found in this video]".

Definition extract_lsb_video (w : world) (stego_path : string)
  : result pystr :=
  match get_reader w stego_path with
  | inl e => Ok (py "[Failed to open video: " ++ py e ++ py "]")
  | inr (_, frames) =>
      let bits_list :=
        map (fun frame => map (fun x => Z.land x 1) (astype_uint8 (data frame)))
            frames in
      match bits_list with
      | [] => Ok NO_FRAMES
      | _ :: _ =>
          let bits := concat bits_list in
          do msg <- _decode_bits_to_message bits max_len_bytes_default;
          match msg with
          | None => Ok NO_PAYLOAD
          | Some m => Ok m
          end
      end
  end.

End stego_video.

(** ** Analysis results

    Python floats are modelled as exact rationals: the scores below are
    ratios of counts and fixed thresholds, compared with [<] and [>]. *)

Definition Qlt_bool (x y : Q) : bool := negb (Qle_bool y x).

(** [a / b] on floats: [ZeroDivisionError] when [b] is zero. *)
Definition py_div (a b : Q) : result Q :=
  if Qeq_bool b 0 then Raise ZeroDivisionError else Ok (a / b)%Q.

(** One entry of the [methods] list; [p0] and [p1] are present only in
    the statistical method's normal result. *)
Record method_result : Type := mkResult {
  method : string;
  score : option Q;
  verdict : string;
  p0 : option Q;
  p1 : option Q
}.

Record overview : Type := mkOverview {
  best_score : option Q;
  best_method : option string;
  methods : list method_result
}.

(** One round of the loop [for r in results] of [analyze_audio] and
    [analyze_video], on the pair [(best_score, best_method)]. *)
Definition keep_best (best : option Q * option string) (r : method_result)
  : option Q * option string :=
  match score r with
  | None => best
  | Some s =>
      match fst best with
      | None => (Some s, Some (method r))
      | Some b => if Qlt_bool b s then (Some s, Some (method r)) else best
      end
  end.

(** [np.count_nonzero]. *)
Definition count_nonzero (a : list Z) : Z :=
  len (filter (fun x => x <> 0) a).

(** [balance = 1.0 - abs(p1 - 0.5) * 2.0]. *)
Definition balance_of (p1 : Q) : Q := (1 - Qabs (p1 - (1 # 2)) * 2)%Q.

(** The verdict of the statistical methods. *)
Definition lsb_verdict (balance : Q) : string :=
  if Qlt_bool balance (2 # 5) then "Likely clean (LSB distribution skewed)"
  else if Qlt_bool balance (7 # 10) then "Uncertain (LSB distribution moderate)"
  else "Suspicious (LSB distribution very balanced)".

(** The two scikit-learn objects stored in the classifier artifacts. *)
Record scaler : Type := mkScaler {
  n_features_in_ : nat;
  scale : list Q -> list Q
}.

(** [predict_proba] exists only on a classifier trained with probability
    estimates; it returns [P(stego)]. Both calls may raise. *)
Record svc : Type := mkSvc {
  predict_proba : option (list Q -> result Q);
  decision_function : list Q -> result Q
}.

(** [scaler.transform([feats])]: [ValueError] on a feature count other
    than the one seen in training. *)
Definition transform (sc : scaler) (feats : list Q) : result (list Q) :=
  if Nat.eqb (length feats) (n_features_in_ sc) then Ok (scale sc feats)
  else Raise (LibraryError
    ("X has " ++ pretty (length feats) ++ " features, but StandardScaler is expecting "
     ++ pretty (n_features_in_ sc) ++ " features as input.")).

(** A file of the [models] directory: not there, there but rejected by
    [joblib.load] with an exception text, or holding an object. *)
Inductive artifact (A : Type) : Type :=
| NotThere
| Corrupt (err : string)
| Stored (a : A).
Arguments NotThere {A}.
Arguments Corrupt {A} err.
Arguments Stored {A} a.

Definition exists_ {A} (f : artifact A) : bool :=
  match f with NotThere => false | _ => true end.

Definition joblib_load {A} (f : artifact A) : result A :=
  match f with
  | NotThere => Raise (IOError "No such file or directory")
  | Corrupt err => Raise (LibraryError err)
  | Stored a => Ok a
  end.

(** [str(e)] of an exception. *)
Definition str_exn (e : exn) : string :=
  match e with
  | UnicodeEncodeError => "surrogates not allowed"
  | OverflowError => "int too big to convert"
  | ReshapeError => "cannot reshape array"
  | BytesRangeError => "bytes must be in range(0, 256)"
  | IntParseError => "invalid literal for int()"
  | AudioTooSmall c n =>
      "Message too long for this audio. Capacity bits = " ++ pretty c
      ++ ", needed = " ++ pretty n
  | VideoTooSmall c n =>
      "Video too small for message. Capacity bits=" ++ pretty c
      ++ ", needed=" ++ pretty n
  | RuntimeError msg => msg
  | IOError msg => msg
  | EmptyAudioSignal => "Empty audio signal."
  | ZeroDivisionError => "float division by zero"
  | LibraryError msg => msg
  end.

(** ** core/audio_detector.py *)

Module audio_detector.

(** What the functions read: the decoded mono 16-bit signal of each
    path (what [_load_audio_pcm16] returns), the feature vector the
    signal-processing library computes from a non-empty signal, and the
    two artifact files. *)
Record env : Type := mkEnv {
  pcm16 : gmap string (list Z);
  mfcc_features : list Z -> list Q;
  AUDIO_SCALER_PATH : artifact scaler;
  AUDIO_SVM_PATH : artifact svc
}.

Definition _load_audio_pcm16 (E : env) (path : string) : result (list Z) :=
  match pcm16 E !! path with
  | Some pcm => Ok (astype_int16 pcm)
  | None => Raise (IOError path)
  end.

Definition audio_lsb_statistics (E : env) (path : string)
  : result method_result :=
  do pcm <- _load_audio_pcm16 E path;
  if len pcm =? 0 then
    Ok (mkResult "A1_LSB_stats" (Some 0%Q) "Audio too short / invalid" None None)
  else
    let lsb := map (fun x => Z.land x 1) pcm in
    let ones := count_nonzero lsb in
    let zeros := len lsb - ones in
    do p1 <- py_div (inject_Z ones) (inject_Z (len lsb));
    do p0 <- py_div (inject_Z zeros) (inject_Z (len lsb));
    let balance := balance_of p1 in
    let verdict := lsb_verdict balance in
    Ok (mkResult "A1_LSB_stats" (Some balance) verdict (Some p0) (Some p1)).

Definition extract_audio_features (E : env) (path : string)
  : result (list Q) :=
  do y <- _load_audio_pcm16 E path;
  if len y =? 0 then Raise EmptyAudioSignal
  else Ok (mfcc_features E y).

Definition audio_mfcc_svm (E : env) (path : string) : result method_result :=
  if negb (exists_ (AUDIO_SCALER_PATH E)) || negb (exists_ (AUDIO_SVM_PATH E))
  then
    Ok (mkResult "A2_MFCC_SVM" None
          "Model not trained yet. Run training/train_audio_svm.py." None None)
  else
    do scaler <- joblib_load (AUDIO_SCALER_PATH E);
    do clf <- joblib_load (AUDIO_SVM_PATH E);
    do feats <- extract_audio_features E path;
    do feats_scaled <- transform scaler feats;
    do proba <-
      match predict_proba clf with
      | Some f => f feats_scaled
      | None => Raise (LibraryError "predict_proba is not available when probability=False")
      end;
    let verdict :=
      if Qlt_bool proba (3 # 10) then "Likely clean"
      else if Qlt_bool proba (7 # 10) then "Uncertain"
      else "Likely stego" in
    Ok (mkResult "A2_MFCC_SVM" (Some proba) verdict None None).

Definition analyze_audio (E : env) (path : string) : result overview :=
  let results := [] in
  do a1 <- audio_lsb_statistics E path;
  let results := results ++ [a1] in
  do a2 <- audio_mfcc_svm E path;
  let results := results ++ [a2] in
  let '(best_audio_score, best_method) :=
    fold_left keep_best results (None, None) in
  Ok (mkOverview best_audio_score best_method results).

End audio_detector.

(** ** core/video_detector.py *)

Module video_detector.

(** What the functions read: the BGR frames [utils_av.extract_frames]
    samples from each path, the grey levels the image library computes
    for a frame, the residual-histogram feature vector of a path (or the
    exception [extract_video_features] ends with), the logistic squashing
    of a decision value, and the two artifact files. *)
Record env : Type := mkEnv {
  extract_frames : string -> list ndarray;
  cvtColor_BGR2GRAY : ndarray -> list Z;
  extract_video_features : string -> result (list Q);
  sigmoid : Q -> Q;
  VIDEO_SCALER_PATH : artifact scaler;
  VIDEO_SVM_PATH : artifact svc
}.

Definition frame_lsb_statistics (E : env) (frames : list ndarray)
  : result method_result :=
  match frames with
  | [] =>
      Ok (mkResult "V1_frame_LSB_stats" (Some 0%Q) "No frames extracted" None None)
  | _ :: _ =>
      let all_lsb :=
        concat (map (fun frame =>
                       map (fun x => Z.land x 1) (cvtColor_BGR2GRAY E frame))
                    frames) in
      let ones := count_nonzero all_lsb in
      let zeros := len all_lsb - ones in
      do p1 <- py_div (inject_Z ones) (inject_Z (len all_lsb));
      do p0 <- py_div (inject_Z zeros) (inject_Z (len all_lsb));
      let balance := balance_of p1 in
      let verdict := lsb_verdict balance in
      Ok (mkResult "V1_frame_LSB_stats" (Some balance) verdict (Some p0) (Some p1))
  end.

Definition method_name : string := "V2_frame_SVM".

Definition video_frame_svm (E : env) (path : string) : method_result :=
  if negb (exists_ (VIDEO_SCALER_PATH E)) || negb (exists_ (VIDEO_SVM_PATH E))
  then
    mkResult method_name None
      "Model not trained yet. Run training/train_video_svm.py." None None
  else
    match (do scaler <- joblib_load (VIDEO_SCALER_PATH E);
           do clf <- joblib_load (VIDEO_SVM_PATH E);
           Ok (scaler, clf)) with
    | Raise e =>
        mkResult method_name None
          ("Could not load video SVM model: " ++ str_exn e) None None
    | Ok (scaler, clf) =>
        match extract_video_features E path with
        | Raise e =>
            mkResult method_name None
              ("Feature extraction failed: " ++ str_exn e) None None
        | Ok feats =>
            match transform scaler feats with
            | Raise e =>
                let n_feats := length feats in
                mkResult method_name None
                  ("Video SVM model is not compatible with the current feature vector "
                   ++ "(got " ++ pretty n_feats ++ " features; scaler expects "
                   ++ pretty (n_features_in_ scaler) ++ "). "
                   ++ "You likely changed extract_video_features() after training. "
                   ++ "Re-run training/train_video_svm.py with the current features "
                   ++ "if you want V2 to work, or ignore this message and rely on V1."
                   ++ String (ascii_of_nat 10) "Internal error: " ++ str_exn e)
                  None None
            | Ok feats_scaled =>
                match (match predict_proba clf with
                       | Some f => f feats_scaled
                       | None =>
                           do dec <- decision_function clf feats_scaled;
                           Ok (sigmoid E dec)
                       end) with
                | Raise e =>
                    mkResult method_name None
                      ("Video SVM prediction failed: " ++ str_exn e) None None
                | Ok proba =>
                    let verdict :=
                      if Qlt_bool proba (2 # 5) then "Likely clean"
                      else if Qlt_bool proba (3 # 5) then "Uncertain"
                      else "Likely stego" in
                    mkResult method_name (Some proba) verdict None None
                end
            end
        end
    end.

Definition analyze_video (E : env) (path : string) : result overview :=
  let frames := extract_frames E path in
  do v1_result <- frame_lsb_statistics E frames;
  let v2_result := video_frame_svm E path in
  let results := [v1_result; v2_result] in
  let '(best_video_score, best_method) :=
    fold_left keep_best results (None, None) in
  Ok (mkOverview best_video_score best_method results).

End video_detector.

(** ** The wire format and the frame, as the specification words them *)

(** A byte value, and a 0/1 value. *)
Definition is_byte (b : Z) : Prop := 0 <= b < 256.
Definition is_bit (b : Z) : Prop := b = 0 \/ b = 1.

(** The eight bits of a byte, most significant first. *)
Definition msb_first (b : Z) : list Z :=
  map (fun i => Z.b2z (Z.testbit b i)) [7; 6; 5; 4; 3; 2; 1; 0].

(** A length as four bytes, big-endian. *)
Definition be32 (L : Z) : list Z :=
  [(L / 2 ^ 24) mod 256; (L / 2 ^ 16) mod 256; (L / 2 ^ 8) mod 256; L mod 256].

(** [[4 bytes big-endian length L][L bytes UTF-8 text]], every byte
    expanded into eight bits most-significant-bit first. *)
Definition wire_format (text : list Z) : list Z :=
  flat_map msb_first (be32 (len text) ++ text).

(** The unsigned integer a row of bits spells, first bit most
    significant. *)
Fixpoint be_value (row : list Z) : Z :=
  match row with
  | [] => 0
  | b :: t => b * 2 ^ len t + be_value t
  end.

(** The header [L] of a bit sequence: its first 32 bits, big-endian. *)
Definition header_length (bits : list Z) : Z := be_value (slice 0 32 bits).

(** The [i]-th byte after the header, recovered MSB-first. *)
Definition payload_byte (bits : list Z) (i : nat) : Z :=
  be_value (slice (32 + 8 * Z.of_nat i) (40 + 8 * Z.of_nat i) bits).

(** The [L] bytes after the header. *)
Definition payload_bytes (bits : list Z) : list Z :=
  map (payload_byte bits) (seq 0 (Z.to_nat (header_length bits))).

(** The [L] payload bytes decoded as UTF-8 with lossy replacement. *)
Definition payload_text (bits : list Z) : pystr :=
  utf8_decode_replace (payload_bytes bits).

(** Empty or whitespace-only. *)
Definition blank (s : pystr) : Prop := Forall (fun c => isspace c = true) s.

(** The conditions under which a bit sequence holds no payload, for a
    maximum byte length [max_len]. *)
Definition absent (bits : list Z) (max_len : Z) : Prop :=
  len bits < 32
  \/ header_length bits = 0
  \/ max_len < header_length bits
  \/ (len bits - 32) / 8 < header_length bits
  \/ blank (payload_text bits).

(** The expansion of one byte as the video encoder writes it. *)
Definition byte_bits (b : Z) : list Z :=
  map (fun i => Z.land (Z.shiftr b i) 1) range_7_down.

(** Equality test on encoder results, for checks by enumeration. *)
Definition result_eqb (a b : result (list Z)) : bool :=
  match a, b with
  | Ok x, Ok y => bool_decide (x = y)
  | _, _ => false
  end.

(** What the decoders return on a sequence of bits, in one expression. *)
Definition decoded (bits : list Z) (max_len : Z) : option pystr :=
  if (len bits <? 32) || (header_length bits <=? 0)
     || ((len bits - 32) / 8 <? header_length bits)
     || (max_len <? header_length bits)
     || pystr_eqb (strip (payload_text bits)) []
  then None else Some (payload_text bits).

(** Clear the low bit of [x], then OR it with [b]. *)
Definition set_bit (x b : Z) : Z := Z.lor (Z.land x (Z.lnot 1)) b.

(** The low bit of every element. *)
Definition lsbs (flat : list Z) : list Z := map (fun x => Z.land x 1) flat.

(** One round of the video embedding loop on the byte [x]. *)
Definition set_bit_u8 (x b : Z) : Z :=
  if b =? 0 then Z.land x 0xFE else Z.lor x 0x01.

(** The frames rebuilt from a flat buffer, shape by shape. *)
Fixpoint reframe (frames : list ndarray) (flat : list Z) : list ndarray :=
  match frames with
  | [] => []
  | f :: rest =>
      mkArr (shape f) (take (length (data f)) flat)
      :: reframe rest (drop (length (data f)) flat)
  end.

(** All frames as one flat buffer, in frame order. *)
Definition flatten (frames : list ndarray) : list Z := concat (map data frames).

(** Frames whose data fill their shape with 8-bit values. *)
Definition wf_frames (frames : list ndarray) : Prop :=
  Forall wf_ndarray frames /\ Forall is_byte (flatten frames).

(** The flat buffer after the embedding loop, and the frames cut from it. *)
Definition set_lsbs_u8 (flat bits : list Z) : list Z :=
  zip_with set_bit_u8 (take (length bits) flat) bits ++ drop (length bits) flat.

(** The frames the video embedding encodes. *)
Definition stego_frames (frames : list ndarray) (bits : list Z) : list ndarray :=
  reframe frames (set_lsbs_u8 (flatten frames) bits).

(** What the video embedding returns and leaves behind once it has handed
    [frames] to the encoding run [ffv1] at the rate [fps]: the outcome of
    that run, the file it left at [stego_path] if any, no scratch
    directory. *)
Definition after_encoding (w : stego_video.world)
    (ffv1 : Q -> list ndarray -> string -> stego_video.encoding)
    (fps : Q) (frames : list ndarray) (stego_path : string)
  : result unit * stego_video.world :=
  let run := ffv1 fps frames stego_path in
  (match stego_video.failure run with
   | Some stderr => Raise (RuntimeError ("ffmpeg encoding failed: " ++ stderr))
   | None => Ok tt
   end,
   stego_video.mkWorld
     (match stego_video.written run with
      | Some c => <[stego_path := c]> (stego_video.files w)
      | None => stego_video.files w
      end) None (stego_video.Working ffv1)).

(** An encoding run is exact on [frames] when it succeeds and its file
    reads back as these frames, at whatever rate. *)
Definition exact_on (ffv1 : Q -> list ndarray -> string -> stego_video.encoding)
    (fps : Q) (frames : list ndarray) (stego_path : string) : Prop :=
  exists fps', ffv1 fps frames stego_path
               = stego_video.mkEncoding None (Some (stego_video.Video fps' frames)).

(** ** Scores and overviews, as the specification words them *)

(** The fraction of 1-valued entries of a list of low bits. *)
Definition fraction_of_ones (lsb : list Z) : Q :=
  (inject_Z (count_nonzero lsb) / inject_Z (len lsb))%Q.

(** The low bits the statistical video method collects. *)
Definition grey_lsbs (E : video_detector.env) (frames : list ndarray) : list Z :=
  concat (map (fun frame => map (fun x => Z.land x 1)
                                (video_detector.cvtColor_BGR2GRAY E frame))
              frames).

(** The result the overview singles out, as the specification words it:
    nothing when every score is null, otherwise the first result among
    those of greatest score. *)
Definition is_best (results : list method_result)
    (best : option Q * option string) : Prop :=
  (Forall (fun r => score r = None) results /\ best = (None, None))
  \/ exists (i : nat) r s,
       results !! i = Some r /\ score r = Some s
       /\ best = (Some s, Some (method r))
       /\ forall (j : nat) r' s',
            results !! j = Some r' -> score r' = Some s' ->
            (s' <= s)%Q /\ ((j < i)%nat -> (s' < s)%Q).

(** The three ways an artifact pair can be unusable for a feature vector. *)
Inductive broken {A B} (sc : artifact scaler) (clf : artifact A)
    (feats : result (list B)) : Prop :=
| missing : exists_ sc = false \/ exists_ clf = false -> broken sc clf feats
| unreadable err :
    exists_ sc = true -> exists_ clf = true ->
    sc = Corrupt err \/ clf = Corrupt err -> broken sc clf feats
| mismatched s c fs :
    sc = Stored s -> clf = Stored c -> feats = Ok fs ->
    length fs <> n_features_in_ s -> broken sc clf feats.

(** The verdict that goes with a fraction [p] of 1-valued low bits, where
    [p] keeps clear of the cut-offs: the score [1 - 2 * |p - 1/2|] is then
    at least one tenth away from 2/5 and 7/10. *)
Definition verdict_with_margin (p : Q) (v : string) : Prop :=
  ((p <= 3 # 20)%Q \/ (17 # 20 <= p)%Q ->
   v = "Likely clean (LSB distribution skewed)"%string)
  /\ ((2 # 5 <= p)%Q /\ (p <= 3 # 5)%Q ->
      v = "Suspicious (LSB distribution very balanced)"%string)
  /\ (((1 # 4 <= p)%Q /\ (p <= 3 # 10)%Q) \/ ((7 # 10 <= p)%Q /\ (p <= 3 # 4)%Q) ->
      v = "Uncertain (LSB distribution moderate)"%string).

(** How the overview of a statistical result [r1] and a learned result
    [r2] singles out its best. *)
Definition statistical_unless_beaten (r1 r2 : method_result) (ov : overview)
  : Prop :=
  exists s1 s,
    score r1 = Some s1 /\ best_score ov = Some s /\ (s1 <= s)%Q
    /\ ((best_method ov = Some (method r1) /\ s = s1
         /\ forall s2, score r2 = Some s2 -> (s2 <= s1)%Q)
        \/ (best_method ov = Some (method r2) /\ score r2 = Some s
            /\ (s1 < s)%Q)).

(** What the learned video method asks of the classifier: the class
    probability, or the squashed decision value when the classifier has no
    probability estimates. *)
Definition video_probability (E : video_detector.env) (clf : svc)
    (feats_scaled : list Q) : result Q :=
  match predict_proba clf with
  | Some f => f feats_scaled
  | None =>
      do dec <- decision_function clf feats_scaled;
      Ok (video_detector.sigmoid E dec)
  end.

(** ** core/utils_av.py *)

(** [a % b] on Python integers: the sign follows the divisor, and a zero
    divisor raises. *)
Definition py_mod (a b : Z) : result Z :=
  if b =? 0 then Raise ZeroDivisionError else Ok (a mod b).

Module utils_av.

Definition AUDIO_EXTENSIONS : gset string :=
  {[ ".wav"; ".mp3"; ".flac"; ".ogg"; ".m4a" ]}%string.
Definition VIDEO_EXTENSIONS : gset string :=
  {[ ".mp4"; ".avi"; ".mkv"; ".mov"; ".flv" ]}%string.

(** A clip opened by the fallback library: its duration, absent for some
    sources, and the frame at a time, which may fail. *)
Record clip : Type := mkClip {
  duration : option Q;
  get_frame : Q -> option ndarray
}.

(** What the functions read: [Path(path).suffix.lower()]; for each path
    the frames that [cap.read()] delivers before it reports the end, or
    nothing when the capture does not open; the clip the fallback library
    opens, or nothing when it raises; and the colour conversion of one
    frame. *)
Record env : Type := mkEnv {
  suffix_lower : string -> string;
  VideoCapture : string -> option (list ndarray);
  VideoFileClip : string -> option clip;
  cvtColor_RGB2BGR : ndarray -> result ndarray
}.

Definition is_audio_file (E : env) (path : string) : bool :=
  bool_decide (suffix_lower E path ∈ AUDIO_EXTENSIONS).

Definition is_video_file (E : env) (path : string) : bool :=
  bool_decide (suffix_lower E path ∈ VIDEO_EXTENSIONS).

(** The loop [while True] of [extract_frames], from a state
    [(frame_index, frames)], over the frames still to be read. *)
Fixpoint read_loop (frame_step max_frames : Z) (reads : list ndarray)
    (frame_index : Z) (frames : list ndarray) : result (list ndarray) :=
  match reads with
  | [] => Ok frames
  | frame :: rest =>
      do r <- py_mod frame_index frame_step;
      if r =? 0 then
        let frames := frames ++ [frame] in
        if max_frames <=? len frames then Ok frames
        else read_loop frame_step max_frames rest (frame_index + 1) frames
      else read_loop frame_step max_frames rest (frame_index + 1) frames
  end.

(** [range(n)]. *)
Definition range (n : Z) : list Z := map Z.of_nat (seq 0 (Z.to_nat n)).

(** The sample times [duration * (i + 0.5) / num_samples]. *)
Definition times (duration : Q) (num_samples : Z) : list Q :=
  map (fun i => (duration * (inject_Z i + (1 # 2)) / inject_Z num_samples)%Q)
      (range num_samples).

(** The loop [for t in times] of [_extract_frames_moviepy]: a frame that
    cannot be fetched is skipped, a failing colour conversion ends the
    function with the frames collected so far. *)
Fixpoint grab_loop (E : env) (c : clip) (max_frames : Z) (ts : list Q)
    (frames : list ndarray) : list ndarray :=
  match ts with
  | [] => frames
  | t :: rest =>
      match get_frame c t with
      | None => grab_loop E c max_frames rest frames
      | Some frame_rgb =>
          match cvtColor_RGB2BGR E frame_rgb with
          | Raise _ => frames
          | Ok frame_bgr =>
              let frames := frames ++ [frame_bgr] in
              if max_frames <=? len frames then frames
              else grab_loop E c max_frames rest frames
          end
      end
  end.

Definition _extract_frames_moviepy (E : env) (video_path : string)
    (max_frames : Z) : list ndarray :=
  match VideoFileClip E video_path with
  | None => []
  | Some c =>
      let duration := match duration c with
                      | Some d => if Qeq_bool d 0 then 0%Q else d
                      | None => 0%Q
                      end in
      if Qle_bool duration 0 then []
      else
        let num_samples := max_frames in
        grab_loop E c max_frames (times duration num_samples) []
  end.

Definition extract_frames (E : env) (video_path : string)
    (max_frames frame_step : Z) : result (list ndarray) :=
  if String.eqb (suffix_lower E video_path) ".mkv"
  then Ok (_extract_frames_moviepy E video_path max_frames)
  else
    do frames <-
      match VideoCapture E video_path with
      | Some reads => read_loop frame_step max_frames reads 0 []
      | None => Ok []
      end;
    match frames with
    | _ :: _ => Ok frames
    | [] => Ok (_extract_frames_moviepy E video_path max_frames)
    end.

Definition max_frames_default : Z := 50.
Definition frame_step_default : Z := 5.

End utils_av.

(** ** streamlit_app.py: file kinds and message limits *)

Module streamlit_app.

Definition MAX_AUDIO_MESSAGE_CHARS : Z := 5000.
Definition MAX_VIDEO_MESSAGE_CHARS : Z := 20000.

(** [classify_file_type]: the kind and the lowered suffix. *)
Definition classify_file_type (E : utils_av.env) (filename : string)
  : option string * string :=
  let suffix := utils_av.suffix_lower E filename in
  let audio_exts : gset string :=
    {[ ".wav"; ".mp3"; ".flac"; ".ogg"; ".m4a" ]}%string in
  let video_exts : gset string :=
    {[ ".mp4"; ".avi"; ".mkv"; ".mov"; ".flv" ]}%string in
  if bool_decide (suffix ∈ audio_exts) then (Some "audio"%string, suffix)
  else if bool_decide (suffix ∈ video_exts) then (Some "video"%string, suffix)
  else (None, suffix).

(** The length test of the embed tab on one message, for a file kind:
    [len(message) > MAX_..._CHARS]. *)
Definition message_too_long (kind : string) (message : pystr) : bool :=
  if String.eqb kind "audio" then MAX_AUDIO_MESSAGE_CHARS <? len message
  else if String.eqb kind "video" then MAX_VIDEO_MESSAGE_CHARS <? len message
  else false.

End streamlit_app.

(** ** core/video_detector.py: the frames the features are computed from *)

Module video_features.

(** The loop [for idx, frame in enumerate(reader)] of
    [extract_video_features], from a state [(idx, frames)]. *)
Fixpoint sample_loop (frame_step max_frames : Z) (reader : list ndarray)
    (idx : Z) (frames : list ndarray) : result (list ndarray) :=
  match reader with
  | [] => Ok frames
  | frame :: rest =>
      do r <- py_mod idx frame_step;
      if negb (r =? 0) then sample_loop frame_step max_frames rest (idx + 1) frames
      else
        let frames := frames ++ [mkArr (shape frame) (astype_uint8 (data frame))] in
        if max_frames <=? len frames then Ok frames
        else sample_loop frame_step max_frames rest (idx + 1) frames
  end.

(** The first part of [extract_video_features]: the sampled frames, or
    the exceptions of the reader, of the modulo and of the emptiness
    test. *)
Definition sampled_frames (w : stego_video.world) (path : string)
    (max_frames frame_step : Z) : result (list ndarray) :=
  match stego_video.get_reader w path with
  | inl err => Raise (IOError err)
  | inr (_, reader) =>
      do frames <- sample_loop frame_step max_frames reader 0 [];
      match frames with
      | [] => Raise (LibraryError "No frames extracted from video.")
      | _ :: _ => Ok frames
      end
  end.

Definition max_frames_default : Z := 40.
Definition frame_step_default : Z := 2.

End video_features.

(** What a sampling loop returns, as a list: the frames at the positions
    0, [step], 2 * [step], ..., at most [limit] of them. *)
Definition every_nth (step limit : nat) (reads : list ndarray) (out : list ndarray)
  : Prop :=
  forall j : nat,
    out !! j = if (j <? limit)%nat then reads !! (j * step)%nat else None.

(** * Properties *)

(** ** The UTF-8 codec *)

Ltac zb :=
  repeat match goal with
  | |- context [Z.ltb ?a ?b] => destruct (Z.ltb_spec a b); try lia
  | |- context [Z.leb ?a ?b] => destruct (Z.leb_spec a b); try lia
  | |- context [Z.eqb ?a ?b] => destruct (Z.eqb_spec a b); try lia
  end.

Lemma start_byte_ascii b : b < 0x80 -> start_byte b = (d0, [b]).
Proof. intros. unfold start_byte. zb. reflexivity. Qed.

Lemma start_byte_2 b :
  0xC2 <= b <= 0xDF -> start_byte b = (mkD 1 (b - 0xC0) 0x80 0xBF, []).
Proof. intros. unfold start_byte. zb. reflexivity. Qed.

Lemma start_byte_3 b :
  0xE0 <= b <= 0xEF ->
  start_byte b = (mkD 2 (b - 0xE0) (if b =? 0xE0 then 0xA0 else 0x80)
                        (if b =? 0xED then 0x9F else 0xBF), []).
Proof.
  intros. unfold start_byte.
  destruct (Z.ltb_spec b 128); try lia.
  destruct (Z.leb_spec 194 b); try lia.
  destruct (Z.leb_spec b 223); try lia.
  destruct (Z.leb_spec 224 b); try lia.
  destruct (Z.leb_spec b 239); try lia.
  reflexivity.
Qed.

Lemma start_byte_4 b :
  0xF0 <= b <= 0xF4 ->
  start_byte b = (mkD 3 (b - 0xF0) (if b =? 0xF0 then 0x90 else 0x80)
                        (if b =? 0xF4 then 0x8F else 0xBF), []).
Proof.
  intros. unfold start_byte.
  destruct (Z.ltb_spec b 128); try lia.
  destruct (Z.leb_spec 194 b); try lia.
  destruct (Z.leb_spec b 223); try lia.
  destruct (Z.leb_spec 224 b); try lia.
  destruct (Z.leb_spec b 239); try lia.
  destruct (Z.leb_spec 240 b); try lia.
  destruct (Z.leb_spec b 244); try lia.
  reflexivity.
Qed.

Lemma step_byte_last a lo hi b :
  lo <= b <= hi ->
  step_byte (mkD 1 a lo hi) b = (d0, [a * 64 + (b - 0x80)]).
Proof.
  intros. unfold step_byte. cbn [needed lower upper acc].
  destruct (Z.leb_spec lo b); try lia.
  destruct (Z.leb_spec b hi); try lia.
  reflexivity.
Qed.

Lemma step_byte_more k a lo hi b :
  lo <= b <= hi ->
  step_byte (mkD (S (S k)) a lo hi) b =
    (mkD (S k) (a * 64 + (b - 0x80)) 0x80 0xBF, []).
Proof.
  intros. unfold step_byte. cbn [needed lower upper acc].
  destruct (Z.leb_spec lo b); try lia.
  destruct (Z.leb_spec b hi); try lia.
  reflexivity.
Qed.

Lemma utf8_run_step s b t s' out :
  step_byte s b = (s', out) -> utf8_run s (b :: t) = out ++ utf8_run s' t.
Proof. intros H. cbn [utf8_run]. rewrite H. reflexivity. Qed.

Lemma step_byte_d0 b : step_byte d0 b = start_byte b.
Proof. reflexivity. Qed.

Lemma utf8_run_encode_char c bs rest :
  code_point c -> utf8_encode_char c = Ok bs ->
  utf8_run d0 (bs ++ rest) = c :: utf8_run d0 rest.
Proof.
  unfold code_point, utf8_encode_char, is_surrogate. intros Hc.
  destruct (Z.ltb_spec c 0x80).
  { intros [= <-]. cbn [app].
    erewrite utf8_run_step by (rewrite step_byte_d0; apply start_byte_ascii; lia).
    reflexivity. }
  destruct (Z.ltb_spec c 0x800).
  { intros [= <-]. cbn [app].
    assert (2 <= c / 64 <= 31) by (Z.div_mod_to_equations; lia).
    assert (0 <= c mod 64 <= 63) by (Z.div_mod_to_equations; lia).
    assert (c / 64 * 64 + c mod 64 = c) by (Z.div_mod_to_equations; lia).
    erewrite utf8_run_step by (rewrite step_byte_d0; apply start_byte_2; lia).
    erewrite utf8_run_step by (apply step_byte_last; lia).
    cbn [app]. f_equal. lia. }
  destruct (Z.leb_spec 0xD800 c); destruct (Z.leb_spec c 0xDFFF); cbn [andb];
    try discriminate.
  all: destruct (Z.ltb_spec c 0x10000).
  all: intros [= <-]; cbn [app].
  all: try (
    assert (0 <= c / 4096 <= 15) by (Z.div_mod_to_equations; lia);
    assert (0 <= (c / 64) mod 64 <= 63) by (Z.div_mod_to_equations; lia);
    assert (0 <= c mod 64 <= 63) by (Z.div_mod_to_equations; lia);
    assert ((c / 4096 * 64 + (c / 64) mod 64) * 64 + c mod 64 = c)
      by (Z.div_mod_to_equations; lia);
    assert (c / 4096 = 0 -> 32 <= (c / 64) mod 64) by (Z.div_mod_to_equations; lia);
    assert (c / 4096 = 13 -> (c / 64) mod 64 <= 31) by (Z.div_mod_to_equations; lia);
    erewrite utf8_run_step by (rewrite step_byte_d0; apply start_byte_3; lia);
    erewrite utf8_run_step by
      (apply step_byte_more;
       destruct (Z.eqb_spec (224 + c / 4096) 224);
       destruct (Z.eqb_spec (224 + c / 4096) 237); lia);
    erewrite utf8_run_step by (apply step_byte_last; lia);
    cbn [app]; f_equal; lia).
  all: assert (0 <= c / 262144 <= 4) by (Z.div_mod_to_equations; lia);
    assert (0 <= (c / 4096) mod 64 <= 63) by (Z.div_mod_to_equations; lia);
    assert (0 <= (c / 64) mod 64 <= 63) by (Z.div_mod_to_equations; lia);
    assert (0 <= c mod 64 <= 63) by (Z.div_mod_to_equations; lia);
    assert (((c / 262144 * 64 + (c / 4096) mod 64) * 64 + (c / 64) mod 64) * 64
            + c mod 64 = c) by (Z.div_mod_to_equations; lia);
    assert (c / 262144 = 0 -> 16 <= (c / 4096) mod 64) by (Z.div_mod_to_equations; lia);
    assert (c / 262144 = 4 -> (c / 4096) mod 64 <= 15) by (Z.div_mod_to_equations; lia);
    erewrite utf8_run_step by (rewrite step_byte_d0; apply start_byte_4; lia);
    erewrite utf8_run_step by
      (apply step_byte_more;
       destruct (Z.eqb_spec (240 + c / 262144) 240);
       destruct (Z.eqb_spec (240 + c / 262144) 244); lia);
    erewrite utf8_run_step by (apply step_byte_more; lia);
    erewrite utf8_run_step by (apply step_byte_last; lia);
    cbn [app]; f_equal; lia.
Qed.

Lemma bind_Ok {A B} (m : result A) (k : A -> result B) b :
  bind m k = Ok b -> exists a, m = Ok a /\ k a = Ok b.
Proof. destruct m as [a|e]; simpl; [eauto | discriminate]. Qed.

Lemma utf8_roundtrip s bs :
  Forall code_point s -> utf8_encode s = Ok bs -> utf8_decode_replace bs = s.
Proof.
  unfold utf8_decode_replace. intros Hs. revert bs.
  induction Hs as [|c t Hc Ht IH]; intros bs.
  - intros [= <-]. reflexivity.
  - cbn [utf8_encode]. intros H.
    apply bind_Ok in H as (b1 & Hb1 & H).
    apply bind_Ok in H as (b2 & Hb2 & H).
    injection H as <-.
    rewrite (utf8_run_encode_char c b1 b2 Hc Hb1).
    f_equal. auto.
Qed.


Lemma utf8_encode_char_bytes c bs :
  code_point c -> utf8_encode_char c = Ok bs -> Forall is_byte bs.
Proof.
  unfold code_point, utf8_encode_char, is_byte. intros Hc.
  destruct (c <? 128) eqn:E1; [apply Z.ltb_lt in E1|apply Z.ltb_ge in E1].
  { intros [= <-]. repeat constructor; lia. }
  destruct (c <? 2048) eqn:E2; [apply Z.ltb_lt in E2|apply Z.ltb_ge in E2].
  { intros [= <-]. repeat constructor; Z.div_mod_to_equations; lia. }
  destruct (is_surrogate c); [discriminate|].
  destruct (c <? 65536) eqn:E3; [apply Z.ltb_lt in E3|apply Z.ltb_ge in E3].
  all: intros [= <-]; repeat constructor; Z.div_mod_to_equations; lia.
Qed.

Lemma utf8_encode_bytes s bs :
  Forall code_point s -> utf8_encode s = Ok bs -> Forall is_byte bs.
Proof.
  intros Hs. revert bs. induction Hs as [|c t Hc Ht IH]; intros bs.
  - intros [= <-]. constructor.
  - cbn [utf8_encode]. intros H.
    apply bind_Ok in H as (b1 & Hb1 & H).
    apply bind_Ok in H as (b2 & Hb2 & H).
    injection H as <-.
    apply Forall_app. split; eauto using utf8_encode_char_bytes.
Qed.

(** strip *)
Lemma lstrip_blank s : Forall (fun c => isspace c = true) s -> lstrip s = [].
Proof. induction 1 as [|c t Hc _ IH]; cbn; [|rewrite Hc]; auto. Qed.

Lemma lstrip_nil_inv s : lstrip s = [] -> Forall (fun c => isspace c = true) s.
Proof.
  induction s as [|c t IH]; cbn; [constructor|].
  destruct (isspace c) eqn:E; [|discriminate]. auto.
Qed.

Lemma strip_nil_iff s : strip s = [] <-> Forall (fun c => isspace c = true) s.
Proof.
  unfold strip. split.
  - intros H. apply (f_equal (@rev Z)) in H. rewrite rev_involutive in H.
    cbn in H. apply lstrip_nil_inv in H.
    (* rev (lstrip s) all blank, so lstrip s is blank, so... *)
    apply Forall_rev in H. rewrite rev_involutive in H.
    induction s as [|c t IH]; [constructor|].
    cbn in H. destruct (isspace c) eqn:E.
    + constructor; auto.
    + inversion H; congruence.
  - intros H. rewrite (lstrip_blank _ H). reflexivity.
Qed.

(** bytes by enumeration *)
Lemma byte_cases (P : Z -> bool) :
  forallb P (map Z.of_nat (seq 0 256)) = true ->
  forall b, is_byte b -> P b = true.
Proof.
  intros H b Hb. rewrite forallb_forall in H. apply H.
  rewrite <- (Z2Nat.id b) by (unfold is_byte in Hb; lia).
  apply in_map, in_seq. unfold is_byte in Hb. lia.
Qed.


Lemma format_08b_bits b :
  is_byte b -> mapM int_of_char (format_08b b) = Ok (byte_bits b).
Proof.
  intros Hb.
  assert (H : result_eqb (mapM int_of_char (format_08b b)) (Ok (byte_bits b)) = true).
  { revert b Hb. apply byte_cases. vm_compute. reflexivity. }
  unfold result_eqb in H. destruct (mapM int_of_char (format_08b b)); [|discriminate].
  apply bool_decide_eq_true in H. congruence.
Qed.

Lemma bits_to_int_byte_bits b : is_byte b -> bits_to_int (byte_bits b) = b.
Proof.
  intros Hb.
  assert (H : (bits_to_int (byte_bits b) =? b) = true).
  { revert b Hb. apply byte_cases. vm_compute. reflexivity. }
  apply Z.eqb_eq in H. exact H.
Qed.

Lemma byte_bits_bits b : is_byte b -> Forall is_bit (byte_bits b).
Proof.
  intros Hb.
  assert (H : forallb (fun x => (x =? 0) || (x =? 1)) (byte_bits b) = true).
  { revert b Hb. apply byte_cases. vm_compute. reflexivity. }
  rewrite forallb_forall in H. apply List.Forall_forall. intros x Hx.
  specialize (H x Hx). unfold is_bit. lia.
Qed.

Lemma byte_bits_length b : length (byte_bits b) = 8%nat.
Proof. reflexivity. Qed.

Lemma mapM_app {A B} (f : A -> result B) l1 l2 r1 r2 :
  mapM f l1 = Ok r1 -> mapM f l2 = Ok r2 -> mapM f (l1 ++ l2) = Ok (r1 ++ r2).
Proof.
  revert r1. induction l1 as [|a t IH]; intros r1.
  - intros [= <-] H. exact H.
  - cbn [mapM app]. intros H1 H2.
    apply bind_Ok in H1 as (b & Hb & H1).
    apply bind_Ok in H1 as (bs & Hbs & H1). injection H1 as <-.
    rewrite Hb. cbn [bind]. rewrite (IH bs Hbs H2). reflexivity.
Qed.

Lemma mapM_bit_str payload :
  Forall is_byte payload ->
  mapM int_of_char (concat (map format_08b payload)) = Ok (flat_map byte_bits payload).
Proof.
  induction 1 as [|b t Hb _ IH]; [reflexivity|].
  cbn [map concat flat_map]. apply mapM_app; auto using format_08b_bits.
Qed.

Lemma fold_append_bits payload acc0 :
  fold_left
    (fun bit_list b =>
       fold_left (fun bit_list i => bit_list ++ [Z.land (Z.shiftr b i) 1])
                 range_7_down bit_list)
    payload acc0 = acc0 ++ flat_map byte_bits payload.
Proof.
  revert acc0. induction payload as [|b t IH]; intros acc0.
  - cbn. rewrite app_nil_r. reflexivity.
  - cbn [fold_left flat_map]. rewrite IH. unfold range_7_down at 1.
    cbn [fold_left]. unfold byte_bits, range_7_down. cbn [map].
    rewrite <- !app_assoc. reflexivity.
Qed.

Lemma astype_uint8_bits bits : Forall is_bit bits -> astype_uint8 bits = bits.
Proof.
  induction 1 as [|b t Hb _ IH]; [reflexivity|].
  cbn. unfold astype_uint8 in IH. rewrite IH. f_equal.
  unfold wrap_unsigned. destruct Hb; subst; reflexivity.
Qed.

Lemma flat_map_bits payload :
  Forall is_byte payload -> Forall is_bit (flat_map byte_bits payload).
Proof.
  induction 1 as [|b t Hb _ IH]; cbn [flat_map]; [constructor|].
  apply Forall_app; split; auto using byte_bits_bits.
Qed.

Lemma be_bytes_bytes k n : Forall is_byte (be_bytes k n).
Proof.
  induction k as [|k IH]; cbn [be_bytes]; constructor; auto.
  unfold is_byte. apply Z.mod_pos_bound. lia.
Qed.

Lemma be_bytes_4 n : be_bytes 4 n = be32 n.
Proof.
  unfold be32. cbn [be_bytes]. repeat f_equal.
  change (256 ^ Z.of_nat 0) with 1. rewrite Z.div_1_r. reflexivity.
Qed.

Lemma byte_bits_msb_first b : is_byte b -> byte_bits b = msb_first b.
Proof.
  intros Hb.
  assert (H : bool_decide (byte_bits b = msb_first b) = true).
  { revert b Hb. apply byte_cases. vm_compute. reflexivity. }
  apply bool_decide_eq_true in H. exact H.
Qed.

Lemma flat_map_ext_Forall {A B} (P : A -> Prop) (f g : A -> list B) l :
  (forall a, P a -> f a = g a) -> Forall P l -> flat_map f l = flat_map g l.
Proof.
  intros Hfg. induction 1 as [|a t Ha _ IH]; cbn [flat_map]; [reflexivity|].
  rewrite Hfg, IH by assumption. reflexivity.
Qed.

Lemma audio_encode_bits message msg_bytes :
  utf8_encode message = Ok msg_bytes -> Forall is_byte msg_bytes ->
  len msg_bytes < 2 ^ 32 ->
  stego_audio._encode_message_to_bits message
  = Ok (flat_map byte_bits (be_bytes 4 (len msg_bytes) ++ msg_bytes)).
Proof.
  intros He Hb Hl. unfold stego_audio._encode_message_to_bits.
  rewrite He. cbn [bind]. unfold to_bytes_big.
  assert (0 <= len msg_bytes) by (unfold len; lia).
  destruct (Z.leb_spec 0 (len msg_bytes)); [|lia].
  change (256 ^ Z.of_nat 4) with (2 ^ 32).
  destruct (Z.ltb_spec (len msg_bytes) (2 ^ 32)); [|lia].
  cbn [andb bind]. apply mapM_bit_str.
  apply Forall_app. split; auto using be_bytes_bytes.
Qed.

Lemma video_encode_bits message msg_bytes :
  utf8_encode message = Ok msg_bytes -> Forall is_byte msg_bytes ->
  len msg_bytes < 2 ^ 32 ->
  stego_video._encode_message_to_bits message
  = Ok (flat_map byte_bits (be_bytes 4 (len msg_bytes) ++ msg_bytes)).
Proof.
  intros He Hb Hl. unfold stego_video._encode_message_to_bits.
  rewrite He. cbn [bind]. unfold to_bytes_big.
  assert (0 <= len msg_bytes) by (unfold len; lia).
  destruct (Z.leb_spec 0 (len msg_bytes)); [|lia].
  change (Z.to_nat stego_video.HEADER_BYTES) with 4%nat.
  change (256 ^ Z.of_nat 4) with (2 ^ 32).
  destruct (Z.ltb_spec (len msg_bytes) (2 ^ 32)); [|lia].
  cbn [andb bind]. rewrite fold_append_bits. cbn [app].
  rewrite astype_uint8_bits; [reflexivity|].
  apply flat_map_bits, Forall_app. split; auto using be_bytes_bytes.
Qed.

Lemma encoders_raise_alike message :
  Forall code_point message ->
  stego_audio._encode_message_to_bits message
  = stego_video._encode_message_to_bits message.
Proof.
  intros Hm.
  destruct (utf8_encode message) as [msg_bytes|e] eqn:He.
  - pose proof (utf8_encode_bytes _ _ Hm He) as Hb.
    destruct (Z.ltb_spec (len msg_bytes) (2 ^ 32)) as [Hl|Hl].
    + rewrite (audio_encode_bits _ _ He Hb Hl), (video_encode_bits _ _ He Hb Hl).
      reflexivity.
    + unfold stego_audio._encode_message_to_bits,
        stego_video._encode_message_to_bits.
      rewrite He. cbn [bind]. unfold to_bytes_big.
      change (Z.to_nat stego_video.HEADER_BYTES) with 4%nat.
      change (256 ^ Z.of_nat 4) with (2 ^ 32).
      destruct (Z.ltb_spec (len msg_bytes) (2 ^ 32)); [lia|].
      rewrite andb_false_r. reflexivity.
  - unfold stego_audio._encode_message_to_bits,
      stego_video._encode_message_to_bits.
    rewrite He. reflexivity.
Qed.

Lemma bits_are_wire_format msg_bytes :
  Forall is_byte msg_bytes ->
  flat_map byte_bits (be_bytes 4 (len msg_bytes) ++ msg_bytes)
  = wire_format msg_bytes.
Proof.
  intros Hb. unfold wire_format. rewrite <- be_bytes_4.
  apply (flat_map_ext_Forall is_byte); auto using byte_bits_msb_first.
  apply Forall_app. split; auto using be_bytes_bytes.
Qed.

Lemma land_even_1 v : Z.land (v * 2) 1 = 0.
Proof.
  change 1 with (Z.ones 1) at 1. rewrite Z.land_ones by lia.
  change (2 ^ 1) with 2. apply Z.mod_mul. lia.
Qed.

Lemma shift_in_bit v b : is_bit b -> shift_in v b = 2 * v + b.
Proof.
  intros Hb. unfold shift_in. rewrite Z.shiftl_mul_pow2 by lia.
  change (2 ^ 1) with 2.
  destruct Hb; subst.
  - rewrite Z.lor_0_r. lia.
  - pose proof (Z.add_lor_land (v * 2) 1) as H.
    rewrite land_even_1 in H. lia.
Qed.

Lemma fold_shift_in bs : forall v,
  Forall is_bit bs ->
  fold_left shift_in bs v = v * 2 ^ len bs + be_value bs.
Proof.
  induction bs as [|b t IH]; intros v Hbs.
  - cbn [fold_left be_value]. change (2 ^ len []) with 1. lia.
  - inversion Hbs as [|? ? Hb Ht]; subst.
    cbn [fold_left be_value]. rewrite IH by assumption.
    rewrite shift_in_bit by assumption.
    unfold len. cbn [length]. rewrite Nat2Z.inj_succ, Z.pow_succ_r by lia.
    ring.
Qed.

Lemma be_value_range bs :
  Forall is_bit bs -> 0 <= be_value bs < 2 ^ len bs.
Proof.
  induction 1 as [|b t Hb Ht IH].
  - cbn [be_value]. change (2 ^ len []) with 1. lia.
  - cbn [be_value]. unfold len in *. cbn [length].
    rewrite Nat2Z.inj_succ, Z.pow_succ_r by lia.
    assert (0 < 2 ^ Z.of_nat (length t)) by (apply Z.pow_pos_nonneg; lia).
    destruct Hb; subst; lia.
Qed.

Lemma bits_to_int_be_value bs :
  Forall is_bit bs -> bits_to_int bs = be_value bs.
Proof. intros H. unfold bits_to_int. rewrite fold_shift_in by assumption. lia. Qed.

(** ** The decoder *)

Lemma rows_of_spec k : forall fuel l,
  length l = (8 * k)%nat -> (k <= fuel)%nat ->
  rows_of 8 fuel l = map (fun i => take 8 (drop (8 * i) l)) (seq 0 k).
Proof.
  induction k as [|k IH]; intros fuel l Hl Hf.
  - destruct l; [|discriminate]. destruct fuel; reflexivity.
  - destruct fuel as [|fuel]; [lia|].
    destruct l as [|x l']; [discriminate|].
    cbn [rows_of seq map]. f_equal.
    rewrite (IH fuel (drop 8 (x :: l'))).
    + rewrite <- seq_shift, map_map. apply map_ext. intros i.
      rewrite drop_drop. do 2 f_equal. lia.
    + rewrite length_drop, Hl. lia.
    + lia.
Qed.

Lemma slice_length {A} lo hi (l : list A) :
  0 <= lo <= hi -> hi <= len l -> len (slice lo hi l) = hi - lo.
Proof.
  intros H1 H2. unfold len, slice in *.
  rewrite length_take, length_drop. lia.
Qed.

Lemma slice_take_drop {A} lo hi (l : list A) :
  slice lo hi l = take (Z.to_nat (hi - lo)) (drop (Z.to_nat lo) l).
Proof. reflexivity. Qed.

Lemma Forall_slice {A} (P : A -> Prop) lo hi l :
  Forall P l -> Forall P (slice lo hi l).
Proof. intros H. unfold slice. apply Forall_take, Forall_drop, H. Qed.

Lemma payload_rows bits L :
  0 <= L -> 32 + L * 8 <= len bits ->
  reshape_rows (slice 32 (32 + L * 8) bits) 8
  = Ok (map (fun i => slice (32 + 8 * Z.of_nat i) (40 + 8 * Z.of_nat i) bits)
            (seq 0 (Z.to_nat L))).
Proof.
  intros HL Hlen. unfold reshape_rows.
  rewrite slice_length by lia.
  replace (32 + L * 8 - 32) with (L * 8) by lia.
  change (Z.of_nat 8) with 8. rewrite Z.mod_mul by lia.
  cbn [andb Z.ltb Z.compare Z.eqb].
  f_equal.
  rewrite (rows_of_spec (Z.to_nat L)).
  - apply map_ext_in. intros i Hi. apply in_seq in Hi.
    unfold slice.
    replace (Z.to_nat (32 + L * 8 - 32)) with (8 * Z.to_nat L)%nat by lia.
    replace (Z.to_nat (40 + 8 * Z.of_nat i - (32 + 8 * Z.of_nat i))) with 8%nat by lia.
    replace (Z.to_nat (32 + 8 * Z.of_nat i)) with (Z.to_nat 32 + 8 * i)%nat by lia.
    rewrite <- drop_drop.
    rewrite skipn_firstn_comm. rewrite take_take.
    f_equal. lia.
  - pose proof (slice_length 32 (32 + L * 8) bits ltac:(lia) Hlen) as H.
    unfold len in H. lia.
  - pose proof (slice_length 32 (32 + L * 8) bits ltac:(lia) Hlen) as H.
    unfold len in H. lia.
Qed.

Lemma payload_byte_vals bits :
  Forall is_bit bits ->
  map bits_to_int
      (map (fun i => slice (32 + 8 * Z.of_nat i) (40 + 8 * Z.of_nat i) bits)
           (seq 0 (Z.to_nat (header_length bits))))
  = payload_bytes bits.
Proof.
  intros Hb. unfold payload_bytes, payload_byte. rewrite map_map.
  apply map_ext. intros i. apply bits_to_int_be_value, Forall_slice, Hb.
Qed.

Lemma payload_bytes_in_range bits :
  Forall is_bit bits ->
  forallb (fun v => (0 <=? v) && (v <? 256)) (payload_bytes bits) = true.
Proof.
  intros Hb. apply forallb_forall. intros v Hv.
  unfold payload_bytes in Hv. apply in_map_iff in Hv as (i & <- & _).
  unfold payload_byte.
  set (row := slice _ _ bits).
  assert (Hrow : Forall is_bit row) by (apply Forall_slice, Hb).
  pose proof (be_value_range row Hrow) as Hr.
  assert (len row <= 8).
  { unfold row, slice, len. rewrite length_take. lia. }
  assert (2 ^ len row <= 2 ^ 8) by (apply Z.pow_le_mono_r; lia).
  change (2 ^ 8) with 256 in *.
  apply andb_true_iff. split; [apply Z.leb_le | apply Z.ltb_lt]; lia.
Qed.

Lemma audio_decode_eq bits max_len :
  Forall is_bit bits ->
  stego_audio._decode_bits_to_message bits max_len = Ok (decoded bits max_len).
Proof.
  intros Hb. unfold stego_audio._decode_bits_to_message, decoded.
  rewrite astype_uint8_bits by assumption.
  destruct (Z.ltb_spec (len bits) 32) as [Hn|Hn]; [reflexivity|].
  cbn [orb].
  assert (Hh : fold_left shift_in (slice 0 32 bits) 0 = header_length bits).
  { rewrite fold_shift_in by (apply Forall_slice, Hb).
    unfold header_length. lia. }
  rewrite Hh. set (L := header_length bits) in *.
  destruct (Z.leb_spec L 0) as [HL|HL]; [reflexivity|].
  destruct (Z.ltb_spec ((len bits - 32) / 8) L) as [Hp|Hp]; [reflexivity|].
  destruct (Z.ltb_spec max_len L) as [Hm|Hm]; [reflexivity|].
  cbn [orb].
  assert (Hneed : 32 + L * 8 <= len bits).
  { pose proof (Z.mul_div_le (len bits - 32) 8 ltac:(lia)). lia. }
  destruct (Z.ltb_spec (len bits) (32 + L * 8)) as [Hx|_]; [lia|].
  rewrite payload_rows by lia. cbn [bind].
  fold L. unfold L at 1. rewrite payload_byte_vals by assumption.
  unfold bytes_of_ints. rewrite payload_bytes_in_range by assumption.
  fold (payload_text bits).
  destruct (pystr_eqb (strip (payload_text bits)) []); reflexivity.
Qed.

Lemma video_decode_is_audio_decode bits max_len :
  stego_video._decode_bits_to_message bits max_len
  = stego_audio._decode_bits_to_message bits max_len.
Proof. reflexivity. Qed.

Lemma header_length_nonneg bits : Forall is_bit bits -> 0 <= header_length bits.
Proof.
  intros Hb. unfold header_length.
  apply (be_value_range (slice 0 32 bits)), Forall_slice, Hb.
Qed.

Lemma decoded_None_iff bits max_len :
  Forall is_bit bits -> decoded bits max_len = None <-> absent bits max_len.
Proof.
  intros Hb. pose proof (header_length_nonneg bits Hb) as Hr.
  unfold decoded, absent, pystr_eqb, blank.
  destruct (Z.ltb_spec (len bits) 32) as [Hn|Hn]; cbn [orb].
  { split; auto. }
  destruct (Z.leb_spec (header_length bits) 0) as [HL|HL]; cbn [orb].
  { split; [right; left; lia | auto]. }
  destruct (Z.ltb_spec ((len bits - 32) / 8) (header_length bits)) as [Hp|Hp];
    cbn [orb].
  { split; auto 6. }
  destruct (Z.ltb_spec max_len (header_length bits)) as [Hm|Hm]; cbn [orb].
  { split; auto 6. }
  rewrite <- strip_nil_iff.
  case_bool_decide as Hs.
  - split; [intros _; do 4 right; exact Hs | reflexivity].
  - split; [discriminate|].
    intros [?|[?|[?|[?|?]]]]; try lia. contradiction.
Qed.

Lemma decoded_Some bits max_len :
  Forall is_bit bits -> ~ absent bits max_len ->
  decoded bits max_len = Some (payload_text bits).
Proof.
  intros Hb Ha. destruct (decoded bits max_len) as [m|] eqn:E.
  - unfold decoded in E.
    destruct (_ || _) in E; [discriminate|]. symmetry. exact E.
  - apply decoded_None_iff in E; [contradiction | assumption].
Qed.

(** ** Decoding what the encoders write *)

Lemma fold_shift_in_byte b v :
  is_byte b -> fold_left shift_in (byte_bits b) v = v * 256 + b.
Proof.
  intros Hb. rewrite fold_shift_in by (apply byte_bits_bits, Hb).
  rewrite <- bits_to_int_be_value by (apply byte_bits_bits, Hb).
  rewrite bits_to_int_byte_bits by assumption. reflexivity.
Qed.

Lemma be_value_byte_bits b : is_byte b -> be_value (byte_bits b) = b.
Proof.
  intros Hb. rewrite <- bits_to_int_be_value by (apply byte_bits_bits, Hb).
  apply bits_to_int_byte_bits, Hb.
Qed.

Lemma be_value_header L :
  0 <= L < 2 ^ 32 -> be_value (flat_map byte_bits (be_bytes 4 L)) = L.
Proof.
  intros HL.
  rewrite <- bits_to_int_be_value
    by (apply flat_map_bits, be_bytes_bytes).
  unfold bits_to_int. rewrite be_bytes_4. unfold be32.
  cbn [flat_map]. rewrite app_nil_r, !fold_left_app.
  rewrite !fold_shift_in_byte
    by (unfold is_byte; apply Z.mod_pos_bound; lia).
  change (2 ^ 24) with 16777216. change (2 ^ 16) with 65536.
  change (2 ^ 8) with 256. change (2 ^ 32) with 4294967296 in HL.
  Z.div_mod_to_equations. lia.
Qed.

Lemma payload_of_flat_map bs : forall tail,
  Forall is_byte bs ->
  map (fun i => be_value (take 8 (drop (8 * i) (flat_map byte_bits bs ++ tail))))
      (seq 0 (length bs)) = bs.
Proof.
  induction bs as [|b t IH]; intros tail Hbs; [reflexivity|].
  inversion Hbs as [|? ? Hb Ht]; subst.
  cbn [length seq map flat_map]. f_equal.
  - rewrite <- app_assoc. change (8 * 0)%nat with 0%nat. rewrite drop_0.
    rewrite take_app_length' by apply (byte_bits_length b).
    apply be_value_byte_bits, Hb.
  - rewrite <- seq_shift, map_map. rewrite <- (IH tail Ht) at 2.
    apply map_ext. intros i. rewrite <- app_assoc.
    rewrite drop_app_ge by (rewrite byte_bits_length; lia).
    rewrite byte_bits_length. do 3 f_equal. lia.
Qed.

Lemma flat_map_byte_bits_length bs :
  length (flat_map byte_bits bs) = (8 * length bs)%nat.
Proof.
  induction bs as [|b t IH]; [reflexivity|].
  cbn [flat_map length]. rewrite length_app, byte_bits_length, IH. lia.
Qed.

Section Framed.
Variables (msg_bytes tail : list Z).
Hypothesis Hbytes : Forall is_byte msg_bytes.
Hypothesis Hlen : len msg_bytes < 2 ^ 32.
Hypothesis Htail : Forall is_bit tail.

Let frame : list Z :=
  flat_map byte_bits (be_bytes 4 (len msg_bytes) ++ msg_bytes) ++ tail.

Lemma frame_split :
  frame = flat_map byte_bits (be_bytes 4 (len msg_bytes))
          ++ (flat_map byte_bits msg_bytes ++ tail).
Proof. unfold frame. rewrite flat_map_app, <- app_assoc. reflexivity. Qed.

Lemma frame_bits : Forall is_bit frame.
Proof.
  unfold frame. apply Forall_app. split; [|assumption].
  apply flat_map_bits, Forall_app. split; auto using be_bytes_bytes.
Qed.

Lemma frame_len : len frame = 32 + 8 * len msg_bytes + len tail.
Proof.
  unfold frame, len. rewrite length_app, flat_map_byte_bits_length, length_app.
  cbn [be_bytes length]. lia.
Qed.

Lemma frame_header : header_length frame = len msg_bytes.
Proof.
  unfold header_length, slice. rewrite frame_split.
  change (Z.to_nat 0) with 0%nat. rewrite drop_0.
  change (Z.to_nat (32 - 0)) with 32%nat.
  rewrite take_app_length' by (rewrite flat_map_byte_bits_length; reflexivity).
  apply be_value_header. unfold len in *. lia.
Qed.

Lemma frame_payload : payload_bytes frame = msg_bytes.
Proof.
  unfold payload_bytes. rewrite frame_header.
  unfold len. rewrite Nat2Z.id.
  rewrite <- (payload_of_flat_map msg_bytes tail Hbytes) at 2.
  apply map_ext. intros i. unfold payload_byte, slice.
  replace (Z.to_nat (40 + 8 * Z.of_nat i - (32 + 8 * Z.of_nat i))) with 8%nat by lia.
  rewrite frame_split.
  rewrite drop_app_ge by (rewrite flat_map_byte_bits_length; cbn [be_bytes length]; lia).
  rewrite flat_map_byte_bits_length. cbn [be_bytes length].
  do 3 f_equal. lia.
Qed.

Lemma frame_decoded max_len :
  decoded frame max_len =
    if (len msg_bytes <=? 0) || (max_len <? len msg_bytes)
       || pystr_eqb (strip (utf8_decode_replace msg_bytes)) []
    then None else Some (utf8_decode_replace msg_bytes).
Proof.
  unfold decoded, payload_text. rewrite frame_payload, frame_header, frame_len.
  assert (0 <= len tail) by (unfold len; lia).
  assert (0 <= len msg_bytes) by (unfold len; lia).
  destruct (Z.ltb_spec (32 + 8 * len msg_bytes + len tail) 32); [lia|].
  cbn [orb].
  destruct (Z.leb_spec (len msg_bytes) 0); [reflexivity|]. cbn [orb].
  destruct (Z.ltb_spec ((32 + 8 * len msg_bytes + len tail - 32) / 8) (len msg_bytes)) as [Hd|Hd].
  { exfalso. revert Hd. apply Z.le_ngt. apply Z.div_le_lower_bound; lia. }
  reflexivity.
Qed.
End Framed.

(** ** Sample arithmetic *)

Lemma wrap_signed_16_id x : stego_audio.int16 x -> wrap_signed 16 x = x.
Proof.
  unfold stego_audio.int16, wrap_signed. intros H.
  change (2 ^ (16 - 1)) with 32768. change (2 ^ 16) with 65536.
  rewrite Z.mod_small by lia. lia.
Qed.

Lemma wrap_signed_32_id x : stego_audio.int16 x -> wrap_signed 32 x = x.
Proof.
  unfold stego_audio.int16, wrap_signed. intros H.
  change (2 ^ (32 - 1)) with 2147483648. change (2 ^ 32) with 4294967296.
  rewrite Z.mod_small by lia. lia.
Qed.

Lemma astype_int16_id l : Forall stego_audio.int16 l -> astype_int16 l = l.
Proof.
  induction 1 as [|x t Hx _ IH]; [reflexivity|].
  unfold astype_int16 in *. cbn [map]. rewrite IH, wrap_signed_16_id; auto.
Qed.

Lemma astype_int32_id l : Forall stego_audio.int16 l -> astype_int32 l = l.
Proof.
  induction 1 as [|x t Hx _ IH]; [reflexivity|].
  unfold astype_int32 in *. cbn [map]. rewrite IH, wrap_signed_32_id; auto.
Qed.

Lemma bit_int16 b : is_bit b -> stego_audio.int16 b.
Proof. unfold is_bit, stego_audio.int16. lia. Qed.

Lemma bits_int16 bits : Forall is_bit bits -> Forall stego_audio.int16 bits.
Proof. intros H. eapply Forall_impl; [exact H | apply bit_int16]. Qed.

Lemma land_1_mod x : Z.land x 1 = x mod 2.
Proof. change 1 with (Z.ones 1). apply Z.land_ones. lia. Qed.

Lemma land_1_bit x : is_bit (Z.land x 1).
Proof.
  rewrite land_1_mod. unfold is_bit.
  pose proof (Z.mod_pos_bound x 2 ltac:(lia)). lia.
Qed.

(** Clear-then-OR writes the bit and keeps the rest. *)
Lemma clear_then_or x b :
  is_bit b -> Z.lor (Z.land x (Z.lnot 1)) b = 2 * (x / 2) + b.
Proof.
  intros Hb. rewrite <- Z.ldiff_land.
  change 1 with (Z.ones 1) at 1. rewrite Z.ldiff_ones_r by lia.
  rewrite Z.shiftr_div_pow2 by lia. change (2 ^ 1) with 2.
  apply (shift_in_bit (x / 2) b Hb).
Qed.

Lemma clear_then_or_lsb x b :
  is_bit b -> Z.land (Z.lor (Z.land x (Z.lnot 1)) b) 1 = b.
Proof.
  intros Hb. rewrite clear_then_or, land_1_mod by assumption.
  destruct Hb; subst; Z.div_mod_to_equations; lia.
Qed.

Lemma clear_then_or_upper x b :
  is_bit b -> Z.shiftr (Z.lor (Z.land x (Z.lnot 1)) b) 1 = Z.shiftr x 1.
Proof.
  intros Hb. rewrite clear_then_or by assumption.
  rewrite !Z.shiftr_div_pow2 by lia. change (2 ^ 1) with 2.
  destruct Hb; subst; Z.div_mod_to_equations; lia.
Qed.

Lemma clear_then_or_int16 x b :
  stego_audio.int16 x -> is_bit b -> stego_audio.int16 (Z.lor (Z.land x (Z.lnot 1)) b).
Proof.
  intros Hx Hb. rewrite clear_then_or by assumption. unfold stego_audio.int16 in *.
  destruct Hb; subst; Z.div_mod_to_equations; lia.
Qed.

(** ** Audio carriers *)

Lemma set_lsbs_eq flat bits :
  stego_audio.set_lsbs flat bits
  = zip_with set_bit (take (length bits) flat) bits ++ drop (length bits) flat.
Proof.
  unfold stego_audio.set_lsbs, slice, len.
  change (Z.to_nat 0) with 0%nat. rewrite drop_0, Z.sub_0_r, Nat2Z.id.
  reflexivity.
Qed.

Lemma set_lsbs_length flat bits :
  (length bits <= length flat)%nat ->
  length (stego_audio.set_lsbs flat bits) = length flat.
Proof.
  intros H. rewrite set_lsbs_eq, length_app, length_zip_with, length_take, length_drop.
  lia.
Qed.

Lemma set_lsbs_lookup_lt flat bits i x b :
  flat !! i = Some x -> bits !! i = Some b ->
  stego_audio.set_lsbs flat bits !! i = Some (set_bit x b).
Proof.
  intros Hx Hb. rewrite set_lsbs_eq.
  pose proof (lookup_lt_Some _ _ _ Hb) as Hi.
  pose proof (lookup_lt_Some _ _ _ Hx) as Hj.
  rewrite lookup_app_l by (rewrite length_zip_with, length_take; lia).
  rewrite lookup_zip_with, lookup_take_lt by lia.
  rewrite Hx, Hb. reflexivity.
Qed.

Lemma set_lsbs_lookup_ge flat bits i :
  (length bits <= length flat)%nat -> (length bits <= i)%nat ->
  stego_audio.set_lsbs flat bits !! i = flat !! i.
Proof.
  intros Hl Hi. rewrite set_lsbs_eq.
  rewrite lookup_app_r by (rewrite length_zip_with, length_take; lia).
  rewrite length_zip_with, length_take, lookup_drop.
  f_equal. lia.
Qed.

Lemma zip_with_set_bit_int16 flat bits :
  Forall stego_audio.int16 flat -> Forall is_bit bits ->
  Forall stego_audio.int16 (zip_with set_bit flat bits).
Proof.
  intros Hf. revert bits. induction Hf as [|x t Hx _ IH]; intros bits Hb.
  - constructor.
  - destruct Hb as [|b bs Hb Hbs]; cbn [zip_with]; constructor; auto.
    apply clear_then_or_int16; assumption.
Qed.

Lemma set_lsbs_int16 flat bits :
  Forall stego_audio.int16 flat -> Forall is_bit bits ->
  Forall stego_audio.int16 (stego_audio.set_lsbs flat bits).
Proof.
  intros Hf Hb. rewrite set_lsbs_eq. apply Forall_app. split.
  - apply zip_with_set_bit_int16; auto using Forall_take.
  - apply Forall_drop, Hf.
Qed.

Lemma zip_with_set_bit_lsb flat bits :
  Forall is_bit bits -> (length bits <= length flat)%nat ->
  map (fun x => Z.land x 1) (zip_with set_bit flat bits) = bits.
Proof.
  intros Hb. revert flat. induction Hb as [|b bs Hb _ IH]; intros flat Hl.
  - destruct flat; reflexivity.
  - destruct flat as [|x flat]; [cbn in Hl; lia|].
    cbn [zip_with map]. f_equal.
    + apply clear_then_or_lsb, Hb.
    + apply IH. cbn in Hl. lia.
Qed.

Lemma set_lsbs_lsb flat bits :
  Forall is_bit bits -> (length bits <= length flat)%nat ->
  map (fun x => Z.land x 1) (stego_audio.set_lsbs flat bits)
  = bits ++ map (fun x => Z.land x 1) (drop (length bits) flat).
Proof.
  intros Hb Hl. rewrite set_lsbs_eq, map_app. f_equal.
  apply zip_with_set_bit_lsb; [assumption|]. rewrite length_take. lia.
Qed.

Lemma lsbs_are_bits l : Forall is_bit (map (fun x => Z.land x 1) l).
Proof. apply Forall_map, Forall_forall. intros x _. apply land_1_bit. Qed.

Lemma audio_embed_ok fs cover_path stego_path message w bits :
  fs !! cover_path = Some w -> stego_audio.wf_wav w ->
  stego_audio._encode_message_to_bits message = Ok bits ->
  Forall is_bit bits ->
  len bits <= size (stego_audio.samples w) ->
  stego_audio.embed_lsb_audio fs cover_path stego_path message
  = (Ok tt,
     <[stego_path :=
         stego_audio.mkWav
           (mkArr (shape (stego_audio.samples w))
                  (stego_audio.set_lsbs (data (stego_audio.samples w)) bits))
           (stego_audio.samplerate w)]> fs).
Proof.
  intros Hw [Hwf Hint] He Hb Hcap.
  unfold stego_audio.embed_lsb_audio, stego_audio._load_audio_int16.
  rewrite Hw, He. cbn [shape data].
  rewrite (astype_int16_id _ Hint), (astype_int32_id _ Hint).
  rewrite (astype_int32_id _ (bits_int16 _ Hb)).
  unfold size in Hcap.
  destruct (Z.ltb_spec (len (data (stego_audio.samples w))) (len bits)); [lia|].
  unfold reshape.
  assert (Hl : (length bits <= length (data (stego_audio.samples w)))%nat)
    by (unfold len in *; lia).
  rewrite set_lsbs_length by assumption.
  unfold wf_ndarray in Hwf. rewrite Hwf, Nat.eqb_refl.
  unfold stego_audio._save_audio_int16. cbn [shape data].
  pose proof (set_lsbs_int16 _ _ Hint Hb) as Hs.
  rewrite !(astype_int16_id _ Hs). reflexivity.
Qed.

Lemma audio_embed_too_small fs cover_path stego_path message w bits :
  fs !! cover_path = Some w -> stego_audio.wf_wav w ->
  stego_audio._encode_message_to_bits message = Ok bits ->
  Forall is_bit bits ->
  size (stego_audio.samples w) < len bits ->
  stego_audio.embed_lsb_audio fs cover_path stego_path message
  = (Raise (AudioTooSmall (size (stego_audio.samples w)) (len bits)), fs).
Proof.
  intros Hw [Hwf Hint] He Hb Hcap.
  unfold stego_audio.embed_lsb_audio, stego_audio._load_audio_int16.
  rewrite Hw, He. cbn [shape data].
  rewrite (astype_int16_id _ Hint), (astype_int32_id _ Hint).
  rewrite (astype_int32_id _ (bits_int16 _ Hb)).
  unfold size in *.
  destruct (Z.ltb_spec (len (data (stego_audio.samples w))) (len bits)); [|lia].
  reflexivity.
Qed.

Lemma audio_extract_eq fs stego_path w :
  fs !! stego_path = Some w ->
  Forall stego_audio.int16 (data (stego_audio.samples w)) ->
  stego_audio.extract_lsb_audio fs stego_path
  = Ok (match decoded (lsbs (data (stego_audio.samples w)))
                      stego_audio.max_len_bytes_default with
        | None => stego_audio.NO_PAYLOAD
        | Some m => m
        end).
Proof.
  intros Hw Hint.
  unfold stego_audio.extract_lsb_audio, stego_audio._load_audio_int16.
  rewrite Hw. cbn [bind fst data].
  rewrite (astype_int16_id _ Hint), (astype_int32_id _ Hint).
  fold (lsbs (data (stego_audio.samples w))).
  rewrite (astype_uint8_bits _ (lsbs_are_bits _)).
  rewrite audio_decode_eq by apply lsbs_are_bits.
  cbn [bind]. destruct (decoded _ _); reflexivity.
Qed.

(** ** Video carriers *)

Lemma set_bit_u8_lsb x b : is_byte x -> is_bit b -> Z.land (set_bit_u8 x b) 1 = b.
Proof.
  intros Hx [->| ->].
  - assert (H : (Z.land (set_bit_u8 x 0) 1 =? 0) = true)
      by (revert x Hx; apply byte_cases; vm_compute; reflexivity).
    apply Z.eqb_eq, H.
  - assert (H : (Z.land (set_bit_u8 x 1) 1 =? 1) = true)
      by (revert x Hx; apply byte_cases; vm_compute; reflexivity).
    apply Z.eqb_eq, H.
Qed.

Lemma set_bit_u8_byte x b : is_byte x -> is_bit b -> is_byte (set_bit_u8 x b).
Proof.
  intros Hx Hb.
  assert (H : (0 <=? set_bit_u8 x b) && (set_bit_u8 x b <? 256) = true).
  { destruct Hb as [->| ->]; revert x Hx; apply byte_cases; vm_compute; reflexivity. }
  apply andb_true_iff in H as [H1 H2]. unfold is_byte. lia.
Qed.

Lemma astype_uint8_id l : Forall is_byte l -> astype_uint8 l = l.
Proof.
  induction 1 as [|x t Hx _ IH]; [reflexivity|].
  unfold astype_uint8 in *. cbn [map]. rewrite IH. f_equal.
  unfold wrap_unsigned. change (2 ^ 8) with 256. apply Z.mod_small, Hx.
Qed.

Lemma embed_loop_seq bits m : forall k flat,
  (k + m)%nat = length bits -> (k + m <= length flat)%nat ->
  stego_video.embed_loop (seq k m) bits flat
  = Ok (take k flat
        ++ zip_with set_bit_u8 (take m (drop k flat)) (drop k bits)
        ++ drop (k + m) flat).
Proof.
  induction m as [|m IH]; intros k flat Hk Hl.
  - cbn [seq stego_video.embed_loop]. rewrite Nat.add_0_r.
    change (take 0 (drop k flat)) with (@nil Z).
    cbn [zip_with app]. rewrite take_drop. reflexivity.
  - cbn [seq stego_video.embed_loop].
    destruct (lookup_lt_is_Some_2 bits k ltac:(lia)) as [b Hb].
    destruct (lookup_lt_is_Some_2 flat k ltac:(lia)) as [x Hx].
    rewrite Hb, Hx. fold (set_bit_u8 x b).
    rewrite IH by (rewrite ?length_insert; lia).
    f_equal.
    rewrite (take_S_r _ _ (set_bit_u8 x b))
      by (apply list_lookup_insert_eq; lia).
    rewrite take_insert_ge by lia.
    rewrite !drop_insert_lt by lia.
    rewrite (drop_S flat x k Hx), (drop_S bits b k Hb).
    cbn [take zip_with]. rewrite <- app_assoc. cbn [app].
    replace (S k + m)%nat with (k + S m)%nat by lia. reflexivity.
Qed.

Lemma embed_loop_eq bits flat :
  (length bits <= length flat)%nat ->
  stego_video.embed_loop (seq 0 (length bits)) bits flat
  = Ok (zip_with set_bit_u8 (take (length bits) flat) bits
        ++ drop (length bits) flat).
Proof.
  intros Hl. rewrite embed_loop_seq by lia.
  cbn [take app]. rewrite !drop_0. reflexivity.
Qed.

Lemma flatten_cons f rest : flatten (f :: rest) = data f ++ flatten rest.
Proof. reflexivity. Qed.

Lemma split_frames_reframe frames : forall flat idx,
  Forall wf_ndarray frames -> Forall is_byte flat ->
  (idx + length (flatten frames) <= length flat)%nat ->
  stego_video.split_frames frames flat (Z.of_nat idx)
  = Ok (reframe frames (drop idx flat)).
Proof.
  induction frames as [|f rest IH]; intros flat idx Hwf Hb Hl; [reflexivity|].
  inversion Hwf as [|? ? Hf Hrest]; subst.
  rewrite flatten_cons, length_app in Hl.
  cbn [stego_video.split_frames reframe]. unfold size, len.
  unfold slice.
  replace (Z.to_nat (Z.of_nat idx + Z.of_nat (length (data f)) - Z.of_nat idx))
    with (length (data f)) by lia.
  rewrite Nat2Z.id. unfold reshape.
  rewrite length_take, length_drop.
  unfold wf_ndarray in Hf. rewrite Hf.
  replace (length (data f) `min` (length flat - idx))%nat with (length (data f)) by lia.
  rewrite Nat.eqb_refl. cbn [bind shape data].
  rewrite <- Nat2Z.inj_add. rewrite IH by (auto; lia). cbn [bind].
  rewrite astype_uint8_id by (apply Forall_take, Forall_drop, Hb).
  rewrite drop_drop. reflexivity.
Qed.

Lemma reframe_shapes frames : forall flat,
  map shape (reframe frames flat) = map shape frames.
Proof.
  induction frames as [|f rest IH]; intros flat; [reflexivity|].
  cbn [reframe map shape]. rewrite IH. reflexivity.
Qed.

Lemma reframe_flatten frames : forall flat,
  length flat = length (flatten frames) ->
  flatten (reframe frames flat) = flat.
Proof.
  induction frames as [|f rest IH]; intros flat Hl.
  - destruct flat; [reflexivity | discriminate].
  - rewrite flatten_cons, length_app in Hl.
    cbn [reframe]. rewrite flatten_cons. cbn [data].
    rewrite IH by (rewrite length_drop; lia).
    apply take_drop.
Qed.

Lemma reframe_wf frames : forall flat,
  Forall wf_ndarray frames -> length flat = length (flatten frames) ->
  Forall wf_ndarray (reframe frames flat).
Proof.
  induction frames as [|f rest IH]; intros flat Hwf Hl; [constructor|].
  inversion Hwf as [|? ? Hf Hrest]; subst.
  rewrite flatten_cons, length_app in Hl.
  cbn [reframe]. constructor.
  - unfold wf_ndarray in *. cbn [shape data]. rewrite length_take. lia.
  - apply IH; [assumption|]. rewrite length_drop. lia.
Qed.

Lemma reframe_nonempty frames flat : frames <> [] -> reframe frames flat <> [].
Proof. destruct frames; [congruence | discriminate]. Qed.

Lemma normalise_frames frames :
  Forall is_byte (flatten frames) ->
  map (fun f => mkArr (shape f) (astype_uint8 (data f))) frames = frames.
Proof.
  induction frames as [|f rest IH]; intros Hb; [reflexivity|].
  rewrite flatten_cons in Hb. apply Forall_app in Hb as [Hf Hrest].
  cbn [map]. rewrite IH, astype_uint8_id by assumption.
  destruct f; reflexivity.
Qed.

Lemma get_reader_video w path fps frames :
  stego_video.files w !! path = Some (stego_video.Video fps frames) ->
  Forall is_byte (flatten frames) ->
  stego_video.get_reader w path = inr (fps, frames).
Proof.
  intros Hf Hb. unfold stego_video.get_reader. rewrite Hf.
  rewrite normalise_frames by assumption. reflexivity.
Qed.

Lemma set_lsbs_u8_length flat bits :
  (length bits <= length flat)%nat -> length (set_lsbs_u8 flat bits) = length flat.
Proof.
  intros H. unfold set_lsbs_u8.
  rewrite length_app, length_zip_with, length_take, length_drop. lia.
Qed.

Lemma zip_with_set_bit_u8_bytes flat bits :
  Forall is_byte flat -> Forall is_bit bits ->
  Forall is_byte (zip_with set_bit_u8 flat bits).
Proof.
  intros Hf. revert bits. induction Hf as [|x t Hx _ IH]; intros bits Hb.
  - constructor.
  - destruct Hb as [|b bs Hb Hbs]; cbn [zip_with]; constructor; auto.
    apply set_bit_u8_byte; assumption.
Qed.

Lemma set_lsbs_u8_bytes flat bits :
  Forall is_byte flat -> Forall is_bit bits -> Forall is_byte (set_lsbs_u8 flat bits).
Proof.
  intros Hf Hb. unfold set_lsbs_u8. apply Forall_app. split.
  - apply zip_with_set_bit_u8_bytes; auto using Forall_take.
  - apply Forall_drop, Hf.
Qed.

Lemma zip_with_set_bit_u8_lsb flat bits :
  Forall is_byte flat -> Forall is_bit bits -> (length bits <= length flat)%nat ->
  lsbs (zip_with set_bit_u8 flat bits) = bits.
Proof.
  intros Hf Hb. revert flat Hf. induction Hb as [|b bs Hb _ IH]; intros flat Hf Hl.
  - destruct flat; reflexivity.
  - destruct Hf as [|x flat Hx Hf]; [cbn in Hl; lia|].
    unfold lsbs in *. cbn [zip_with map]. f_equal.
    + apply set_bit_u8_lsb; assumption.
    + apply IH; [assumption|]. cbn in Hl. lia.
Qed.

Lemma set_lsbs_u8_lsb flat bits :
  Forall is_byte flat -> Forall is_bit bits -> (length bits <= length flat)%nat ->
  lsbs (set_lsbs_u8 flat bits) = bits ++ lsbs (drop (length bits) flat).
Proof.
  intros Hf Hb Hl. unfold set_lsbs_u8, lsbs. rewrite map_app. f_equal.
  apply zip_with_set_bit_u8_lsb; auto using Forall_take.
  rewrite length_take. lia.
Qed.

Lemma stego_frames_wf frames bits :
  wf_frames frames -> Forall is_bit bits ->
  (length bits <= length (flatten frames))%nat ->
  wf_frames (stego_frames frames bits).
Proof.
  intros [Hwf Hb] Hbits Hl. unfold stego_frames. split.
  - apply reframe_wf; [assumption|]. apply set_lsbs_u8_length, Hl.
  - rewrite reframe_flatten by (apply set_lsbs_u8_length, Hl).
    apply set_lsbs_u8_bytes; assumption.
Qed.

Lemma video_embed_ok w cover_path stego_path message fps frames bits ffv1 :
  stego_video.ffmpeg w = stego_video.Working ffv1 ->
  stego_video.files w !! cover_path = Some (stego_video.Video fps frames) ->
  frames <> [] -> wf_frames frames ->
  stego_video._encode_message_to_bits message = Ok bits ->
  Forall is_bit bits ->
  len bits <= len (flatten frames) ->
  stego_video.embed_lsb_video w cover_path stego_path message
  = after_encoding w ffv1 fps (stego_frames frames bits) stego_path.
Proof.
  intros Hff Hf Hne [Hwf Hb] He Hbits Hcap.
  destruct w as [fl td ff].
  cbn [stego_video.ffmpeg stego_video.files] in Hff, Hf. subst ff.
  unfold stego_video.embed_lsb_video. cbn [stego_video.ffmpeg stego_video.files].
  rewrite (get_reader_video _ cover_path fps frames) by assumption.
  unfold stego_video.embed_body, stego_video.ffmpeg_extract.
  cbn [stego_video.ffmpeg stego_video.set_temp_dir stego_video.files].
  rewrite (get_reader_video _ cover_path fps frames) by assumption.
  cbn [stego_video.temp_dir stego_video.set_temp_dir
       stego_video.files stego_video.ffmpeg].
  destruct frames as [|f0 rest]; [congruence|].
  set (frames := f0 :: rest) in *.
  rewrite normalise_frames by assumption. fold (flatten frames).
  rewrite astype_uint8_id by assumption.
  rewrite He.
  destruct (Z.ltb_spec (len (flatten frames)) (len bits)); [lia|].
  assert (Hl : (length bits <= length (flatten frames))%nat)
    by (unfold len in *; lia).
  rewrite embed_loop_eq by assumption. fold (set_lsbs_u8 (flatten frames) bits).
  change 0 with (Z.of_nat 0).
  rewrite (split_frames_reframe frames (set_lsbs_u8 (flatten frames) bits) 0%nat).
  2: assumption.
  2: apply set_lsbs_u8_bytes; assumption.
  2: rewrite (set_lsbs_u8_length _ _ Hl); lia.
  rewrite drop_0. fold (stego_frames frames bits).
  unfold stego_video.ffmpeg_encode, after_encoding.
  cbn [stego_video.temp_dir stego_video.set_temp_dir stego_video.files
       stego_video.ffmpeg stego_video.set_files].
  destruct (ffv1 fps (stego_frames frames bits) stego_path) as [[stderr|] [c|]];
    reflexivity.
Qed.

Lemma after_exact_encoding w ffv1 fps fps' frames stego_path :
  ffv1 fps frames stego_path
  = stego_video.mkEncoding None (Some (stego_video.Video fps' frames)) ->
  after_encoding w ffv1 fps frames stego_path
  = (Ok tt,
     stego_video.mkWorld
       (<[stego_path := stego_video.Video fps' frames]> (stego_video.files w))
       None (stego_video.Working ffv1)).
Proof. intros H. unfold after_encoding. rewrite H. reflexivity. Qed.

Lemma video_embed_no_frames w cover_path stego_path message fps ffv1 :
  stego_video.ffmpeg w = stego_video.Working ffv1 ->
  stego_video.files w !! cover_path = Some (stego_video.Video fps []) ->
  stego_video.embed_lsb_video w cover_path stego_path message
  = (Raise (RuntimeError "No frames extracted from video"),
     stego_video.mkWorld (stego_video.files w) None (stego_video.Working ffv1)).
Proof.
  intros Hff Hf. destruct w as [fl td ff].
  cbn [stego_video.ffmpeg stego_video.files] in Hff, Hf. subst ff.
  unfold stego_video.embed_lsb_video, stego_video.get_reader.
  cbn [stego_video.ffmpeg stego_video.files]. rewrite Hf.
  unfold stego_video.embed_body, stego_video.ffmpeg_extract, stego_video.get_reader.
  cbn [stego_video.ffmpeg stego_video.set_temp_dir stego_video.files]. rewrite Hf.
  reflexivity.
Qed.

Lemma video_embed_too_small w cover_path stego_path message fps frames bits ffv1 :
  stego_video.ffmpeg w = stego_video.Working ffv1 ->
  stego_video.files w !! cover_path = Some (stego_video.Video fps frames) ->
  frames <> [] -> wf_frames frames ->
  stego_video._encode_message_to_bits message = Ok bits ->
  len (flatten frames) < len bits ->
  stego_video.embed_lsb_video w cover_path stego_path message
  = (Raise (VideoTooSmall (len (flatten frames)) (len bits)),
     stego_video.mkWorld (stego_video.files w) None (stego_video.Working ffv1)).
Proof.
  intros Hff Hf Hne [Hwf Hb] He Hcap.
  destruct w as [fl td ff].
  cbn [stego_video.ffmpeg stego_video.files] in Hff, Hf. subst ff.
  unfold stego_video.embed_lsb_video. cbn [stego_video.ffmpeg stego_video.files].
  rewrite (get_reader_video _ cover_path fps frames) by assumption.
  unfold stego_video.embed_body, stego_video.ffmpeg_extract.
  cbn [stego_video.ffmpeg stego_video.set_temp_dir stego_video.files].
  rewrite (get_reader_video _ cover_path fps frames) by assumption.
  cbn [stego_video.temp_dir stego_video.set_temp_dir
       stego_video.files stego_video.ffmpeg].
  destruct frames as [|f0 rest]; [congruence|].
  set (frames := f0 :: rest) in *.
  rewrite normalise_frames by assumption. fold (flatten frames).
  rewrite astype_uint8_id by assumption.
  rewrite He.
  destruct (Z.ltb_spec (len (flatten frames)) (len bits)); [|lia].
  reflexivity.
Qed.

Lemma frame_lsbs frames :
  Forall is_byte (flatten frames) ->
  concat (map (fun frame => map (fun x => Z.land x 1) (astype_uint8 (data frame)))
              frames)
  = lsbs (flatten frames).
Proof.
  induction frames as [|f rest IH]; intros Hb; [reflexivity|].
  rewrite flatten_cons in *. apply Forall_app in Hb as [Hf Hrest].
  cbn [map concat]. rewrite IH, astype_uint8_id by assumption.
  unfold lsbs. rewrite map_app. reflexivity.
Qed.

Lemma video_extract_eq w stego_path fps frames :
  stego_video.files w !! stego_path = Some (stego_video.Video fps frames) ->
  frames <> [] -> Forall is_byte (flatten frames) ->
  stego_video.extract_lsb_video w stego_path
  = Ok (match decoded (lsbs (flatten frames))
                      stego_video.max_len_bytes_default with
        | None => stego_video.NO_PAYLOAD
        | Some m => m
        end).
Proof.
  intros Hf Hne Hb. unfold stego_video.extract_lsb_video.
  rewrite (get_reader_video _ _ _ _ Hf Hb).
  destruct frames as [|f0 rest]; [congruence|].
  set (frames := f0 :: rest) in *.
  destruct (map _ frames) as [|r0 rs] eqn:Em; [discriminate|].
  rewrite <- Em, frame_lsbs by assumption.
  rewrite video_decode_is_audio_decode, audio_decode_eq by apply lsbs_are_bits.
  cbn [bind]. destruct (decoded _ _); reflexivity.
Qed.

Lemma video_extract_no_frames w stego_path fps :
  stego_video.files w !! stego_path = Some (stego_video.Video fps []) ->
  stego_video.extract_lsb_video w stego_path = Ok stego_video.NO_FRAMES.
Proof.
  intros Hf. unfold stego_video.extract_lsb_video, stego_video.get_reader.
  rewrite Hf. reflexivity.
Qed.

(** ** Encoding, then decoding *)

Lemma audio_encode_inv message bits :
  Forall code_point message ->
  stego_audio._encode_message_to_bits message = Ok bits ->
  exists msg_bytes,
    utf8_encode message = Ok msg_bytes /\ Forall is_byte msg_bytes
    /\ len msg_bytes < 2 ^ 32
    /\ bits = flat_map byte_bits (be_bytes 4 (len msg_bytes) ++ msg_bytes).
Proof.
  intros Hm He.
  destruct (utf8_encode message) as [msg_bytes|e] eqn:Hu.
  - pose proof (utf8_encode_bytes _ _ Hm Hu) as Hb.
    destruct (Z.ltb_spec (len msg_bytes) (2 ^ 32)) as [Hl|Hl].
    + rewrite (audio_encode_bits _ _ Hu Hb Hl) in He. injection He as <-.
      exists msg_bytes. auto.
    + unfold stego_audio._encode_message_to_bits in He.
      rewrite Hu in He. cbn [bind] in He. unfold to_bytes_big in He.
      change (256 ^ Z.of_nat 4) with (2 ^ 32) in He.
      destruct (Z.ltb_spec (len msg_bytes) (2 ^ 32)); [lia|].
      rewrite andb_false_r in He. discriminate.
  - unfold stego_audio._encode_message_to_bits in He. rewrite Hu in He.
    discriminate.
Qed.

Lemma encoded_bits message bits :
  Forall code_point message ->
  stego_audio._encode_message_to_bits message = Ok bits -> Forall is_bit bits.
Proof.
  intros Hm He. destruct (audio_encode_inv _ _ Hm He) as (mb & _ & Hb & _ & ->).
  apply flat_map_bits, Forall_app. split; auto using be_bytes_bytes.
Qed.

Lemma encoded_length msg_bytes :
  len (flat_map byte_bits (be_bytes 4 (len msg_bytes) ++ msg_bytes))
  = 32 + 8 * len msg_bytes.
Proof.
  unfold len. rewrite flat_map_byte_bits_length, length_app.
  cbn [be_bytes length]. lia.
Qed.

Lemma isspace_code_point c : isspace c = true -> code_point c /\ is_surrogate c = false.
Proof.
  unfold isspace, code_point, is_surrogate. intros H.
  repeat (apply orb_true_iff in H as [H|H]);
    repeat (apply andb_true_iff in H as [? ?]);
    repeat match goal with
    | H : (_ <=? _) = true |- _ => apply Z.leb_le in H
    | H : (_ =? _) = true |- _ => apply Z.eqb_eq in H
    end;
    (split; [lia|]);
    apply andb_false_iff;
    (destruct (Z.leb_spec 0xD800 c); [right; apply Z.leb_gt; lia | left; reflexivity]).
Qed.

Lemma blank_code_points message : blank message -> Forall code_point message.
Proof.
  intros H. eapply Forall_impl; [exact H|].
  intros c Hc. apply isspace_code_point, Hc.
Qed.

Lemma utf8_encode_char_blank c :
  isspace c = true ->
  exists bs, utf8_encode_char c = Ok bs /\ (1 <= length bs <= 3)%nat.
Proof.
  intros Hc. destruct (isspace_code_point c Hc) as [Hcp Hs].
  assert (c < 0x10000).
  { unfold isspace in Hc.
    repeat (apply orb_true_iff in Hc as [Hc|Hc]);
    repeat (apply andb_true_iff in Hc as [? ?]);
    repeat match goal with
    | H : (_ <=? _) = true |- _ => apply Z.leb_le in H
    | H : (_ =? _) = true |- _ => apply Z.eqb_eq in H
    end; lia. }
  unfold utf8_encode_char. rewrite Hs.
  destruct (c <? 128); [eexists; split; [reflexivity|cbn; lia]|].
  destruct (c <? 2048); [eexists; split; [reflexivity|cbn; lia]|].
  destruct (Z.ltb_spec c 0x10000); [|lia].
  eexists; split; [reflexivity|cbn; lia].
Qed.

Lemma utf8_encode_blank message :
  blank message ->
  exists msg_bytes,
    utf8_encode message = Ok msg_bytes /\ len msg_bytes <= 3 * len message.
Proof.
  induction 1 as [|c t Hc _ (bs & Hbs & Hl)].
  - exists []. split; [reflexivity|]. unfold len. cbn. lia.
  - destruct (utf8_encode_char_blank c Hc) as (b1 & Hb1 & Hl1).
    exists (b1 ++ bs). cbn [utf8_encode]. rewrite Hb1, Hbs. split; [reflexivity|].
    unfold len in *. rewrite length_app. cbn [length]. lia.
Qed.

Lemma py_code_points s : Forall code_point (py s).
Proof.
  unfold py. apply Forall_map, Forall_forall. intros a _.
  unfold code_point. pose proof (N_ascii_bounded a). cbn beta. lia.
Qed.

Lemma wire_format_bits msg_bytes :
  Forall is_byte msg_bytes -> Forall is_bit (wire_format msg_bytes).
Proof.
  intros Hb. rewrite <- (bits_are_wire_format _ Hb).
  apply flat_map_bits, Forall_app. split; auto using be_bytes_bytes.
Qed.

Ltac all_bytes := repeat (constructor; [unfold is_byte; lia|]); constructor.

(** ** The codec, end to end *)

(** C8: the audio encoder and the video encoder return the same result on
    every message, and that result is the reference wire format of the
    message's UTF-8 bytes: the byte length as four big-endian bytes, then the
    bytes, each expanded into eight bits most significant first. *)
Theorem encoders_agree_on_wire_format (message : pystr) :
  Forall code_point message ->
  stego_audio._encode_message_to_bits message
  = stego_video._encode_message_to_bits message
  /\ forall msg_bytes,
       utf8_encode message = Ok msg_bytes -> len msg_bytes < 2 ^ 32 ->
       stego_audio._encode_message_to_bits message = Ok (wire_format msg_bytes)
       /\ stego_video._encode_message_to_bits message = Ok (wire_format msg_bytes).
Proof.
  intros Hm. split; [apply encoders_raise_alike, Hm|].
  intros msg_bytes Hu Hl.
  pose proof (utf8_encode_bytes _ _ Hm Hu) as Hb.
  rewrite (audio_encode_bits _ _ Hu Hb Hl), (video_encode_bits _ _ Hu Hb Hl).
  rewrite (bits_are_wire_format _ Hb). split; reflexivity.
Qed.

Lemma encoders_agree_on_wire_format_witness :
  Forall code_point (py "HELLO")
  /\ stego_audio._encode_message_to_bits (py "HELLO")
     = stego_video._encode_message_to_bits (py "HELLO")
  /\ stego_audio._encode_message_to_bits (py "HELLO")
     = Ok (wire_format [72; 69; 76; 76; 79]).
Proof.
  split; [apply py_code_points|].
  destruct (encoders_agree_on_wire_format (py "HELLO") (py_code_points _))
    as [Heq Hw].
  split; [exact Heq|].
  apply (Hw [72; 69; 76; 76; 79]); [reflexivity | vm_compute; reflexivity].
Defined.

(** C3: on a sequence of bits, decoding returns absent exactly when the
    sequence has fewer than 32 bits, or its big-endian 32-bit header [L] is
    0, or [L] exceeds the maximum byte length (100000 for the audio codec,
    200000 for the video codec), or [L] exceeds the bits left after the
    header divided by 8, or the [L] bytes read MSB-first and UTF-8-decoded
    with replacement are empty or all whitespace; otherwise it returns that
    decoded string. *)
Theorem decode_absent_exactly_when (bits : list Z) :
  Forall is_bit bits ->
  (stego_audio._decode_bits_to_message bits stego_audio.max_len_bytes_default
     = Ok None <-> absent bits 100000)
  /\ (~ absent bits 100000 ->
      stego_audio._decode_bits_to_message bits stego_audio.max_len_bytes_default
      = Ok (Some (payload_text bits)))
  /\ (stego_video._decode_bits_to_message bits stego_video.max_len_bytes_default
        = Ok None <-> absent bits 200000)
  /\ (~ absent bits 200000 ->
      stego_video._decode_bits_to_message bits stego_video.max_len_bytes_default
      = Ok (Some (payload_text bits))).
Proof.
  intros Hb.
  pose proof (audio_decode_eq bits 100000 Hb) as Ha.
  pose proof (audio_decode_eq bits 200000 Hb) as Hv.
  rewrite <- video_decode_is_audio_decode in Hv.
  change stego_audio.max_len_bytes_default with 100000.
  change stego_video.max_len_bytes_default with 200000.
  rewrite Ha, Hv.
  repeat split.
  - intros [= H]. apply decoded_None_iff in H; assumption.
  - intros H. f_equal. apply decoded_None_iff; assumption.
  - intros H. f_equal. apply decoded_Some; assumption.
  - intros [= H]. apply decoded_None_iff in H; assumption.
  - intros H. f_equal. apply decoded_None_iff; assumption.
  - intros H. f_equal. apply decoded_Some; assumption.
Qed.

Lemma decode_absent_exactly_when_witness :
  Forall is_bit (wire_format [72; 73])
  /\ stego_audio._decode_bits_to_message (wire_format [72; 73])
       stego_audio.max_len_bytes_default = Ok (Some (py "HI"))
  /\ stego_video._decode_bits_to_message (wire_format [72; 73])
       stego_video.max_len_bytes_default = Ok (Some (py "HI")).
Proof.
  assert (Hb : Forall is_bit (wire_format [72; 73])).
  { apply wire_format_bits. all_bytes. }
  assert (Ha : forall n, 2 <= n -> ~ absent (wire_format [72; 73]) n).
  { assert (Hh : header_length (wire_format [72; 73]) = 2) by reflexivity.
    assert (Hn : len (wire_format [72; 73]) = 48) by reflexivity.
    intros n Hle [H1|[H1|[H1|[H1|H1]]]].
    - lia.
    - lia.
    - lia.
    - rewrite Hh, Hn in H1. change ((48 - 32) / 8) with 2 in H1. lia.
    - vm_compute in H1. inversion H1. discriminate. }
  split; [exact Hb|].
  destruct (decode_absent_exactly_when _ Hb) as (_ & H1 & _ & H2).
  split; [rewrite H1 | rewrite H2]; try reflexivity; apply Ha; lia.
Defined.

Lemma blank_frame_absent msg_bytes message tail max_len :
  Forall code_point message -> blank message ->
  utf8_encode message = Ok msg_bytes -> len msg_bytes < 2 ^ 32 ->
  Forall is_bit tail ->
  decoded (flat_map byte_bits (be_bytes 4 (len msg_bytes) ++ msg_bytes) ++ tail)
          max_len = None.
Proof.
  intros Hcp Hblank Hu Hl Ht.
  pose proof (utf8_encode_bytes _ _ Hcp Hu) as Hb.
  rewrite (frame_decoded msg_bytes tail Hb Hl max_len).
  rewrite (utf8_roundtrip _ _ Hcp Hu).
  apply strip_nil_iff in Hblank. rewrite Hblank.
  unfold pystr_eqb. rewrite bool_decide_eq_true_2 by reflexivity.
  rewrite orb_true_r. reflexivity.
Qed.

(** C10: both encoders accept the empty message, which becomes exactly 32
    zero bits, and every whitespace-only message; yet decoding the bits of
    such a message, alone or followed by the rest of a carrier's bits,
    returns absent, not the message. *)
Theorem blank_messages_decode_absent (message : pystr) :
  blank message -> 3 * len message < 2 ^ 32 ->
  stego_audio._encode_message_to_bits [] = Ok (repeat 0 32)
  /\ stego_video._encode_message_to_bits [] = Ok (repeat 0 32)
  /\ exists bits,
       stego_audio._encode_message_to_bits message = Ok bits
       /\ stego_video._encode_message_to_bits message = Ok bits
       /\ forall tail, Forall is_bit tail ->
            stego_audio._decode_bits_to_message (bits ++ tail)
              stego_audio.max_len_bytes_default = Ok None
            /\ stego_video._decode_bits_to_message (bits ++ tail)
                 stego_video.max_len_bytes_default = Ok None.
Proof.
  intros Hblank Hlen. split; [reflexivity|]. split; [reflexivity|].
  destruct (utf8_encode_blank _ Hblank) as (msg_bytes & Hu & Hl3).
  pose proof (blank_code_points _ Hblank) as Hcp.
  pose proof (utf8_encode_bytes _ _ Hcp Hu) as Hb.
  assert (Hl : len msg_bytes < 2 ^ 32) by lia.
  exists (flat_map byte_bits (be_bytes 4 (len msg_bytes) ++ msg_bytes)).
  split; [apply audio_encode_bits; assumption|].
  split; [apply video_encode_bits; assumption|].
  intros tail Ht.
  change (stego_video._decode_bits_to_message ?b ?m)
    with (stego_audio._decode_bits_to_message b m).
  rewrite !audio_decode_eq by (apply frame_bits; assumption).
  rewrite !(blank_frame_absent msg_bytes message) by assumption.
  split; reflexivity.
Qed.

Lemma blank_messages_decode_absent_witness :
  blank (py "  ") /\ 3 * len (py "  ") < 2 ^ 32
  /\ stego_audio._encode_message_to_bits (py "  ") = Ok (wire_format [32; 32])
  /\ stego_audio._decode_bits_to_message (wire_format [32; 32])
       stego_audio.max_len_bytes_default = Ok None.
Proof.
  assert (Hb : blank (py "  ")) by (repeat constructor).
  assert (Hl : 3 * len (py "  ") < 2 ^ 32) by (vm_compute; reflexivity).
  split; [exact Hb|]. split; [exact Hl|].
  destruct (blank_messages_decode_absent (py "  ") Hb Hl)
    as (_ & _ & bits & Ha & _ & Hd).
  assert (Hbits : bits = wire_format [32; 32]).
  { vm_compute in Ha. injection Ha as <-. reflexivity. }
  subst bits. split; [exact Ha|].
  destruct (Hd [] (Forall_nil_2 _)) as [H _]. rewrite app_nil_r in H. exact H.
Defined.

(** ** Embedding, then extracting *)

Lemma not_blank_strip message : ~ blank message -> pystr_eqb (strip message) [] = false.
Proof.
  intros H. unfold pystr_eqb. apply bool_decide_eq_false_2.
  intros Hs. apply H, strip_nil_iff, Hs.
Qed.

Lemma framed_message_decoded msg_bytes message tail max_len :
  Forall code_point message -> ~ blank message ->
  utf8_encode message = Ok msg_bytes -> len msg_bytes <= max_len ->
  len msg_bytes < 2 ^ 32 ->
  decoded (flat_map byte_bits (be_bytes 4 (len msg_bytes) ++ msg_bytes) ++ tail)
          max_len = Some message.
Proof.
  intros Hcp Hblank Hu Hmax Hl.
  pose proof (utf8_encode_bytes _ _ Hcp Hu) as Hb.
  rewrite (frame_decoded msg_bytes tail Hb Hl max_len).
  rewrite (utf8_roundtrip _ _ Hcp Hu), (not_blank_strip _ Hblank).
  destruct (Z.leb_spec (len msg_bytes) 0) as [H0|H0].
  - exfalso. apply Hblank.
    assert (msg_bytes = []) as ->
      by (destruct msg_bytes; [reflexivity | unfold len in H0; cbn in H0; lia]).
    rewrite <- (utf8_roundtrip _ _ Hcp Hu). constructor.
  - destruct (Z.ltb_spec max_len (len msg_bytes)); [lia|]. reflexivity.
Qed.

Lemma long_message_decoded msg_bytes tail max_len :
  Forall is_byte msg_bytes -> len msg_bytes < 2 ^ 32 ->
  max_len < len msg_bytes ->
  decoded (flat_map byte_bits (be_bytes 4 (len msg_bytes) ++ msg_bytes) ++ tail)
          max_len = None.
Proof.
  intros Hb Hl Hmax. rewrite (frame_decoded msg_bytes tail Hb Hl max_len).
  destruct (Z.ltb_spec max_len (len msg_bytes)); [|lia].
  rewrite orb_true_r. reflexivity.
Qed.

(** What audio extraction reads back from the file an embedding wrote. *)
Lemma audio_embed_extract fs cover_path stego_path message w msg_bytes :
  fs !! cover_path = Some w -> stego_audio.wf_wav w ->
  Forall code_point message -> utf8_encode message = Ok msg_bytes ->
  32 + 8 * len msg_bytes <= size (stego_audio.samples w) ->
  len msg_bytes < 2 ^ 32 ->
  let bits := flat_map byte_bits (be_bytes 4 (len msg_bytes) ++ msg_bytes) in
  exists fs',
    stego_audio.embed_lsb_audio fs cover_path stego_path message = (Ok tt, fs')
    /\ stego_audio.extract_lsb_audio fs' stego_path
       = Ok (match decoded
                     (bits ++ lsbs (drop (length bits)
                                         (data (stego_audio.samples w))))
                     stego_audio.max_len_bytes_default with
             | None => stego_audio.NO_PAYLOAD
             | Some m => m
             end).
Proof.
  intros Hf Hwf Hcp Hu Hcap Hl bits.
  pose proof (utf8_encode_bytes _ _ Hcp Hu) as Hb.
  pose proof (audio_encode_bits _ _ Hu Hb Hl) as He. fold bits in He.
  assert (Hbits : Forall is_bit bits) by (eapply encoded_bits; eassumption).
  assert (Hlen : len bits = 32 + 8 * len msg_bytes) by apply encoded_length.
  assert (Hn : (length bits <= length (data (stego_audio.samples w)))%nat)
    by (unfold size, len in *; lia).
  eexists. split.
  - apply (audio_embed_ok fs cover_path stego_path message w bits);
      try assumption. lia.
  - erewrite audio_extract_eq; [| apply lookup_insert_eq |].
    + cbn [stego_audio.samples data]. unfold lsbs at 1.
      rewrite set_lsbs_lsb by assumption. reflexivity.
    + cbn [stego_audio.samples data]. apply set_lsbs_int16; [apply Hwf|assumption].
Qed.

(** The same for video, when the encoding run is exact on the frames it
    is handed. *)
Lemma video_embed_extract w cover_path stego_path message fps frames msg_bytes ffv1 :
  stego_video.ffmpeg w = stego_video.Working ffv1 ->
  stego_video.files w !! cover_path = Some (stego_video.Video fps frames) ->
  frames <> [] -> wf_frames frames ->
  Forall code_point message -> utf8_encode message = Ok msg_bytes ->
  32 + 8 * len msg_bytes <= len (flatten frames) ->
  len msg_bytes < 2 ^ 32 ->
  let bits := flat_map byte_bits (be_bytes 4 (len msg_bytes) ++ msg_bytes) in
  exact_on ffv1 fps (stego_frames frames bits) stego_path ->
  exists w',
    stego_video.embed_lsb_video w cover_path stego_path message = (Ok tt, w')
    /\ stego_video.extract_lsb_video w' stego_path
       = Ok (match decoded
                     (bits ++ lsbs (drop (length bits) (flatten frames)))
                     stego_video.max_len_bytes_default with
             | None => stego_video.NO_PAYLOAD
             | Some m => m
             end).
Proof.
  intros Hff Hf Hne Hwf Hcp Hu Hcap Hl bits [fps' Hex].
  pose proof (utf8_encode_bytes _ _ Hcp Hu) as Hb.
  pose proof (video_encode_bits _ _ Hu Hb Hl) as He. fold bits in He.
  assert (Hbits : Forall is_bit bits).
  { apply flat_map_bits, Forall_app. split; auto using be_bytes_bytes. }
  assert (Hlen : len bits = 32 + 8 * len msg_bytes) by apply encoded_length.
  assert (Hn : (length bits <= length (flatten frames))%nat)
    by (unfold len in *; lia).
  eexists. split.
  - rewrite (video_embed_ok w cover_path stego_path message fps frames bits ffv1)
      by (try assumption; lia).
    apply after_exact_encoding, Hex.
  - pose proof (stego_frames_wf frames bits Hwf Hbits Hn) as [_ Hsb].
    erewrite video_extract_eq;
      [| cbn [stego_video.files]; apply lookup_insert_eq
       | apply reframe_nonempty, Hne | exact Hsb].
    unfold stego_frames.
    rewrite reframe_flatten by (apply set_lsbs_u8_length, Hn).
    rewrite set_lsbs_u8_lsb by (try assumption; apply Hwf).
    reflexivity.
Qed.

Lemma NO_PAYLOAD_not_blank_message : stego_audio.NO_PAYLOAD <> py " ".
Proof. discriminate. Qed.

Lemma utf8_encode_ascii s :
  Forall (fun c => 0 <= c < 128) s -> utf8_encode s = Ok s.
Proof.
  induction 1 as [|c t Hc _ IH]; [reflexivity|].
  cbn [utf8_encode]. unfold utf8_encode_char.
  destruct (Z.ltb_spec c 128); [|lia]. cbn [bind]. rewrite IH. reflexivity.
Qed.

Lemma repeat_ascii c n : 0 <= c < 128 -> Forall (fun c => 0 <= c < 128) (repeat c n).
Proof. intros H. apply Forall_forall. intros x Hx%list_elem_of_In%repeat_spec. lia. Qed.

Lemma int16_zeros n : Forall stego_audio.int16 (repeat 0 n).
Proof.
  apply Forall_forall. intros x Hx%list_elem_of_In%repeat_spec.
  unfold stego_audio.int16. lia.
Qed.

Lemma byte_zeros n : Forall is_byte (repeat 0 n).
Proof.
  apply Forall_forall. intros x Hx%list_elem_of_In%repeat_spec.
  unfold is_byte. lia.
Qed.

(** C1, counterexample: a message of one space fits a carrier of 40
    samples, the embedding succeeds, and extraction returns the text that
    announces a missing payload; a message of 100001 letters fits a carrier
    of 800040 samples, and extraction again returns that text; and with an
    encoding run whose file reads back as black frames, the video
    embedding of "HELLO" into a frame of 72 bytes succeeds and extraction
    returns the announcement of the video side. *)
Lemma round_trip_counterexample :
  (let cover := stego_audio.mkWav (mkArr [40%nat; 1%nat] (repeat 0 40)) 44100 in
   let fs : gmap string stego_audio.wav := {[ "cover.wav"%string := cover ]} in
   stego_audio._encode_message_to_bits (py " ") = Ok (wire_format [32])
   /\ len (wire_format [32]) <= size (stego_audio.samples cover)
   /\ exists fs',
        stego_audio.embed_lsb_audio fs "cover.wav" "stego.wav" (py " ")
        = (Ok tt, fs')
        /\ stego_audio.extract_lsb_audio fs' "stego.wav"
           = Ok stego_audio.NO_PAYLOAD
        /\ stego_audio.NO_PAYLOAD <> py " ")
  /\ (let n := Z.to_nat 800040 in
      let message := repeat 65 (Z.to_nat 100001) in
      let cover := stego_audio.mkWav (mkArr [n; 1%nat] (repeat 0 n)) 44100 in
      let fs : gmap string stego_audio.wav := {[ "cover.wav"%string := cover ]} in
      utf8_encode message = Ok message
      /\ 32 + 8 * len message <= size (stego_audio.samples cover)
      /\ exists fs',
           stego_audio.embed_lsb_audio fs "cover.wav" "stego.wav" message
           = (Ok tt, fs')
           /\ stego_audio.extract_lsb_audio fs' "stego.wav"
              = Ok stego_audio.NO_PAYLOAD
           /\ stego_audio.NO_PAYLOAD <> message)
  /\ (let frames := [mkArr [1%nat; 24%nat; 3%nat] (repeat 0 72)] in
      let black fps frames (_ : string) :=
        stego_video.mkEncoding None
          (Some (stego_video.Video fps
                   (map (fun f => mkArr (shape f) (map (fun _ => 0) (data f)))
                        frames))) in
      let w := stego_video.mkWorld
                 {[ "cover.avi"%string := stego_video.Video 25 frames ]}
                 None (stego_video.Working black) in
      len (wire_format [72; 69; 76; 76; 79]) <= len (flatten frames)
      /\ exists w',
           stego_video.embed_lsb_video w "cover.avi" "stego.avi" (py "HELLO")
           = (Ok tt, w')
           /\ stego_video.extract_lsb_video w' "stego.avi"
              = Ok stego_video.NO_PAYLOAD
           /\ stego_video.NO_PAYLOAD <> py "HELLO").
Proof.
  split; [|split].
  - intros cover fs. split; [reflexivity|]. split; [vm_compute; discriminate|].
    assert (Hwf : stego_audio.wf_wav cover).
    { split; [reflexivity|]. apply Forall_forall.
      intros x Hx%list_elem_of_In%repeat_spec. unfold stego_audio.int16. lia. }
    destruct (audio_embed_extract fs "cover.wav" "stego.wav" (py " ") cover [32])
      as (fs' & He & Hx).
    + apply lookup_singleton_eq.
    + exact Hwf.
    + apply py_code_points.
    + reflexivity.
    + vm_compute. discriminate.
    + vm_compute. reflexivity.
    + exists fs'. split; [exact He|]. split; [|discriminate].
      rewrite Hx. reflexivity.
  - intros n message cover fs.
    assert (Hu : utf8_encode message = Ok message)
      by (apply utf8_encode_ascii, repeat_ascii; lia).
    assert (Hlen : len message = 100001)
      by (unfold len, message; rewrite repeat_length; lia).
    assert (Hsize : size (stego_audio.samples cover) = 800040)
      by (unfold size, len, cover, n; cbn [stego_audio.samples data];
          rewrite repeat_length; lia).
    assert (Hcp : Forall code_point message).
    { apply Forall_forall. intros x Hx%list_elem_of_In%repeat_spec.
      unfold code_point. lia. }
    split; [exact Hu|]. split; [lia|].
    assert (Hwf : stego_audio.wf_wav cover).
    { split.
      - unfold wf_ndarray, cover. cbn [stego_audio.samples shape data shape_size fold_right].
        rewrite repeat_length. lia.
      - apply Forall_forall. intros x Hx%list_elem_of_In%repeat_spec.
        unfold stego_audio.int16. lia. }
    destruct (audio_embed_extract fs "cover.wav" "stego.wav" message cover message)
      as (fs' & He & Hx).
    + apply lookup_singleton_eq.
    + exact Hwf.
    + exact Hcp.
    + exact Hu.
    + lia.
    + lia.
    + exists fs'. split; [exact He|]. split.
      * rewrite Hx, long_message_decoded; [reflexivity | | lia |].
        -- apply (utf8_encode_bytes _ _ Hcp Hu).
        -- change stego_audio.max_len_bytes_default with 100000. lia.
      * intros Heq. apply (f_equal (@length Z)) in Heq.
        unfold message in Heq. rewrite repeat_length in Heq.
        change (length stego_audio.NO_PAYLOAD) with 52%nat in Heq. lia.
  - intros frames black w. split; [vm_compute; discriminate|].
    assert (Hf : stego_video.files w !! "cover.avi"%string
                 = Some (stego_video.Video 25 frames)) by apply lookup_singleton_eq.
    assert (Hwf : wf_frames frames).
    { split; [|apply (byte_zeros 72)].
      apply Forall_cons_2; [reflexivity | apply Forall_nil_2]. }
    rewrite (video_embed_ok w "cover.avi" "stego.avi" (py "HELLO") 25 frames
               (wire_format [72; 69; 76; 76; 79]) black eq_refl Hf
               ltac:(discriminate) Hwf eq_refl
               (wire_format_bits [72; 69; 76; 76; 79] ltac:(all_bytes))
               ltac:(vm_compute; discriminate)).
    eexists. split; [reflexivity|]. split; [|discriminate].
    vm_compute. reflexivity.
Qed.

(** C1, as the code has it: a message that is not empty or all whitespace,
    whose UTF-8 bytes number at most 100000 (audio) or 200000 (video) and
    whose 32 + 8 * bytes bits fit the carrier, is returned exactly by
    extraction from the file that embedding wrote; for video this needs
    the encoding run of the tool to be exact on the frames that carry the
    payload, which the code hopes for and does not check. *)
Theorem round_trip (message msg_bytes : list Z) :
  Forall code_point message -> utf8_encode message = Ok msg_bytes ->
  ~ blank message ->
  (forall fs cover_path stego_path w,
     fs !! cover_path = Some w -> stego_audio.wf_wav w ->
     len msg_bytes <= 100000 ->
     32 + 8 * len msg_bytes <= size (stego_audio.samples w) ->
     exists fs',
       stego_audio.embed_lsb_audio fs cover_path stego_path message = (Ok tt, fs')
       /\ stego_audio.extract_lsb_audio fs' stego_path = Ok message)
  /\ (forall w cover_path stego_path fps frames ffv1,
        stego_video.ffmpeg w = stego_video.Working ffv1 ->
        stego_video.files w !! cover_path = Some (stego_video.Video fps frames) ->
        frames <> [] -> wf_frames frames ->
        len msg_bytes <= 200000 ->
        32 + 8 * len msg_bytes <= len (flatten frames) ->
        exact_on ffv1 fps (stego_frames frames (wire_format msg_bytes)) stego_path ->
        exists w',
          stego_video.embed_lsb_video w cover_path stego_path message = (Ok tt, w')
          /\ stego_video.extract_lsb_video w' stego_path = Ok message).
Proof.
  intros Hcp Hu Hblank. split.
  - intros fs cover_path stego_path w Hf Hwf Hmax Hcap.
    assert (Hl : len msg_bytes < 2 ^ 32) by lia.
    destruct (audio_embed_extract fs cover_path stego_path message w msg_bytes
                Hf Hwf Hcp Hu Hcap Hl) as (fs' & He & Hx).
    exists fs'. split; [exact He|]. rewrite Hx.
    rewrite (framed_message_decoded msg_bytes message _ _ Hcp Hblank Hu);
      [reflexivity | exact Hmax | exact Hl].
  - intros w cover_path stego_path fps frames ffv1 Hff Hf Hne Hwf Hmax Hcap Hex.
    assert (Hl : len msg_bytes < 2 ^ 32) by lia.
    rewrite <- (bits_are_wire_format msg_bytes (utf8_encode_bytes _ _ Hcp Hu)) in Hex.
    destruct (video_embed_extract w cover_path stego_path message fps frames
                msg_bytes ffv1 Hff Hf Hne Hwf Hcp Hu Hcap Hl Hex) as (w' & He & Hx).
    exists w'. split; [exact He|]. rewrite Hx.
    rewrite (framed_message_decoded msg_bytes message _ _ Hcp Hblank Hu);
      [reflexivity | exact Hmax | exact Hl].
Qed.

Lemma HELLO_not_blank : ~ blank (py "HELLO").
Proof. intros H. inversion H. discriminate. Qed.

Lemma round_trip_witness :
  let cover := stego_audio.mkWav (mkArr [72%nat; 1%nat] (repeat 0 72)) 44100 in
  let fs : gmap string stego_audio.wav := {[ "cover.wav"%string := cover ]} in
  let frames := [mkArr [4%nat; 6%nat; 3%nat] (repeat 0 72)] in
  let w := stego_video.mkWorld
             {[ "cover.avi"%string := stego_video.Video 25 frames ]}
             None (stego_video.Working stego_video.exact_ffv1) in
  (exists fs',
     stego_audio.embed_lsb_audio fs "cover.wav" "stego.wav" (py "HELLO")
     = (Ok tt, fs')
     /\ stego_audio.extract_lsb_audio fs' "stego.wav" = Ok (py "HELLO"))
  /\ (exists w',
        stego_video.embed_lsb_video w "cover.avi" "stego.avi" (py "HELLO")
        = (Ok tt, w')
        /\ stego_video.extract_lsb_video w' "stego.avi" = Ok (py "HELLO")).
Proof.
  intros cover fs frames w.
  destruct (round_trip (py "HELLO") [72; 69; 76; 76; 79]
              (py_code_points _) eq_refl HELLO_not_blank) as [Ha Hv].
  split.
  - apply (Ha fs "cover.wav"%string "stego.wav"%string cover).
    + apply lookup_singleton_eq.
    + split; [reflexivity | apply int16_zeros].
    + vm_compute. discriminate.
    + vm_compute. discriminate.
  - apply (Hv w "cover.avi"%string "stego.avi"%string 25%Q frames
             stego_video.exact_ffv1).
    + reflexivity.
    + apply lookup_singleton_eq.
    + discriminate.
    + split; [repeat constructor | apply (byte_zeros 72)].
    + vm_compute. discriminate.
    + vm_compute. discriminate.
    + exists 25%Q. reflexivity.
Defined.

(** ** Capacity *)

(** C2, counterexample: a video without frames has capacity 0, and the
    embedding of "HELLO" raises the error that no frames were extracted,
    not the capacity error; and at exact capacity (72 bits into a frame of
    72 bytes) the embedding raises when the encoding run of the tool
    fails, and leaves the file that run wrote. *)
Lemma capacity_counterexample :
  (let w := stego_video.mkWorld
              {[ "empty.avi"%string := stego_video.Video 25 [] ]}
              None (stego_video.Working stego_video.exact_ffv1) in
   stego_video._encode_message_to_bits (py "HELLO")
   = Ok (wire_format [72; 69; 76; 76; 79])
   /\ len (@flatten []) < len (wire_format [72; 69; 76; 76; 79])
   /\ stego_video.embed_lsb_video w "empty.avi" "stego.avi" (py "HELLO")
      = (Raise (RuntimeError "No frames extracted from video"), w))
  /\ (let frames := [mkArr [1%nat; 24%nat; 3%nat] (repeat 0 72)] in
      let failing (fps : Q) (frames : list ndarray) (_ : string) :=
        stego_video.mkEncoding (Some "Could not write header"%string)
          (Some (stego_video.Unreadable "empty file")) in
      let w := stego_video.mkWorld
                 {[ "cover.avi"%string := stego_video.Video 25 frames ]}
                 None (stego_video.Working failing) in
      len (wire_format [72; 69; 76; 76; 79]) = len (flatten frames)
      /\ stego_video.embed_lsb_video w "cover.avi" "stego.mp4" (py "HELLO")
         = (Raise (RuntimeError "ffmpeg encoding failed: Could not write header"),
            stego_video.mkWorld
              (<[ "stego.mp4"%string := stego_video.Unreadable "empty file" ]>
                 (stego_video.files w))
              None (stego_video.Working failing))).
Proof.
  split.
  - intros w. split; [reflexivity|]. split; [vm_compute; reflexivity|].
    apply (video_embed_no_frames w "empty.avi" "stego.avi" (py "HELLO") 25
             stego_video.exact_ffv1 eq_refl).
    apply lookup_singleton_eq.
  - intros frames failing w. split; [vm_compute; reflexivity|].
    assert (Hf : stego_video.files w !! "cover.avi"%string
                 = Some (stego_video.Video 25 frames)) by apply lookup_singleton_eq.
    assert (Hwf : wf_frames frames).
    { split; [|apply (byte_zeros 72)].
      apply Forall_cons_2; [reflexivity | apply Forall_nil_2]. }
    rewrite (video_embed_ok w "cover.avi" "stego.mp4" (py "HELLO") 25 frames
               (wire_format [72; 69; 76; 76; 79]) failing eq_refl Hf
               ltac:(discriminate) Hwf eq_refl
               (wire_format_bits [72; 69; 76; 76; 79] ltac:(all_bytes))
               ltac:(vm_compute; discriminate)).
    reflexivity.
Qed.

(** C2, as the code has it: the audio embedding succeeds when the encoded
    bits number at most the capacity (samples times channels), so in
    particular when they equal it, and raises the capacity error as soon
    as they exceed it, with the stored files as they were. The video
    embedding of a cover with at least one frame passes its capacity test
    (the RGB bytes of all frames) under the same condition and then hands
    the frames to the encoding run, succeeding when that run does; it
    raises the capacity error as soon as the bits exceed the capacity,
    with no file written and the scratch directory gone; and on a cover
    without frames it raises the error that no frames were extracted. *)
Theorem embed_capacity_boundary (message : pystr) (bits : list Z) :
  Forall code_point message ->
  stego_audio._encode_message_to_bits message = Ok bits ->
  (forall fs cover_path stego_path w,
     fs !! cover_path = Some w -> stego_audio.wf_wav w ->
     (len bits <= size (stego_audio.samples w) ->
      exists fs',
        stego_audio.embed_lsb_audio fs cover_path stego_path message
        = (Ok tt, fs'))
     /\ (size (stego_audio.samples w) < len bits ->
         stego_audio.embed_lsb_audio fs cover_path stego_path message
         = (Raise (AudioTooSmall (size (stego_audio.samples w)) (len bits)), fs)))
  /\ (forall w cover_path stego_path fps frames ffv1,
        stego_video.ffmpeg w = stego_video.Working ffv1 ->
        stego_video.files w !! cover_path = Some (stego_video.Video fps frames) ->
        wf_frames frames ->
        (frames <> [] -> len bits <= len (flatten frames) ->
         stego_video.embed_lsb_video w cover_path stego_path message
         = after_encoding w ffv1 fps (stego_frames frames bits) stego_path
         /\ (stego_video.failure (ffv1 fps (stego_frames frames bits) stego_path)
             = None ->
             fst (stego_video.embed_lsb_video w cover_path stego_path message)
             = Ok tt))
        /\ (frames <> [] -> len (flatten frames) < len bits ->
            stego_video.embed_lsb_video w cover_path stego_path message
            = (Raise (VideoTooSmall (len (flatten frames)) (len bits)),
               stego_video.mkWorld (stego_video.files w) None
                 (stego_video.Working ffv1)))
        /\ (frames = [] ->
            stego_video.embed_lsb_video w cover_path stego_path message
            = (Raise (RuntimeError "No frames extracted from video"),
               stego_video.mkWorld (stego_video.files w) None
                 (stego_video.Working ffv1)))).
Proof.
  intros Hcp He.
  pose proof (encoded_bits _ _ Hcp He) as Hbits.
  assert (Hv : stego_video._encode_message_to_bits message = Ok bits)
    by (rewrite <- encoders_raise_alike; assumption).
  split.
  - intros fs cover_path stego_path w Hf Hwf. split; intros Hcap.
    + eexists. apply (audio_embed_ok fs cover_path stego_path message w bits);
        assumption.
    + apply (audio_embed_too_small fs cover_path stego_path message w bits);
        assumption.
  - intros w cover_path stego_path fps frames ffv1 Hff Hf Hwf.
    split; [|split].
    + intros Hne Hcap.
      pose proof (video_embed_ok w cover_path stego_path message fps frames bits
                    ffv1 Hff Hf Hne Hwf Hv Hbits Hcap) as Hok.
      split; [exact Hok|]. intros Hrun. rewrite Hok. unfold after_encoding.
      cbn [fst]. rewrite Hrun. reflexivity.
    + intros Hne Hcap.
      apply (video_embed_too_small w cover_path stego_path message fps frames bits);
        assumption.
    + intros ->. apply (video_embed_no_frames w cover_path stego_path message fps);
        assumption.
Qed.

Lemma embed_capacity_boundary_witness :
  let mono n := stego_audio.mkWav (mkArr [n; 1%nat] (repeat 0 n)) 44100 in
  let fs : gmap string stego_audio.wav :=
    {[ "exact.wav"%string := mono 72%nat ]} in
  let fs1 : gmap string stego_audio.wav :=
    {[ "short.wav"%string := mono 71%nat ]} in
  let clip k := [mkArr [1%nat; k; 3%nat] (repeat 0 (k * 3))] in
  let w := stego_video.mkWorld
             {[ "exact.avi"%string := stego_video.Video 25 (clip 24%nat) ]}
             None (stego_video.Working stego_video.exact_ffv1) in
  let w1 := stego_video.mkWorld
              {[ "short.avi"%string := stego_video.Video 25 (clip 23%nat) ]}
              None (stego_video.Working stego_video.exact_ffv1) in
  (exists fs',
     stego_audio.embed_lsb_audio fs "exact.wav" "stego.wav" (py "HELLO")
     = (Ok tt, fs'))
  /\ stego_audio.embed_lsb_audio fs1 "short.wav" "stego.wav" (py "HELLO")
     = (Raise (AudioTooSmall 71 72), fs1)
  /\ fst (stego_video.embed_lsb_video w "exact.avi" "stego.avi" (py "HELLO"))
     = Ok tt
  /\ stego_video.embed_lsb_video w1 "short.avi" "stego.avi" (py "HELLO")
     = (Raise (VideoTooSmall 69 72), w1).
Proof.
  intros mono fs fs1 clip w w1.
  destruct (embed_capacity_boundary (py "HELLO")
              (wire_format [72; 69; 76; 76; 79]) (py_code_points _) eq_refl)
    as [Ha Hv].
  split; [|split; [|split]].
  - apply (Ha fs "exact.wav"%string "stego.wav"%string (mono 72%nat)).
    + apply lookup_singleton_eq.
    + split; [reflexivity | apply int16_zeros].
    + vm_compute. discriminate.
  - apply (Ha fs1 "short.wav"%string "stego.wav"%string (mono 71%nat)).
    + apply lookup_singleton_eq.
    + split; [reflexivity | apply int16_zeros].
    + vm_compute. reflexivity.
  - destruct (Hv w "exact.avi"%string "stego.avi"%string 25%Q (clip 24%nat)
                stego_video.exact_ffv1) as (Hok & _).
    + reflexivity.
    + apply lookup_singleton_eq.
    + split; [|apply (byte_zeros 72)].
      apply Forall_cons_2; [reflexivity | apply Forall_nil_2].
    + destruct Hok as [_ Hrun]; [discriminate | vm_compute; discriminate|].
      apply Hrun. reflexivity.
  - destruct (Hv w1 "short.avi"%string "stego.avi"%string 25%Q (clip 23%nat)
                stego_video.exact_ffv1) as (_ & Hsmall & _).
    + reflexivity.
    + apply lookup_singleton_eq.
    + split; [|apply (byte_zeros 69)].
      apply Forall_cons_2; [reflexivity | apply Forall_nil_2].
    + apply Hsmall; [discriminate | vm_compute; reflexivity].
Defined.

(** ** The frame of the audio embedding *)

(** C9: when the message fits, the file that audio embedding writes has the
    shape and the sample rate of the cover; each of the first [len bits]
    flattened samples is the cover's sample with its low bit cleared and
    then OR-ed with the payload bit, so its low bit is that payload bit and
    its upper 15 bits are the cover's; every later sample is the cover's. *)
Theorem audio_embed_frame fs cover_path stego_path message w bits :
  fs !! cover_path = Some w -> stego_audio.wf_wav w ->
  Forall code_point message ->
  stego_audio._encode_message_to_bits message = Ok bits ->
  len bits <= size (stego_audio.samples w) ->
  exists out,
    stego_audio.embed_lsb_audio fs cover_path stego_path message
    = (Ok tt, <[stego_path := out]> fs)
    /\ shape (stego_audio.samples out) = shape (stego_audio.samples w)
    /\ stego_audio.samplerate out = stego_audio.samplerate w
    /\ length (data (stego_audio.samples out))
       = length (data (stego_audio.samples w))
    /\ forall (i : nat) (x : Z),
         data (stego_audio.samples w) !! i = Some x ->
         (forall b, bits !! i = Some b ->
            exists y,
              data (stego_audio.samples out) !! i = Some y
              /\ y = Z.lor (Z.land x (Z.lnot 1)) b
              /\ Z.land y 1 = b
              /\ Z.shiftr y 1 = Z.shiftr x 1)
         /\ ((length bits <= i)%nat ->
             data (stego_audio.samples out) !! i = Some x).
Proof.
  intros Hf Hwf Hcp He Hcap.
  pose proof (encoded_bits _ _ Hcp He) as Hbits.
  assert (Hn : (length bits <= length (data (stego_audio.samples w)))%nat)
    by (unfold size, len in *; lia).
  eexists. split.
  { apply (audio_embed_ok fs cover_path stego_path message w bits); assumption. }
  cbn [stego_audio.samples stego_audio.samplerate shape data].
  split; [reflexivity|]. split; [reflexivity|].
  split; [apply set_lsbs_length, Hn|].
  intros i x Hx. split.
  - intros b Hb. exists (set_bit x b).
    split; [apply set_lsbs_lookup_lt; assumption|].
    split; [reflexivity|].
    assert (Hbit : is_bit b).
    { eapply Forall_lookup_1; eassumption. }
    split; [apply clear_then_or_lsb, Hbit | apply clear_then_or_upper, Hbit].
  - intros Hi. rewrite set_lsbs_lookup_ge by assumption. exact Hx.
Qed.

Lemma audio_embed_frame_witness :
  let cover := stego_audio.mkWav (mkArr [40%nat; 2%nat] (repeat (-3) 80)) 8000 in
  let fs : gmap string stego_audio.wav := {[ "cover.wav"%string := cover ]} in
  exists out,
    stego_audio.embed_lsb_audio fs "cover.wav" "stego.wav" (py "HELLO")
    = (Ok tt, <[ "stego.wav"%string := out ]> fs)
    /\ shape (stego_audio.samples out) = [40%nat; 2%nat]
    /\ stego_audio.samplerate out = 8000
    /\ data (stego_audio.samples out) !! 0%nat = Some (-4)
    /\ data (stego_audio.samples out) !! 72%nat = Some (-3).
Proof.
  intros cover fs.
  assert (Hwf : stego_audio.wf_wav cover).
  { split; [reflexivity|]. apply Forall_forall.
    intros x Hx%list_elem_of_In%repeat_spec. unfold stego_audio.int16. lia. }
  destruct (audio_embed_frame fs "cover.wav" "stego.wav" (py "HELLO") cover
              (wire_format [72; 69; 76; 76; 79]))
    as (out & He & Hs & Hr & _ & Hd).
  - apply lookup_singleton_eq.
  - exact Hwf.
  - apply py_code_points.
  - reflexivity.
  - vm_compute. discriminate.
  - exists out. split; [exact He|]. split; [exact Hs|]. split; [exact Hr|].
    split.
    + destruct (Hd 0%nat (-3) eq_refl) as [Hlt _].
      destruct (Hlt 0 eq_refl) as (y & Hy & -> & _). exact Hy.
    + destruct (Hd 72%nat (-3) eq_refl) as [_ Hge].
      apply Hge. vm_compute. lia.
Defined.

(** ** Carriers without a payload *)

Lemma video_bits_are_bits (frames : list ndarray) :
  Forall is_bit
    (concat (map (fun frame => map (fun x => Z.land x 1) (astype_uint8 (data frame)))
                 frames)).
Proof.
  induction frames as [|f rest IH]; [constructor|].
  cbn [map concat]. apply Forall_app. split; [apply lsbs_are_bits | exact IH].
Qed.

Lemma video_extract_never_raises w stego_path :
  exists s, stego_video.extract_lsb_video w stego_path = Ok s.
Proof.
  unfold stego_video.extract_lsb_video.
  destruct (stego_video.get_reader w stego_path) as [e|[fps frames]];
    [eexists; reflexivity|].
  destruct (map _ frames) as [|r0 rs] eqn:Em; [eexists; reflexivity|].
  rewrite <- Em.
  rewrite video_decode_is_audio_decode, audio_decode_eq
    by apply video_bits_are_bits.
  cbn [bind]. destruct (decoded _ _); eexists; reflexivity.
Qed.

(** C4, counterexample: a carrier that carries the announcement itself as
    its message decodes successfully, and extraction returns the very string
    it returns for a silent carrier of the same size; and a video without
    frames yields another string than the announcement. *)
Lemma sentinel_counterexample :
  (let carrying : gmap string stego_audio.wav :=
     {[ "a.wav"%string :=
          stego_audio.mkWav (mkArr [448%nat; 1%nat]
                               (wire_format stego_audio.NO_PAYLOAD)) 8000 ]} in
   let silent : gmap string stego_audio.wav :=
     {[ "a.wav"%string :=
          stego_audio.mkWav (mkArr [448%nat; 1%nat] (repeat 0 448)) 8000 ]} in
   stego_audio._decode_bits_to_message
     (lsbs (wire_format stego_audio.NO_PAYLOAD))
     stego_audio.max_len_bytes_default = Ok (Some stego_audio.NO_PAYLOAD)
   /\ stego_audio._decode_bits_to_message (lsbs (repeat 0 448))
        stego_audio.max_len_bytes_default = Ok None
   /\ stego_audio.extract_lsb_audio carrying "a.wav" = Ok stego_audio.NO_PAYLOAD
   /\ stego_audio.extract_lsb_audio silent "a.wav" = Ok stego_audio.NO_PAYLOAD)
  /\ (let w := stego_video.mkWorld
                 {[ "v.avi"%string := stego_video.Video 25 [] ]}
                 None (stego_video.Working stego_video.exact_ffv1) in
      stego_video.extract_lsb_video w "v.avi" = Ok stego_video.NO_FRAMES
      /\ stego_video.NO_FRAMES <> stego_video.NO_PAYLOAD).
Proof.
  split.
  - intros carrying silent.
    split; [vm_compute; reflexivity|]. split; [vm_compute; reflexivity|].
    split; vm_compute; reflexivity.
  - intros w. split; [|discriminate].
    apply (video_extract_no_frames w "v.avi" 25). apply lookup_singleton_eq.
Qed.

(** C4, as the code has it: on a stored carrier whose low bits hold no
    payload, audio extraction and video extraction of at least one frame
    return their fixed announcement; a video without frames yields the
    separate announcement of that; extraction of a stored carrier never
    raises; and a carrier that does hold a payload yields the decoded text,
    which differs from the announcement unless it is that very text. *)
Theorem extract_reports_absent_payload :
  (forall fs stego_path w,
     fs !! stego_path = Some w ->
     Forall stego_audio.int16 (data (stego_audio.samples w)) ->
     let bits := lsbs (data (stego_audio.samples w)) in
     (absent bits 100000 ->
      stego_audio.extract_lsb_audio fs stego_path = Ok stego_audio.NO_PAYLOAD)
     /\ (~ absent bits 100000 ->
         stego_audio.extract_lsb_audio fs stego_path = Ok (payload_text bits))
     /\ exists s, stego_audio.extract_lsb_audio fs stego_path = Ok s)
  /\ (forall w stego_path fps frames,
        stego_video.files w !! stego_path = Some (stego_video.Video fps frames) ->
        Forall is_byte (flatten frames) ->
        let bits := lsbs (flatten frames) in
        (frames <> [] -> absent bits 200000 ->
         stego_video.extract_lsb_video w stego_path = Ok stego_video.NO_PAYLOAD)
        /\ (frames <> [] -> ~ absent bits 200000 ->
            stego_video.extract_lsb_video w stego_path = Ok (payload_text bits))
        /\ (frames = [] ->
            stego_video.extract_lsb_video w stego_path = Ok stego_video.NO_FRAMES))
  /\ (forall w stego_path,
        exists s, stego_video.extract_lsb_video w stego_path = Ok s).
Proof.
  split; [|split].
  - intros fs stego_path w Hf Hi bits.
    pose proof (audio_extract_eq fs stego_path w Hf Hi) as Hx. fold bits in Hx.
    assert (Hb : Forall is_bit bits) by apply lsbs_are_bits.
    change stego_audio.max_len_bytes_default with 100000 in Hx.
    split; [|split].
    + intros Ha. apply (decoded_None_iff bits 100000 Hb) in Ha.
      rewrite Hx, Ha. reflexivity.
    + intros Ha. rewrite Hx, (decoded_Some bits 100000 Hb Ha). reflexivity.
    + eexists. exact Hx.
  - intros w stego_path fps frames Hf Hby bits. split; [|split].
    + intros Hne Ha.
      pose proof (video_extract_eq w stego_path fps frames Hf Hne Hby) as Hx.
      fold bits in Hx. change stego_video.max_len_bytes_default with 200000 in Hx.
      apply (decoded_None_iff bits 200000 (lsbs_are_bits _)) in Ha.
      rewrite Hx, Ha. reflexivity.
    + intros Hne Ha.
      pose proof (video_extract_eq w stego_path fps frames Hf Hne Hby) as Hx.
      fold bits in Hx. change stego_video.max_len_bytes_default with 200000 in Hx.
      rewrite Hx, (decoded_Some bits 200000 (lsbs_are_bits _) Ha). reflexivity.
    + intros ->. apply (video_extract_no_frames w stego_path fps Hf).
  - apply video_extract_never_raises.
Qed.

Lemma extract_reports_absent_payload_witness :
  let fs : gmap string stego_audio.wav :=
    {[ "tiny.wav"%string :=
         stego_audio.mkWav (mkArr [10%nat; 1%nat] (repeat 0 10)) 8000 ]} in
  let w := stego_video.mkWorld
             {[ "tiny.avi"%string :=
                  stego_video.Video 25 [mkArr [2%nat; 2%nat; 3%nat] (repeat 0 12)] ]}
             None (stego_video.Working stego_video.exact_ffv1) in
  stego_audio.extract_lsb_audio fs "tiny.wav" = Ok stego_audio.NO_PAYLOAD
  /\ stego_video.extract_lsb_video w "tiny.avi" = Ok stego_video.NO_PAYLOAD.
Proof.
  intros fs w. destruct extract_reports_absent_payload as (Ha & Hv & _). split.
  - destruct (Ha fs "tiny.wav"%string
                (stego_audio.mkWav (mkArr [10%nat; 1%nat] (repeat 0 10)) 8000))
      as (H & _).
    + apply lookup_singleton_eq.
    + apply (int16_zeros 10).
    + apply H. left. vm_compute. reflexivity.
  - destruct (Hv w "tiny.avi"%string 25%Q
                [mkArr [2%nat; 2%nat; 3%nat] (repeat 0 12)]) as (H & _).
    + apply lookup_singleton_eq.
    + apply (byte_zeros 12).
    + apply H; [discriminate|]. left. vm_compute. reflexivity.
Defined.

(** ** The statistical method *)

Lemma balance_of_range p : (0 <= p <= 1 -> 0 <= balance_of p <= 1)%Q.
Proof. unfold balance_of. intros H. apply Qabs_case; intros; lra. Qed.

Lemma balance_of_half p : (p == 1 # 2 -> balance_of p == 1)%Q.
Proof. unfold balance_of. intros H. apply Qabs_case; intros; lra. Qed.

Lemma balance_of_ends p : (p == 0 \/ p == 1 -> balance_of p == 0)%Q.
Proof. unfold balance_of. intros [H|H]; apply Qabs_case; intros; lra. Qed.

Lemma count_nonzero_range (a : list Z) : 0 <= count_nonzero a <= len a.
Proof.
  unfold count_nonzero, len. pose proof (length_filter (fun x => x <> 0) a). lia.
Qed.

Lemma fraction_of_ones_range lsb :
  lsb <> [] -> (0 <= fraction_of_ones lsb <= 1)%Q.
Proof.
  intros Hne. unfold fraction_of_ones.
  pose proof (count_nonzero_range lsb) as [H0 H1].
  assert (Hpos : 0 < len lsb) by (destruct lsb; [congruence | unfold len; cbn; lia]).
  assert (HposQ : (0 < inject_Z (len lsb))%Q).
  { change 0%Q with (inject_Z 0). rewrite <- Zlt_Qlt. exact Hpos. }
  split.
  - apply Qle_shift_div_l; [exact HposQ|]. rewrite Qmult_0_l.
    change 0%Q with (inject_Z 0). rewrite <- Zle_Qle. exact H0.
  - apply Qle_shift_div_r; [exact HposQ|]. rewrite Qmult_1_l.
    rewrite <- Zle_Qle. exact H1.
Qed.

Lemma py_div_nonzero a n : n <> 0 -> py_div a (inject_Z n) = Ok (a / inject_Z n)%Q.
Proof.
  intros Hn. unfold py_div.
  destruct (Qeq_bool (inject_Z n) 0) eqn:E; [|reflexivity].
  apply Qeq_bool_eq in E. unfold Qeq, inject_Z in E. cbn in E. lia.
Qed.

Lemma len_nonzero {A} (l : list A) : l <> [] -> len l <> 0.
Proof. destruct l; [congruence|]. unfold len. cbn. lia. Qed.

Lemma audio_statistics_nonempty E path pcm :
  audio_detector.pcm16 E !! path = Some pcm -> pcm <> [] ->
  let lsb := lsbs (astype_int16 pcm) in
  audio_detector.audio_lsb_statistics E path
  = Ok (mkResult "A1_LSB_stats" (Some (balance_of (fraction_of_ones lsb)))
          (lsb_verdict (balance_of (fraction_of_ones lsb)))
          (Some (inject_Z (len lsb - count_nonzero lsb) / inject_Z (len lsb))%Q)
          (Some (fraction_of_ones lsb))).
Proof.
  intros Hp Hne lsb.
  unfold audio_detector.audio_lsb_statistics, audio_detector._load_audio_pcm16.
  rewrite Hp. cbn [bind].
  assert (Hn : astype_int16 pcm <> [])
    by (destruct pcm; [congruence | discriminate]).
  destruct (Z.eqb_spec (len (astype_int16 pcm)) 0) as [H0|_];
    [apply len_nonzero in Hn; contradiction|].
  fold (lsbs (astype_int16 pcm)). fold lsb.
  assert (Hl : lsb <> []) by (unfold lsb, lsbs; destruct (astype_int16 pcm);
                               [congruence | discriminate]).
  rewrite !py_div_nonzero by (apply len_nonzero, Hl).
  reflexivity.
Qed.

Lemma video_statistics_nonempty E frames :
  grey_lsbs E frames <> [] ->
  let lsb := grey_lsbs E frames in
  video_detector.frame_lsb_statistics E frames
  = Ok (mkResult "V1_frame_LSB_stats" (Some (balance_of (fraction_of_ones lsb)))
          (lsb_verdict (balance_of (fraction_of_ones lsb)))
          (Some (inject_Z (len lsb - count_nonzero lsb) / inject_Z (len lsb))%Q)
          (Some (fraction_of_ones lsb))).
Proof.
  intros Hne lsb. unfold video_detector.frame_lsb_statistics.
  destruct frames as [|f rest]; [exfalso; apply Hne; reflexivity|].
  fold (grey_lsbs E (f :: rest)). fold lsb.
  rewrite !py_div_nonzero by (apply len_nonzero, Hne).
  reflexivity.
Qed.

(** C7: the balance score [1 - 2 * |p1 - 1/2|] lies in [0, 1], is 1 when
    half of the low bits are 1 and 0 when all of them are equal; on a
    non-empty signal or pixel set the statistical method returns that score
    of the fraction of 1-valued low bits, and on a zero-length input it
    returns the score 0 with a verdict that says so. *)
Theorem lsb_balance_score :
  (forall p : Q,
     (0 <= p <= 1)%Q ->
     (0 <= balance_of p <= 1)%Q
     /\ ((p == 1 # 2)%Q -> (balance_of p == 1)%Q)
     /\ ((p == 0)%Q \/ (p == 1)%Q -> (balance_of p == 0)%Q))
  /\ (forall E path pcm,
        audio_detector.pcm16 E !! path = Some pcm ->
        (pcm = [] ->
         audio_detector.audio_lsb_statistics E path
         = Ok (mkResult "A1_LSB_stats" (Some 0%Q) "Audio too short / invalid"
                 None None))
        /\ (pcm <> [] ->
            exists r,
              audio_detector.audio_lsb_statistics E path = Ok r
              /\ p1 r = Some (fraction_of_ones (lsbs (astype_int16 pcm)))
              /\ score r
                 = Some (balance_of (fraction_of_ones (lsbs (astype_int16 pcm))))
              /\ (0 <= fraction_of_ones (lsbs (astype_int16 pcm)) <= 1)%Q))
  /\ (forall E frames,
        (frames = [] ->
         video_detector.frame_lsb_statistics E frames
         = Ok (mkResult "V1_frame_LSB_stats" (Some 0%Q) "No frames extracted"
                 None None))
        /\ (grey_lsbs E frames <> [] ->
            exists r,
              video_detector.frame_lsb_statistics E frames = Ok r
              /\ p1 r = Some (fraction_of_ones (grey_lsbs E frames))
              /\ score r = Some (balance_of (fraction_of_ones (grey_lsbs E frames)))
              /\ (0 <= fraction_of_ones (grey_lsbs E frames) <= 1)%Q)).
Proof.
  split; [|split].
  - intros p Hp. split; [apply balance_of_range, Hp|].
    split; [apply balance_of_half | apply balance_of_ends].
  - intros E path pcm Hp. split.
    + intros ->. unfold audio_detector.audio_lsb_statistics,
        audio_detector._load_audio_pcm16. rewrite Hp. reflexivity.
    + intros Hne. eexists. split; [apply audio_statistics_nonempty; eassumption|].
      cbn [p1 score]. split; [reflexivity|]. split; [reflexivity|].
      apply fraction_of_ones_range.
      destruct pcm; [congruence | discriminate].
  - intros E frames. split.
    + intros ->. reflexivity.
    + intros Hne. eexists. split; [apply video_statistics_nonempty; assumption|].
      cbn [p1 score]. split; [reflexivity|]. split; [reflexivity|].
      apply fraction_of_ones_range, Hne.
Qed.

Lemma lsb_balance_score_witness :
  let E := audio_detector.mkEnv {[ "a.wav"%string := [1; 2; 3; 4] ]}
             (fun _ => []) NotThere NotThere in
  exists r,
    audio_detector.audio_lsb_statistics E "a.wav" = Ok r
    /\ p1 r = Some (2 # 4)%Q
    /\ score r = Some (balance_of (2 # 4))
    /\ (balance_of (2 # 4) == 1)%Q.
Proof.
  intros E. destruct lsb_balance_score as (Hb & Ha & _).
  destruct (Ha E "a.wav"%string [1; 2; 3; 4]) as [_ Hne].
  { apply lookup_singleton_eq. }
  destruct (Hne ltac:(discriminate)) as (r & Hr & Hp & Hs & Hrange).
  exists r. split; [exact Hr|]. split; [exact Hp|]. split; [exact Hs|].
  apply (Hb (2 # 4)%Q); [split; discriminate | reflexivity].
Defined.

(** ** The overview *)

Lemma Qlt_bool_iff x y : Qlt_bool x y = true <-> (x < y)%Q.
Proof.
  unfold Qlt_bool. rewrite negb_true_iff. split.
  - intros H. apply Qnot_le_lt. intros Hle. apply Qle_bool_iff in Hle. congruence.
  - intros H. destruct (Qle_bool y x) eqn:E; [|reflexivity].
    apply Qle_bool_iff in E. exfalso. apply (Qlt_not_le _ _ H E).
Qed.

Lemma Qlt_bool_false x y : Qlt_bool x y = false -> (y <= x)%Q.
Proof.
  unfold Qlt_bool. rewrite negb_false_iff. apply Qle_bool_iff.
Qed.

Lemma fold_keep_best_snoc results r best :
  fold_left keep_best (results ++ [r]) best
  = keep_best (fold_left keep_best results best) r.
Proof. apply fold_left_app. Qed.

Lemma keep_best_is_best results :
  is_best results (fold_left keep_best results (None, None)).
Proof.
  induction results as [|x results IH] using rev_ind.
  - left. split; [constructor | reflexivity].
  - rewrite fold_keep_best_snoc.
    destruct IH as [[Hall ->] | (i & r & s & Hi & Hs & -> & Hmax)];
      unfold keep_best; cbn [fst].
    + destruct (score x) as [sx|] eqn:Ex.
      * right. exists (length results), x, sx.
        split; [apply list_lookup_middle; reflexivity|].
        split; [exact Ex|]. split; [reflexivity|].
        intros j r' s' Hj Hs'.
        destruct (Nat.lt_ge_cases j (length results)) as [Hlt|Hge].
        -- rewrite lookup_app_l in Hj by assumption.
           rewrite Forall_forall in Hall.
           pose proof (Hall r' (list_elem_of_lookup_2 _ _ _ Hj)). congruence.
        -- pose proof (lookup_lt_Some _ _ _ Hj) as Hb.
           rewrite length_app in Hb. cbn in Hb.
           assert (j = length results) as -> by lia.
           rewrite list_lookup_middle in Hj by reflexivity.
           injection Hj as <-. rewrite Ex in Hs'. injection Hs' as <-.
           split; [apply Qle_refl | lia].
      * left. split; [|reflexivity].
        apply Forall_app. split; [exact Hall | repeat constructor; exact Ex].
    + pose proof (lookup_lt_Some _ _ _ Hi) as Hil.
      destruct (score x) as [sx|] eqn:Ex.
      * destruct (Qlt_bool s sx) eqn:Elt.
        -- apply Qlt_bool_iff in Elt.
           right. exists (length results), x, sx.
           split; [apply list_lookup_middle; reflexivity|].
           split; [exact Ex|]. split; [reflexivity|].
           intros j r' s' Hj Hs'.
           destruct (Nat.lt_ge_cases j (length results)) as [Hlt|Hge].
           ++ rewrite lookup_app_l in Hj by assumption.
              destruct (Hmax j r' s' Hj Hs') as [Hle _].
              split; [apply Qlt_le_weak|intros _];
                apply (Qle_lt_trans _ s); assumption.
           ++ pose proof (lookup_lt_Some _ _ _ Hj) as Hb.
              rewrite length_app in Hb. cbn in Hb.
              assert (j = length results) as -> by lia.
              rewrite list_lookup_middle in Hj by reflexivity.
              injection Hj as <-. rewrite Ex in Hs'. injection Hs' as <-.
              split; [apply Qle_refl | lia].
        -- apply Qlt_bool_false in Elt.
           right. exists i, r, s.
           split; [rewrite lookup_app_l by assumption; exact Hi|].
           split; [exact Hs|]. split; [reflexivity|].
           intros j r' s' Hj Hs'.
           destruct (Nat.lt_ge_cases j (length results)) as [Hlt|Hge].
           ++ rewrite lookup_app_l in Hj by assumption.
              apply (Hmax j r' s' Hj Hs').
           ++ pose proof (lookup_lt_Some _ _ _ Hj) as Hb.
              rewrite length_app in Hb. cbn in Hb.
              assert (j = length results) as -> by lia.
              rewrite list_lookup_middle in Hj by reflexivity.
              injection Hj as <-. rewrite Ex in Hs'. injection Hs' as <-.
              split; [exact Elt | lia].
      * right. exists i, r, s.
        split; [rewrite lookup_app_l by assumption; exact Hi|].
        split; [exact Hs|]. split; [reflexivity|].
        intros j r' s' Hj Hs'.
        destruct (Nat.lt_ge_cases j (length results)) as [Hlt|Hge].
        -- rewrite lookup_app_l in Hj by assumption.
           apply (Hmax j r' s' Hj Hs').
        -- pose proof (lookup_lt_Some _ _ _ Hj) as Hb.
           rewrite length_app in Hb. cbn in Hb.
           assert (j = length results) as -> by lia.
           rewrite list_lookup_middle in Hj by reflexivity.
           injection Hj as <-. congruence.
Qed.

(** C6: when its methods return, an analysis returns an overview that
    lists their results in evaluation order, the statistical one first, and
    whose best score and best method are those of the first result among
    the ones of greatest non-null score, or both null when every score is
    null. *)
Theorem overview_best_of_methods :
  (forall E path a1 a2,
     audio_detector.audio_lsb_statistics E path = Ok a1 ->
     audio_detector.audio_mfcc_svm E path = Ok a2 ->
     exists ov,
       audio_detector.analyze_audio E path = Ok ov
       /\ methods ov = [a1; a2]
       /\ is_best (methods ov) (best_score ov, best_method ov))
  /\ (forall E path v1,
        video_detector.frame_lsb_statistics E (video_detector.extract_frames E path)
        = Ok v1 ->
        exists ov,
          video_detector.analyze_video E path = Ok ov
          /\ methods ov = [v1; video_detector.video_frame_svm E path]
          /\ is_best (methods ov) (best_score ov, best_method ov)).
Proof.
  split.
  - intros E path a1 a2 H1 H2. unfold audio_detector.analyze_audio.
    rewrite H1, H2. cbn [bind app].
    pose proof (keep_best_is_best [a1; a2]) as Hb.
    destruct (fold_left keep_best [a1; a2] (None, None)) as [bs bm].
    eexists. split; [reflexivity|]. split; [reflexivity|]. exact Hb.
  - intros E path v1 H1. unfold video_detector.analyze_video.
    rewrite H1. cbn [bind].
    pose proof (keep_best_is_best [v1; video_detector.video_frame_svm E path]) as Hb.
    destruct (fold_left keep_best _ (None, None)) as [bs bm].
    eexists. split; [reflexivity|]. split; [reflexivity|]. exact Hb.
Qed.

Lemma overview_best_of_methods_witness :
  let E := video_detector.mkEnv (fun _ => []) (fun _ => [])
             (fun _ => Raise (LibraryError "no frames")) (fun x => x)
             NotThere NotThere in
  exists ov,
    video_detector.analyze_video E "clip.mp4" = Ok ov
    /\ length (methods ov) = 2%nat
    /\ best_score ov = Some 0%Q
    /\ best_method ov = Some "V1_frame_LSB_stats"%string.
Proof.
  intros E. destruct overview_best_of_methods as [_ Hv].
  destruct (Hv E "clip.mp4"%string
              (mkResult "V1_frame_LSB_stats" (Some 0%Q) "No frames extracted"
                 None None) eq_refl) as (ov & Ho & Hm & Hb).
  exists ov. split; [exact Ho|]. split; [rewrite Hm; reflexivity|].
  rewrite Hm in Hb.
  destruct Hb as [[Hall _] | (i & r & s & Hi & Hs & Heq & _)].
  - inversion Hall as [|? ? Hx _]. discriminate Hx.
  - destruct i as [|[|i]]; cbn in Hi; try discriminate.
    + injection Hi as <-. injection Hs as <-. injection Heq as -> ->.
      split; reflexivity.
    + injection Hi as <-. discriminate Hs.
Defined.

(** ** The learned method with a broken artifact *)

Lemma transform_mismatch sc feats :
  length feats <> n_features_in_ sc -> exists e, transform sc feats = Raise e.
Proof.
  intros H. unfold transform.
  destruct (Nat.eqb_spec (length feats) (n_features_in_ sc)); [contradiction|].
  eexists. reflexivity.
Qed.

Lemma video_svm_degrades E path :
  broken (video_detector.VIDEO_SCALER_PATH E) (video_detector.VIDEO_SVM_PATH E)
         (video_detector.extract_video_features E path) ->
  score (video_detector.video_frame_svm E path) = None
  /\ method (video_detector.video_frame_svm E path) = "V2_frame_SVM"%string
  /\ verdict (video_detector.video_frame_svm E path) <> ""%string.
Proof.
  intros H. unfold video_detector.video_frame_svm.
  destruct H as [[H|H] | err Hs Hc [H|H] | s c fs Hs Hc Hf Hn].
  - rewrite H. cbn. repeat split. discriminate.
  - rewrite H, orb_true_r. cbn. repeat split. discriminate.
  - rewrite Hs, Hc, H. cbn. repeat split. discriminate.
  - rewrite Hs, Hc, H. cbn [negb orb].
    destruct (video_detector.VIDEO_SCALER_PATH E) as [|e|s]; try discriminate;
      cbn; repeat split; discriminate.
  - rewrite Hs, Hc, Hf. cbn [exists_ negb orb joblib_load bind].
    destruct (transform_mismatch s fs Hn) as [e ->].
    cbn [score method verdict]. repeat split. discriminate.
Qed.

(** C5, as the code has it: with an artifact that is missing, unreadable or
    of another feature dimension, the learned video method returns a null
    score with a verdict, and the analysis keeps the statistical result;
    the learned audio method does so only for a missing artifact: with an
    unreadable one, or one of another feature dimension, it raises, and so
    does the whole audio analysis, statistical result included. *)
Theorem learned_method_degradation :
  (forall E path v1,
     broken (video_detector.VIDEO_SCALER_PATH E) (video_detector.VIDEO_SVM_PATH E)
            (video_detector.extract_video_features E path) ->
     video_detector.frame_lsb_statistics E (video_detector.extract_frames E path)
     = Ok v1 ->
     score (video_detector.video_frame_svm E path) = None
     /\ verdict (video_detector.video_frame_svm E path) <> ""%string
     /\ exists ov,
          video_detector.analyze_video E path = Ok ov
          /\ methods ov = [v1; video_detector.video_frame_svm E path])
  /\ (forall E path a1,
        audio_detector.audio_lsb_statistics E path = Ok a1 ->
        (exists_ (audio_detector.AUDIO_SCALER_PATH E) = false
         \/ exists_ (audio_detector.AUDIO_SVM_PATH E) = false ->
         exists a2,
           audio_detector.audio_mfcc_svm E path = Ok a2 /\ score a2 = None
           /\ exists ov,
                audio_detector.analyze_audio E path = Ok ov
                /\ methods ov = [a1; a2])
        /\ (forall err,
              audio_detector.AUDIO_SCALER_PATH E = Corrupt err ->
              exists_ (audio_detector.AUDIO_SVM_PATH E) = true ->
              audio_detector.audio_mfcc_svm E path = Raise (LibraryError err)
              /\ audio_detector.analyze_audio E path = Raise (LibraryError err))
        /\ (forall s c fs,
              audio_detector.AUDIO_SCALER_PATH E = Stored s ->
              audio_detector.AUDIO_SVM_PATH E = Stored c ->
              audio_detector.extract_audio_features E path = Ok fs ->
              length fs <> n_features_in_ s ->
              exists e,
                audio_detector.audio_mfcc_svm E path = Raise e
                /\ audio_detector.analyze_audio E path = Raise e)).
Proof.
  split.
  - intros E path v1 Hb H1.
    destruct (video_svm_degrades E path Hb) as (Hs & _ & Hv).
    split; [exact Hs|]. split; [exact Hv|].
    unfold video_detector.analyze_video. rewrite H1. cbn [bind].
    destruct (fold_left keep_best _ (None, None)) as [bs bm].
    eexists. split; reflexivity.
  - intros E path a1 H1. split; [|split].
    + intros Hm. eexists. split; [|split].
      * unfold audio_detector.audio_mfcc_svm.
        destruct Hm as [-> | ->]; [|rewrite orb_true_r]; reflexivity.
      * reflexivity.
      * unfold audio_detector.analyze_audio. rewrite H1. cbn [bind].
        assert (Ha2 : audio_detector.audio_mfcc_svm E path
                      = Ok (mkResult "A2_MFCC_SVM" None
                              "Model not trained yet. Run training/train_audio_svm.py."
                              None None)).
        { unfold audio_detector.audio_mfcc_svm.
          destruct Hm as [-> | ->]; [|rewrite orb_true_r]; reflexivity. }
        rewrite Ha2. cbn [bind app].
        destruct (fold_left keep_best _ (None, None)) as [bs bm].
        eexists. split; reflexivity.
    + intros err Hs Hc.
      assert (Ha2 : audio_detector.audio_mfcc_svm E path = Raise (LibraryError err)).
      { unfold audio_detector.audio_mfcc_svm. rewrite Hs, Hc. reflexivity. }
      split; [exact Ha2|].
      unfold audio_detector.analyze_audio. rewrite H1, Ha2. reflexivity.
    + intros s c fs Hs Hc Hf Hn.
      destruct (transform_mismatch s fs Hn) as [e He].
      assert (Ha2 : audio_detector.audio_mfcc_svm E path = Raise e).
      { unfold audio_detector.audio_mfcc_svm. rewrite Hs, Hc, Hf.
        cbn [exists_ negb orb joblib_load bind]. rewrite He. reflexivity. }
      exists e. split; [exact Ha2|].
      unfold audio_detector.analyze_audio. rewrite H1, Ha2. reflexivity.
Qed.

Lemma learned_method_degradation_witness :
  let E := audio_detector.mkEnv {[ "a.wav"%string := [1; 2; 3; 4] ]}
             (fun _ => []) (Corrupt "invalid load key") (Corrupt "invalid load key") in
  (exists a1,
     audio_detector.audio_lsb_statistics E "a.wav" = Ok a1
     /\ score a1 = Some (balance_of (2 # 4)))
  /\ audio_detector.audio_mfcc_svm E "a.wav"
     = Raise (LibraryError "invalid load key")
  /\ audio_detector.analyze_audio E "a.wav"
     = Raise (LibraryError "invalid load key").
Proof.
  intros E. destruct learned_method_degradation as [_ Ha].
  destruct (Ha E "a.wav"%string
              (mkResult "A1_LSB_stats" (Some (balance_of (2 # 4)))
                 (lsb_verdict (balance_of (2 # 4))) (Some (2 # 4)%Q)
                 (Some (2 # 4)%Q)) eq_refl) as (_ & Hc & _).
  split; [eexists; split; reflexivity|].
  apply (Hc "invalid load key"%string); reflexivity.
Defined.

(** ** More on the codec *)

Ltac all_bits :=
  repeat (constructor; [first [left; reflexivity | right; reflexivity]|]);
  constructor.

(** X1: what either encoder returns for a message has 32 + 8 * n elements,
    [n] the number of UTF-8 bytes of the message, and every element is 0
    or 1. *)
Theorem encoded_size (message : pystr) (bits : list Z) :
  Forall code_point message ->
  stego_audio._encode_message_to_bits message = Ok bits
  \/ stego_video._encode_message_to_bits message = Ok bits ->
  exists msg_bytes,
    utf8_encode message = Ok msg_bytes
    /\ len bits = 32 + 8 * len msg_bytes
    /\ Forall is_bit bits.
Proof.
  intros Hcp He.
  assert (Ha : stego_audio._encode_message_to_bits message = Ok bits).
  { destruct He as [He|He]; [exact He|].
    rewrite encoders_raise_alike by assumption. exact He. }
  destruct (audio_encode_inv _ _ Hcp Ha) as (mb & Hu & Hb & Hl & ->).
  exists mb. split; [exact Hu|]. split; [apply encoded_length|].
  apply (encoded_bits _ _ Hcp Ha).
Qed.

Lemma encoded_size_witness :
  exists msg_bytes,
    utf8_encode (py "HELLO") = Ok msg_bytes
    /\ len (wire_format [72; 69; 76; 76; 79]) = 32 + 8 * len msg_bytes
    /\ Forall is_bit (wire_format [72; 69; 76; 76; 79]).
Proof.
  apply (encoded_size (py "HELLO") _ (py_code_points _)). left. reflexivity.
Defined.

(** X2: decoding what an encoder returned for a message that is not empty
    or all whitespace, followed by any further bits, returns the message,
    for every maximum length that the message's bytes do not exceed. *)
Theorem decode_encode (message : pystr) (bits tail : list Z) (max_len : Z) :
  Forall code_point message -> ~ blank message ->
  stego_audio._encode_message_to_bits message = Ok bits ->
  len bits <= 32 + 8 * max_len ->
  Forall is_bit tail ->
  stego_audio._decode_bits_to_message (bits ++ tail) max_len = Ok (Some message)
  /\ stego_video._decode_bits_to_message (bits ++ tail) max_len
     = Ok (Some message).
Proof.
  intros Hcp Hblank He Hmax Ht.
  destruct (audio_encode_inv _ _ Hcp He) as (mb & Hu & Hb & Hl & ->).
  rewrite encoded_length in Hmax.
  change (stego_video._decode_bits_to_message ?b ?m)
    with (stego_audio._decode_bits_to_message b m).
  rewrite audio_decode_eq by (apply frame_bits; assumption).
  rewrite (framed_message_decoded mb message tail max_len Hcp Hblank Hu); [|lia|lia].
  split; reflexivity.
Qed.

Lemma decode_encode_witness :
  stego_audio._decode_bits_to_message
    (wire_format [72; 69; 76; 76; 79] ++ [1; 0; 1]) 5 = Ok (Some (py "HELLO"))
  /\ stego_video._decode_bits_to_message
       (wire_format [72; 69; 76; 76; 79] ++ [1; 0; 1]) 5 = Ok (Some (py "HELLO")).
Proof.
  apply (decode_encode (py "HELLO") _ [1; 0; 1] 5 (py_code_points _)
           HELLO_not_blank eq_refl).
  - vm_compute. discriminate.
  - all_bits.
Defined.

Lemma astype_uint8_bytes l : Forall is_byte (astype_uint8 l).
Proof.
  apply Forall_map, Forall_forall. intros x _. unfold wrap_unsigned, is_byte. cbn beta.
  apply Z.mod_pos_bound. lia.
Qed.

Lemma shift_in_nonneg v b : 0 <= v -> 0 <= b -> 0 <= shift_in v b.
Proof.
  intros Hv Hb. unfold shift_in. apply Z.lor_nonneg. split; [|exact Hb].
  apply Z.shiftl_nonneg, Hv.
Qed.

Lemma fold_shift_in_nonneg row : forall v,
  0 <= v -> Forall is_byte row -> 0 <= fold_left shift_in row v.
Proof.
  induction row as [|b row IH]; intros v Hv Hr; [exact Hv|].
  apply Forall_cons in Hr as [Hb Hr]. cbn [fold_left].
  apply IH; [|exact Hr]. apply shift_in_nonneg; [exact Hv | unfold is_byte in Hb; lia].
Qed.

(** X3: the decoder never raises, whatever integers the array holds and
    whatever the maximum length: it returns a string or nothing. *)
Theorem decode_never_raises (bits : list Z) (max_len : Z) :
  (exists r, stego_audio._decode_bits_to_message bits max_len = Ok r)
  /\ (exists r, stego_video._decode_bits_to_message bits max_len = Ok r).
Proof.
  assert (H : exists r, stego_audio._decode_bits_to_message bits max_len = Ok r).
  { unfold stego_audio._decode_bits_to_message.
    set (b := astype_uint8 bits).
    destruct (len b <? 32); [eexists; reflexivity|].
    set (L := fold_left shift_in (slice 0 32 b) 0).
    assert (HL : 0 <= L).
    { apply fold_shift_in_nonneg; [lia|]. apply Forall_slice, astype_uint8_bytes. }
    destruct (_ || _); [eexists; reflexivity|].
    destruct (Z.ltb_spec (len b) (32 + L * 8)); [eexists; reflexivity|].
    rewrite payload_rows by lia. cbn [bind].
    destruct (bytes_of_ints _); [|eexists; reflexivity].
    destruct (pystr_eqb _ _); eexists; reflexivity. }
  split; exact H.
Qed.

(** ** Failures of the embedding *)

Lemma utf8_encode_surrogate message :
  Exists (fun c => is_surrogate c = true) message ->
  Forall code_point message ->
  utf8_encode message = Raise UnicodeEncodeError.
Proof.
  induction 1 as [c t Hc | c t _ IH]; intros Hcp.
  - cbn [utf8_encode]. unfold utf8_encode_char. rewrite Hc.
    unfold is_surrogate in Hc. apply andb_true_iff in Hc as [H1 H2].
    apply Z.leb_le in H1.
    destruct (Z.ltb_spec c 128); [lia|]. destruct (Z.ltb_spec c 2048); [lia|].
    reflexivity.
  - apply Forall_cons in Hcp as [Hc Hcp]. cbn [utf8_encode].
    rewrite (IH Hcp).
    unfold utf8_encode_char.
    destruct (c <? 128); [reflexivity|]. destruct (c <? 2048); [reflexivity|].
    destruct (is_surrogate c); [reflexivity|].
    destruct (c <? 65536); reflexivity.
Qed.

(** X4: a message with a lone surrogate code point makes both encoders
    raise the encoding error, and both embeddings raise it too: the audio
    one without writing a file, the video one without writing a file and
    with its scratch directory removed. *)
Theorem surrogate_message_rejected (message : pystr) :
  Forall code_point message ->
  Exists (fun c => is_surrogate c = true) message ->
  stego_audio._encode_message_to_bits message = Raise UnicodeEncodeError
  /\ stego_video._encode_message_to_bits message = Raise UnicodeEncodeError
  /\ (forall fs cover_path stego_path w,
        fs !! cover_path = Some w ->
        stego_audio.embed_lsb_audio fs cover_path stego_path message
        = (Raise UnicodeEncodeError, fs))
  /\ (forall w cover_path stego_path fps frames ffv1,
        stego_video.ffmpeg w = stego_video.Working ffv1 ->
        stego_video.files w !! cover_path = Some (stego_video.Video fps frames) ->
        frames <> [] ->
        stego_video.embed_lsb_video w cover_path stego_path message
        = (Raise UnicodeEncodeError,
           stego_video.mkWorld (stego_video.files w) None
             (stego_video.Working ffv1))).
Proof.
  intros Hcp Hs.
  pose proof (utf8_encode_surrogate _ Hs Hcp) as Hu.
  assert (Ha : stego_audio._encode_message_to_bits message = Raise UnicodeEncodeError)
    by (unfold stego_audio._encode_message_to_bits; rewrite Hu; reflexivity).
  assert (Hv : stego_video._encode_message_to_bits message = Raise UnicodeEncodeError)
    by (unfold stego_video._encode_message_to_bits; rewrite Hu; reflexivity).
  split; [exact Ha|]. split; [exact Hv|]. split.
  - intros fs cover_path stego_path w Hf.
    unfold stego_audio.embed_lsb_audio, stego_audio._load_audio_int16.
    rewrite Hf, Ha. reflexivity.
  - intros w cover_path stego_path fps frames ffv1 Hff Hf Hne.
    destruct w as [fl td ff].
    cbn [stego_video.ffmpeg stego_video.files] in Hff, Hf. subst ff.
    unfold stego_video.embed_lsb_video, stego_video.get_reader.
    cbn [stego_video.ffmpeg stego_video.files]. rewrite Hf.
    unfold stego_video.embed_body, stego_video.ffmpeg_extract,
      stego_video.get_reader.
    cbn [stego_video.ffmpeg stego_video.set_temp_dir stego_video.files]. rewrite Hf.
    cbn [stego_video.temp_dir stego_video.set_temp_dir stego_video.files
         stego_video.ffmpeg].
    destruct frames as [|f0 rest]; [congruence|].
    cbn [map]. rewrite Hv. reflexivity.
Qed.

Lemma surrogate_message_rejected_witness :
  stego_audio._encode_message_to_bits [72; 0xD800; 73] = Raise UnicodeEncodeError
  /\ stego_video._encode_message_to_bits [72; 0xD800; 73]
     = Raise UnicodeEncodeError.
Proof.
  destruct (surrogate_message_rejected [72; 0xD800; 73]) as (Ha & Hv & _).
  - repeat (constructor; [unfold code_point; lia|]). constructor.
  - right. left. reflexivity.
  - split; assumption.
Defined.

(** X5: the audio embedding changes the stored files only when it
    succeeds, and then only the file at [stego_path]: every other file,
    the cover included when it has another path, stays as it was. *)
Theorem audio_embed_writes_only_stego fs cover_path stego_path message :
  match stego_audio.embed_lsb_audio fs cover_path stego_path message with
  | (Raise _, fs') => fs' = fs
  | (Ok _, fs') =>
      is_Some (fs' !! stego_path)
      /\ forall path, path <> stego_path -> fs' !! path = fs !! path
  end.
Proof.
  unfold stego_audio.embed_lsb_audio.
  destruct (stego_audio._load_audio_int16 fs cover_path) as [[int_data sr]|e];
    [|reflexivity].
  destruct (stego_audio._encode_message_to_bits message) as [bits|e];
    [|reflexivity].
  destruct (_ <? _); [reflexivity|].
  destruct (reshape _ _) as [arr|e]; [|reflexivity].
  unfold stego_audio._save_audio_int16. split.
  - rewrite lookup_insert_eq. eexists. reflexivity.
  - intros path Hp. apply lookup_insert_ne. congruence.
Qed.

(** X6: the video embedding never changes a stored file other than the
    one at [stego_path], whether it succeeds or raises; it never changes
    the tool; and started without a scratch directory it ends without
    one, on success as on every failure. *)
Theorem video_embed_writes_only_stego w cover_path stego_path message :
  let r := stego_video.embed_lsb_video w cover_path stego_path message in
  stego_video.ffmpeg (snd r) = stego_video.ffmpeg w
  /\ (stego_video.temp_dir w = None -> stego_video.temp_dir (snd r) = None)
  /\ forall path, path <> stego_path ->
       stego_video.files (snd r) !! path = stego_video.files w !! path.
Proof.
  destruct w as [fl td ff]. cbn zeta.
  unfold stego_video.embed_lsb_video. cbn [stego_video.ffmpeg].
  assert (Hbody : forall fps,
    let w0 := stego_video.set_temp_dir (stego_video.mkWorld fl td ff) (Some []) in
    let r := stego_video.embed_body w0 cover_path stego_path fps message in
    stego_video.ffmpeg (snd r) = ff
    /\ forall path, path <> stego_path ->
         stego_video.files (snd r) !! path = fl !! path).
  { intros fps. cbn zeta. unfold stego_video.embed_body, stego_video.ffmpeg_extract.
    unfold stego_video.set_temp_dir at 1 2. cbn [stego_video.ffmpeg stego_video.files
      stego_video.temp_dir].
    destruct ff as [|stderr|ffv1]; try (split; reflexivity).
    destruct (stego_video.get_reader _ cover_path) as [err|[fps' frames]];
      [split; reflexivity|].
    cbn [stego_video.temp_dir stego_video.set_temp_dir stego_video.files
         stego_video.ffmpeg].
    destruct frames as [|f0 rest]; [split; reflexivity|].
    destruct (stego_video._encode_message_to_bits message) as [bits|e];
      [|split; reflexivity].
    destruct (_ <? _); [split; reflexivity|].
    destruct (stego_video.embed_loop _ _ _) as [flat|e]; [|split; reflexivity].
    destruct (stego_video.split_frames _ _ _) as [frames'|e]; [|split; reflexivity].
    unfold stego_video.ffmpeg_encode.
    cbn [stego_video.temp_dir stego_video.set_temp_dir stego_video.files
         stego_video.ffmpeg stego_video.set_files].
    destruct (ffv1 fps frames' stego_path) as [[stderr|] [c|]];
      cbn [stego_video.failure stego_video.written stego_video.files
           stego_video.ffmpeg stego_video.set_files stego_video.temp_dir
           stego_video.set_temp_dir fst snd];
      (split; [reflexivity|]); intros path Hp;
      try reflexivity; apply lookup_insert_ne; congruence. }
  destruct ff as [|stderr|ffv1].
  - cbn. repeat split. auto.
  - destruct (stego_video.get_reader _ cover_path) as [err|[fps frames]].
    + cbn. repeat split. auto.
    + specialize (Hbody fps). cbn zeta in Hbody.
      destruct (stego_video.embed_body _ _ _ _ _) as [r w'].
      cbn [fst snd] in *. destruct Hbody as [Hff Hfiles].
      split; [exact Hff|]. split; [reflexivity|]. exact Hfiles.
  - destruct (stego_video.get_reader _ cover_path) as [err|[fps frames]].
    + cbn. repeat split. auto.
    + specialize (Hbody fps). cbn zeta in Hbody.
      destruct (stego_video.embed_body _ _ _ _ _) as [r w'].
      cbn [fst snd] in *. destruct Hbody as [Hff Hfiles].
      split; [exact Hff|]. split; [reflexivity|]. exact Hfiles.
Qed.

Lemma audio_embed_writes_only_stego_witness :
  let cover := stego_audio.mkWav (mkArr [72%nat; 1%nat] (repeat 0 72)) 44100 in
  let fs : gmap string stego_audio.wav := {[ "cover.wav"%string := cover ]} in
  snd (stego_audio.embed_lsb_audio fs "cover.wav" "stego.wav" (py "HELLO"))
    !! "cover.wav"%string = Some cover
  /\ snd (stego_audio.embed_lsb_audio fs "cover.wav" "stego.wav" (py "HELLO ")) = fs.
Proof.
  intros cover fs.
  assert (Hf : fs !! "cover.wav"%string = Some cover) by apply lookup_singleton_eq.
  assert (Hwf : stego_audio.wf_wav cover)
    by (split; [reflexivity | apply int16_zeros]).
  split.
  - pose proof (audio_embed_writes_only_stego fs "cover.wav" "stego.wav"
                  (py "HELLO")) as H.
    pose proof (audio_embed_ok fs "cover.wav" "stego.wav" (py "HELLO") cover
                  (wire_format [72; 69; 76; 76; 79]) Hf Hwf eq_refl
                  (wire_format_bits [72; 69; 76; 76; 79] ltac:(all_bytes))
                  ltac:(vm_compute; discriminate)) as E.
    rewrite E in H |- *.
    destruct H as [_ H]. cbn [snd]. rewrite H by discriminate. exact Hf.
  - pose proof (audio_embed_writes_only_stego fs "cover.wav" "stego.wav"
                  (py "HELLO ")) as H.
    pose proof (audio_embed_too_small fs "cover.wav" "stego.wav" (py "HELLO ")
                  cover (wire_format [72; 69; 76; 76; 79; 32]) Hf Hwf eq_refl
                  (wire_format_bits [72; 69; 76; 76; 79; 32] ltac:(all_bytes))
                  ltac:(vm_compute; reflexivity)) as E.
    rewrite E in H |- *. exact H.
Defined.

Lemma video_embed_writes_only_stego_witness :
  let frames := [mkArr [4%nat; 6%nat; 3%nat] (repeat 0 72)] in
  let w := stego_video.mkWorld
             {[ "cover.avi"%string := stego_video.Video 25 frames ]}
             None (stego_video.Working stego_video.exact_ffv1) in
  stego_video.temp_dir
    (snd (stego_video.embed_lsb_video w "cover.avi" "stego.avi" (py "HELLO")))
  = None
  /\ stego_video.files
       (snd (stego_video.embed_lsb_video w "cover.avi" "stego.avi" (py "HELLO")))
       !! "cover.avi"%string
     = Some (stego_video.Video 25 frames).
Proof.
  intros frames w.
  pose proof (video_embed_writes_only_stego w "cover.avi" "stego.avi"
                (py "HELLO")) as (_ & Ht & Hf).
  split; [exact (Ht eq_refl)|].
  rewrite (Hf "cover.avi"%string) by discriminate.
  apply lookup_singleton_eq.
Defined.

(** ** The frame of the video embedding *)

Lemma set_bit_u8_upper x b : is_byte x -> Z.shiftr (set_bit_u8 x b) 1 = Z.shiftr x 1.
Proof.
  intros Hx. unfold set_bit_u8.
  revert Hx. unfold is_byte. intros Hx.
  assert (Hc : forall y, 0 <= y < 256 ->
            Z.shiftr (Z.land y 254) 1 = Z.shiftr y 1
            /\ Z.shiftr (Z.lor y 1) 1 = Z.shiftr y 1).
  { intros y Hy.
    assert (H : (0 <=? y) && (y <? 256) = true)
      by (apply andb_true_iff; split; [apply Z.leb_le | apply Z.ltb_lt]; lia).
    revert y H Hy.
    refine (fun y H _ => _).
    pose proof (byte_cases (fun y => (Z.shiftr (Z.land y 254) 1 =? Z.shiftr y 1)
                                     && (Z.shiftr (Z.lor y 1) 1 =? Z.shiftr y 1)))
      as Hall.
    apply andb_true_iff in H as [H0 H1]. apply Z.leb_le in H0. apply Z.ltb_lt in H1.
    specialize (Hall ltac:(vm_compute; reflexivity) y (conj H0 H1)).
    apply andb_true_iff in Hall as [A B].
    split; apply Z.eqb_eq; assumption. }
  destruct (Hc x Hx) as [A B]. destruct (b =? 0); assumption.
Qed.

Lemma set_lsbs_u8_lookup_lt flat bits (i : nat) x b :
  flat !! i = Some x -> bits !! i = Some b ->
  set_lsbs_u8 flat bits !! i = Some (set_bit_u8 x b).
Proof.
  intros Hx Hb. unfold set_lsbs_u8.
  pose proof (lookup_lt_Some _ _ _ Hb) as Hi.
  pose proof (lookup_lt_Some _ _ _ Hx) as Hj.
  rewrite lookup_app_l by (rewrite length_zip_with, length_take; lia).
  rewrite lookup_zip_with, lookup_take_lt by lia.
  rewrite Hx, Hb. reflexivity.
Qed.

Lemma set_lsbs_u8_lookup_ge flat bits (i : nat) :
  (length bits <= length flat)%nat -> (length bits <= i)%nat ->
  set_lsbs_u8 flat bits !! i = flat !! i.
Proof.
  intros Hl Hi. unfold set_lsbs_u8.
  rewrite lookup_app_r by (rewrite length_zip_with, length_take; lia).
  rewrite length_zip_with, length_take, lookup_drop.
  f_equal. lia.
Qed.

(** X7: when the message fits, the video embedding hands to the encoding
    run, at the frame rate the reader reported for the cover, frames that
    have the number and the shapes of the cover's; in the flat order of
    all frame bytes, each of the first [len bits] bytes keeps its upper
    seven bits and has the payload bit as its low bit, and every later
    byte is the cover's. What the written file then holds is up to that
    run. *)
Theorem video_embed_frame w cover_path stego_path message fps frames bits ffv1 :
  stego_video.ffmpeg w = stego_video.Working ffv1 ->
  stego_video.files w !! cover_path = Some (stego_video.Video fps frames) ->
  frames <> [] -> wf_frames frames ->
  Forall code_point message ->
  stego_video._encode_message_to_bits message = Ok bits ->
  len bits <= len (flatten frames) ->
  exists out,
    stego_video.embed_lsb_video w cover_path stego_path message
    = after_encoding w ffv1 fps out stego_path
    /\ map shape out = map shape frames
    /\ length (flatten out) = length (flatten frames)
    /\ forall (i : nat) (x : Z),
         flatten frames !! i = Some x ->
         (forall b, bits !! i = Some b ->
            exists y,
              flatten out !! i = Some y
              /\ Z.land y 1 = b
              /\ Z.shiftr y 1 = Z.shiftr x 1)
         /\ ((length bits <= i)%nat -> flatten out !! i = Some x).
Proof.
  intros Hff Hf Hne Hwf Hcp He Hcap.
  assert (Ha : stego_audio._encode_message_to_bits message = Ok bits)
    by (rewrite encoders_raise_alike; assumption).
  pose proof (encoded_bits _ _ Hcp Ha) as Hbits.
  assert (Hn : (length bits <= length (flatten frames))%nat)
    by (unfold len in *; lia).
  exists (stego_frames frames bits). split.
  { apply (video_embed_ok w cover_path stego_path message fps frames bits);
      assumption. }
  unfold stego_frames.
  split; [apply reframe_shapes|].
  rewrite reframe_flatten by (apply set_lsbs_u8_length, Hn).
  split; [apply set_lsbs_u8_length, Hn|].
  intros i x Hx. split.
  - intros b Hb. exists (set_bit_u8 x b).
    assert (Hbyte : is_byte x).
    { destruct Hwf as [_ Hby]. eapply Forall_lookup_1; eassumption. }
    assert (Hbit : is_bit b) by (eapply Forall_lookup_1; eassumption).
    split; [apply set_lsbs_u8_lookup_lt; assumption|].
    split; [apply set_bit_u8_lsb; assumption | apply set_bit_u8_upper, Hbyte].
  - intros Hi. rewrite set_lsbs_u8_lookup_ge by assumption. exact Hx.
Qed.

Lemma video_embed_frame_witness :
  let frames := [mkArr [2%nat; 6%nat; 3%nat] (repeat 7 36);
                 mkArr [2%nat; 6%nat; 3%nat] (repeat 7 36);
                 mkArr [2%nat; 6%nat; 3%nat] (repeat 7 36)] in
  let w := stego_video.mkWorld
             {[ "cover.avi"%string := stego_video.Video 25 frames ]}
             None (stego_video.Working stego_video.exact_ffv1) in
  exists out,
    stego_video.embed_lsb_video w "cover.avi" "stego.avi" (py "HELLO")
    = after_encoding w stego_video.exact_ffv1 25 out "stego.avi"
    /\ map shape out = map shape frames
    /\ flatten out !! 0%nat = Some 6
    /\ flatten out !! 100%nat = Some 7.
Proof.
  intros frames w.
  assert (Hby : Forall is_byte (repeat 7 108)).
  { apply Forall_forall. intros x Hx%list_elem_of_In%repeat_spec.
    unfold is_byte. lia. }
  destruct (video_embed_frame w "cover.avi" "stego.avi" (py "HELLO") 25 frames
              (wire_format [72; 69; 76; 76; 79]) stego_video.exact_ffv1)
    as (out & He & Hs & _ & Hd).
  - reflexivity.
  - apply lookup_singleton_eq.
  - discriminate.
  - split; [repeat constructor | exact Hby].
  - apply py_code_points.
  - reflexivity.
  - vm_compute. discriminate.
  - exists out. split; [exact He|]. split; [exact Hs|]. split.
    + destruct (Hd 0%nat 7 eq_refl) as [Hlt _].
      destruct (Hlt 0 eq_refl) as (y & Hy & Hl & Hu).
      rewrite Hy. f_equal.
      rewrite Z.shiftr_div_pow2 in Hu by lia. rewrite land_1_mod in Hl.
      change (Z.shiftr 7 1) with 3 in Hu. change (2 ^ 1) with 2 in Hu.
      Z.div_mod_to_equations. lia.
    + destruct (Hd 100%nat 7 eq_refl) as [_ Hge].
      apply Hge. vm_compute. lia.
Defined.

(** ** Embedding twice, and how far a sample moves *)

Lemma set_bit_again x b : is_bit b -> set_bit (set_bit x b) b = set_bit x b.
Proof.
  intros Hb. unfold set_bit. rewrite !clear_then_or by assumption.
  destruct Hb; subst; Z.div_mod_to_equations; lia.
Qed.

Lemma set_bit_near x b : is_bit b -> Z.abs (set_bit x b - x) <= 1.
Proof.
  intros Hb. unfold set_bit. rewrite clear_then_or by assumption.
  destruct Hb; subst; Z.div_mod_to_equations; lia.
Qed.

Lemma set_bit_same x b : Z.land x 1 = b -> set_bit x b = x.
Proof.
  intros Hl. assert (Hb : is_bit b) by (subst; apply land_1_bit).
  unfold set_bit. rewrite clear_then_or by assumption.
  rewrite land_1_mod in Hl. Z.div_mod_to_equations. lia.
Qed.

Lemma set_bit_u8_facts x b :
  is_byte x -> is_bit b ->
  set_bit_u8 (set_bit_u8 x b) b = set_bit_u8 x b
  /\ Z.abs (set_bit_u8 x b - x) <= 1
  /\ (Z.land x 1 = b -> set_bit_u8 x b = x).
Proof.
  intros Hx Hb.
  pose proof (byte_cases
    (fun x => forallb (fun b =>
       (set_bit_u8 (set_bit_u8 x b) b =? set_bit_u8 x b)
       && (Z.abs (set_bit_u8 x b - x) <=? 1)
       && (implb (Z.land x 1 =? b) (set_bit_u8 x b =? x))) [0; 1])
    ltac:(vm_compute; reflexivity) x Hx) as H.
  cbn [forallb] in H. rewrite andb_true_r in H.
  apply andb_true_iff in H as [H0 H1].
  assert (Hsel : (set_bit_u8 (set_bit_u8 x b) b =? set_bit_u8 x b)
                 && (Z.abs (set_bit_u8 x b - x) <=? 1)
                 && implb (Z.land x 1 =? b) (set_bit_u8 x b =? x) = true)
    by (destruct Hb; subst; assumption).
  apply andb_true_iff in Hsel as [Hsel C]. apply andb_true_iff in Hsel as [A B].
  split; [apply Z.eqb_eq, A|]. split; [apply Z.leb_le, B|].
  intros Hl. apply Z.eqb_eq in Hl. rewrite Hl in C. apply Z.eqb_eq, C.
Qed.

Lemma zip_with_again {A B} (f : A -> B -> A) (P : A -> Prop) (Q : B -> Prop) :
  (forall x b, P x -> Q b -> f (f x b) b = f x b) ->
  forall l bs, Forall P l -> Forall Q bs ->
    zip_with f (zip_with f l bs) bs = zip_with f l bs.
Proof.
  intros Hf l. induction l as [|x l IH]; intros bs Hl Hbs; [reflexivity|].
  destruct bs as [|b bs]; [reflexivity|].
  apply Forall_cons in Hl as [Hx Hl]. apply Forall_cons in Hbs as [Hb Hbs].
  cbn [zip_with]. rewrite Hf, IH by assumption. reflexivity.
Qed.

Lemma splice_again {A B} (f : A -> B -> A) (l : list A) (bs : list B) :
  (length bs <= length l)%nat ->
  zip_with f (take (length bs) l) bs = zip_with f (zip_with f (take (length bs) l) bs) bs ->
  let once := zip_with f (take (length bs) l) bs ++ drop (length bs) l in
  zip_with f (take (length bs) once) bs ++ drop (length bs) once = once.
Proof.
  intros Hl Hz once. unfold once.
  assert (Hlen : length (zip_with f (take (length bs) l) bs) = length bs)
    by (rewrite length_zip_with, length_take; lia).
  rewrite take_app_length' by (symmetry; exact Hlen).
  rewrite drop_app_length' by (symmetry; exact Hlen).
  rewrite <- Hz. reflexivity.
Qed.

Lemma set_lsbs_again flat bits :
  Forall is_bit bits -> (length bits <= length flat)%nat ->
  stego_audio.set_lsbs (stego_audio.set_lsbs flat bits) bits
  = stego_audio.set_lsbs flat bits.
Proof.
  intros Hb Hl. rewrite !set_lsbs_eq.
  apply (splice_again set_bit flat bits Hl).
  symmetry. apply (zip_with_again set_bit (fun _ => True) is_bit).
  - intros x b _ Hbit. apply set_bit_again, Hbit.
  - apply Forall_forall. auto.
  - exact Hb.
Qed.

Lemma set_lsbs_u8_again flat bits :
  Forall is_byte flat -> Forall is_bit bits -> (length bits <= length flat)%nat ->
  set_lsbs_u8 (set_lsbs_u8 flat bits) bits = set_lsbs_u8 flat bits.
Proof.
  intros Hf Hb Hl. unfold set_lsbs_u8.
  apply (splice_again set_bit_u8 flat bits Hl).
  symmetry. apply (zip_with_again set_bit_u8 is_byte is_bit).
  - intros x b Hx Hbit. apply (set_bit_u8_facts x b Hx Hbit).
  - apply Forall_take, Hf.
  - exact Hb.
Qed.

Lemma reframe_reframe frames : forall flat flat',
  length flat = length (flatten frames) ->
  reframe (reframe frames flat) flat' = reframe frames flat'.
Proof.
  induction frames as [|f rest IH]; intros flat flat' Hl; [reflexivity|].
  rewrite flatten_cons, length_app in Hl.
  cbn [reframe shape data]. rewrite length_take.
  replace (length (data f) `min` length flat)%nat with (length (data f)) by lia.
  f_equal. apply IH. rewrite length_drop. lia.
Qed.

(** X8: embedding a message into the file that an embedding of the same
    message wrote gives that file's content again for audio; for video,
    when the first encoding run was exact, the second embedding hands the
    encoding run the very frames the first one handed over. *)
Theorem embed_twice_is_embed_once (message : pystr) (bits : list Z) :
  Forall code_point message ->
  stego_audio._encode_message_to_bits message = Ok bits ->
  (forall fs cover_path stego_path again_path w,
     fs !! cover_path = Some w -> stego_audio.wf_wav w ->
     len bits <= size (stego_audio.samples w) ->
     exists out fs',
       stego_audio.embed_lsb_audio fs cover_path stego_path message = (Ok tt, fs')
       /\ fs' !! stego_path = Some out
       /\ stego_audio.embed_lsb_audio fs' stego_path again_path message
          = (Ok tt, <[again_path := out]> fs'))
  /\ (forall w cover_path stego_path again_path fps fps' frames ffv1,
        stego_video.ffmpeg w = stego_video.Working ffv1 ->
        stego_video.files w !! cover_path = Some (stego_video.Video fps frames) ->
        frames <> [] -> wf_frames frames ->
        len bits <= len (flatten frames) ->
        ffv1 fps (stego_frames frames bits) stego_path
        = stego_video.mkEncoding None
            (Some (stego_video.Video fps' (stego_frames frames bits))) ->
        exists w',
          stego_video.embed_lsb_video w cover_path stego_path message = (Ok tt, w')
          /\ stego_video.files w' !! stego_path
             = Some (stego_video.Video fps' (stego_frames frames bits))
          /\ stego_video.embed_lsb_video w' stego_path again_path message
             = after_encoding w' ffv1 fps' (stego_frames frames bits) again_path).
Proof.
  intros Hcp He.
  pose proof (encoded_bits _ _ Hcp He) as Hbits.
  assert (Hv : stego_video._encode_message_to_bits message = Ok bits)
    by (rewrite <- encoders_raise_alike; assumption).
  split.
  - intros fs cover_path stego_path again_path w Hf Hwf Hcap.
    assert (Hn : (length bits <= length (data (stego_audio.samples w)))%nat)
      by (unfold size, len in *; lia).
    set (out := stego_audio.mkWav
                  (mkArr (shape (stego_audio.samples w))
                     (stego_audio.set_lsbs (data (stego_audio.samples w)) bits))
                  (stego_audio.samplerate w)).
    exists out, (<[stego_path := out]> fs).
    split; [apply audio_embed_ok; assumption|].
    split; [apply lookup_insert_eq|].
    assert (Hwf' : stego_audio.wf_wav out).
    { destruct Hwf as [Hs Hi]. split.
      - unfold wf_ndarray, out. cbn [stego_audio.samples shape data].
        rewrite set_lsbs_length by assumption. exact Hs.
      - apply set_lsbs_int16; assumption. }
    rewrite (audio_embed_ok _ stego_path again_path message out bits
               (lookup_insert_eq _ _ _) Hwf' He Hbits).
    + unfold out. cbn [stego_audio.samples stego_audio.samplerate shape data].
      rewrite set_lsbs_again by assumption. reflexivity.
    + unfold out, size, len. cbn [stego_audio.samples data].
      rewrite set_lsbs_length by assumption. lia.
  - intros w cover_path stego_path again_path fps fps' frames ffv1
      Hff Hf Hne Hwf Hcap Hex.
    assert (Hn : (length bits <= length (flatten frames))%nat)
      by (unfold len in *; lia).
    pose proof (set_lsbs_u8_length _ _ Hn) as Hlen.
    set (w' := stego_video.mkWorld
                 (<[stego_path := stego_video.Video fps' (stego_frames frames bits)]>
                    (stego_video.files w)) None (stego_video.Working ffv1)).
    exists w'. split.
    { rewrite (video_embed_ok w cover_path stego_path message fps frames bits ffv1)
        by assumption.
      apply after_exact_encoding, Hex. }
    assert (Hf' : stego_video.files w' !! stego_path
                  = Some (stego_video.Video fps' (stego_frames frames bits)))
      by apply lookup_insert_eq.
    split; [exact Hf'|].
    rewrite (video_embed_ok w' stego_path again_path message fps'
               (stego_frames frames bits) bits ffv1 eq_refl Hf').
    + f_equal.
      unfold stego_frames at 1. unfold stego_frames at 1 2.
      rewrite reframe_flatten by exact Hlen.
      rewrite reframe_reframe by exact Hlen.
      rewrite set_lsbs_u8_again by (try assumption; apply Hwf). reflexivity.
    + apply reframe_nonempty, Hne.
    + apply stego_frames_wf; assumption.
    + exact Hv.
    + exact Hbits.
    + unfold stego_frames, len. rewrite reframe_flatten by exact Hlen.
      rewrite Hlen. unfold len in Hcap. exact Hcap.
Qed.

Lemma embed_twice_is_embed_once_witness :
  let cover := stego_audio.mkWav (mkArr [72%nat; 1%nat] (repeat 0 72)) 44100 in
  let fs : gmap string stego_audio.wav := {[ "cover.wav"%string := cover ]} in
  exists out fs',
    stego_audio.embed_lsb_audio fs "cover.wav" "stego.wav" (py "HELLO")
    = (Ok tt, fs')
    /\ fs' !! "stego.wav"%string = Some out
    /\ stego_audio.embed_lsb_audio fs' "stego.wav" "again.wav" (py "HELLO")
       = (Ok tt, <[ "again.wav"%string := out ]> fs').
Proof.
  intros cover fs.
  destruct (embed_twice_is_embed_once (py "HELLO")
              (wire_format [72; 69; 76; 76; 79]) (py_code_points _) eq_refl)
    as [Ha _].
  apply (Ha fs "cover.wav"%string "stego.wav"%string "again.wav"%string cover).
  - apply lookup_singleton_eq.
  - split; [reflexivity | apply int16_zeros].
  - vm_compute. discriminate.
Defined.

(** X9: where the message fits, no audio sample of the written file
    differs from the cover's by more than one, and no byte of the frames
    that the video embedding hands to the encoding run does: an embedded
    sample stays a 16-bit value and a byte stays a byte, and the ones
    whose low bit already was the payload bit are left as they were. *)
Theorem embed_moves_by_at_most_one (message : pystr) (bits : list Z) :
  Forall code_point message ->
  stego_audio._encode_message_to_bits message = Ok bits ->
  (forall fs cover_path stego_path w,
     fs !! cover_path = Some w -> stego_audio.wf_wav w ->
     len bits <= size (stego_audio.samples w) ->
     exists out,
       stego_audio.embed_lsb_audio fs cover_path stego_path message
       = (Ok tt, <[stego_path := out]> fs)
       /\ forall (i : nat) x y,
            data (stego_audio.samples w) !! i = Some x ->
            data (stego_audio.samples out) !! i = Some y ->
            Z.abs (y - x) <= 1 /\ stego_audio.int16 y
            /\ (bits !! i = Some (Z.land x 1) -> y = x))
  /\ (forall w cover_path stego_path fps frames ffv1,
        stego_video.ffmpeg w = stego_video.Working ffv1 ->
        stego_video.files w !! cover_path = Some (stego_video.Video fps frames) ->
        frames <> [] -> wf_frames frames ->
        len bits <= len (flatten frames) ->
        exists out,
          stego_video.embed_lsb_video w cover_path stego_path message
          = after_encoding w ffv1 fps out stego_path
          /\ forall (i : nat) x y,
               flatten frames !! i = Some x -> flatten out !! i = Some y ->
               Z.abs (y - x) <= 1 /\ is_byte y
               /\ (bits !! i = Some (Z.land x 1) -> y = x)).
Proof.
  intros Hcp He.
  pose proof (encoded_bits _ _ Hcp He) as Hbits.
  assert (Hv : stego_video._encode_message_to_bits message = Ok bits)
    by (rewrite <- encoders_raise_alike; assumption).
  split.
  - intros fs cover_path stego_path w Hf Hwf Hcap.
    assert (Hn : (length bits <= length (data (stego_audio.samples w)))%nat)
      by (unfold size, len in *; lia).
    eexists. split; [apply audio_embed_ok; eassumption|].
    cbn [stego_audio.samples data]. intros i x y Hx Hy.
    assert (Hix : stego_audio.int16 x)
      by (destruct Hwf as [_ Hi]; eapply Forall_lookup_1; eassumption).
    destruct (bits !! i) as [b|] eqn:Hb.
    + rewrite (set_lsbs_lookup_lt _ _ _ _ _ Hx Hb) in Hy. injection Hy as <-.
      assert (Hbit : is_bit b) by (eapply Forall_lookup_1; eassumption).
      split; [apply set_bit_near, Hbit|].
      split; [apply clear_then_or_int16; assumption|].
      intros [= ->]. apply set_bit_same. reflexivity.
    + apply lookup_ge_None in Hb.
      rewrite set_lsbs_lookup_ge in Hy by assumption.
      rewrite Hx in Hy. injection Hy as <-.
      split; [lia|]. split; [exact Hix | discriminate].
  - intros w cover_path stego_path fps frames ffv1 Hff Hf Hne Hwf Hcap.
    assert (Hn : (length bits <= length (flatten frames))%nat)
      by (unfold len in *; lia).
    exists (stego_frames frames bits).
    split; [apply (video_embed_ok w cover_path stego_path message fps frames bits);
            assumption|].
    unfold stego_frames. rewrite reframe_flatten by (apply set_lsbs_u8_length, Hn).
    intros i x y Hx Hy.
    assert (Hbx : is_byte x)
      by (destruct Hwf as [_ Hb]; eapply Forall_lookup_1; eassumption).
    destruct (bits !! i) as [b|] eqn:Hb.
    + rewrite (set_lsbs_u8_lookup_lt _ _ _ _ _ Hx Hb) in Hy. injection Hy as <-.
      assert (Hbit : is_bit b) by (eapply Forall_lookup_1; eassumption).
      destruct (set_bit_u8_facts x b Hbx Hbit) as (_ & Hnear & Hsame).
      split; [exact Hnear|]. split; [apply set_bit_u8_byte; assumption|].
      intros [= ->]. apply Hsame. reflexivity.
    + apply lookup_ge_None in Hb.
      rewrite set_lsbs_u8_lookup_ge in Hy by assumption.
      rewrite Hx in Hy. injection Hy as <-.
      split; [lia|]. split; [exact Hbx | discriminate].
Qed.

Lemma lookup_repeat {A} (x : A) (n i : nat) :
  (i < n)%nat -> repeat x n !! i = Some x.
Proof.
  revert i. induction n as [|n IH]; intros i Hi; [lia|].
  destruct i as [|i]; [reflexivity|]. cbn. apply IH. lia.
Qed.

Lemma embed_moves_by_at_most_one_witness :
  let cover :=
    stego_audio.mkWav (mkArr [72%nat; 1%nat] (repeat 32767 72)) 44100 in
  let fs : gmap string stego_audio.wav := {[ "cover.wav"%string := cover ]} in
  exists out,
    stego_audio.embed_lsb_audio fs "cover.wav" "stego.wav" (py "HELLO")
    = (Ok tt, <[ "stego.wav"%string := out ]> fs)
    /\ forall (i : nat) y,
         (i < 72)%nat -> data (stego_audio.samples out) !! i = Some y ->
         32766 <= y <= 32767.
Proof.
  intros cover fs.
  destruct (embed_moves_by_at_most_one (py "HELLO")
              (wire_format [72; 69; 76; 76; 79]) (py_code_points _) eq_refl)
    as [Ha _].
  destruct (Ha fs "cover.wav"%string "stego.wav"%string cover) as (out & He & Hd).
  - apply lookup_singleton_eq.
  - split; [reflexivity|]. apply Forall_forall.
    intros x Hx%list_elem_of_In%repeat_spec. unfold stego_audio.int16. lia.
  - vm_compute. discriminate.
  - exists out. split; [exact He|]. intros i y Hi Hy.
    assert (Hx : data (stego_audio.samples cover) !! i = Some 32767).
    { cbn [stego_audio.samples data cover]. apply lookup_repeat. exact Hi. }
    destruct (Hd i 32767 y Hx Hy) as (Hn & Hr & _).
    unfold stego_audio.int16 in Hr. lia.
Defined.

(** ** More on the statistical method *)

Lemma balance_of_min p : (0 <= p <= 1 -> balance_of p == 2 * Qmin (1 - p) p)%Q.
Proof.
  intros Hp. unfold balance_of.
  destruct (Q.min_spec (1 - p) p) as [[Hlt ->] | [Hle ->]];
    apply Qabs_case; intros; lra.
Qed.

Lemma lsb_verdict_with_margin (p : Q) :
  (0 <= p <= 1)%Q -> verdict_with_margin p (lsb_verdict (balance_of p)).
Proof.
  intros Hp. unfold verdict_with_margin, lsb_verdict.
  assert (Hb : forall c, Qlt_bool (balance_of p) c = true <-> (balance_of p < c)%Q)
    by (intros c; apply Qlt_bool_iff).
  assert (Hv : (balance_of p == 2 * Qmin (1 - p) p)%Q) by apply balance_of_min, Hp.
  destruct (Q.min_spec (1 - p) p) as [[Hlt Hm] | [Hle Hm]]; rewrite Hm in Hv.
  - split; [|split].
    + intros H. destruct (Qlt_bool (balance_of p) (2 # 5)) eqn:E1; [reflexivity|].
      exfalso. apply Qlt_bool_false in E1. destruct H; lra.
    + intros [H1 H2].
      destruct (Qlt_bool (balance_of p) (2 # 5)) eqn:E1;
        [apply Hb in E1; lra|].
      destruct (Qlt_bool (balance_of p) (7 # 10)) eqn:E2;
        [apply Hb in E2; lra|]. reflexivity.
    + intros H.
      destruct (Qlt_bool (balance_of p) (2 # 5)) eqn:E1;
        [apply Hb in E1; destruct H; lra|].
      destruct (Qlt_bool (balance_of p) (7 # 10)) eqn:E2; [reflexivity|].
      exfalso. apply Qlt_bool_false in E2. destruct H; lra.
  - split; [|split].
    + intros H. destruct (Qlt_bool (balance_of p) (2 # 5)) eqn:E1; [reflexivity|].
      exfalso. apply Qlt_bool_false in E1. destruct H; lra.
    + intros [H1 H2].
      destruct (Qlt_bool (balance_of p) (2 # 5)) eqn:E1;
        [apply Hb in E1; lra|].
      destruct (Qlt_bool (balance_of p) (7 # 10)) eqn:E2;
        [apply Hb in E2; lra|]. reflexivity.
    + intros H.
      destruct (Qlt_bool (balance_of p) (2 # 5)) eqn:E1;
        [apply Hb in E1; destruct H; lra|].
      destruct (Qlt_bool (balance_of p) (7 # 10)) eqn:E2; [reflexivity|].
      exfalso. apply Qlt_bool_false in E2. destruct H; lra.
Qed.

(** X11: the verdict of the statistical method follows the fraction [p]
    of 1-valued low bits wherever [p] keeps clear of the cut-offs: likely
    clean when [p] is at most 3/20 or at least 17/20, suspicious when [p]
    lies between 2/5 and 3/5, uncertain when [p] lies between 1/4 and 3/10
    or between 7/10 and 3/4. *)
Theorem verdict_by_fraction :
  (forall E path pcm,
     audio_detector.pcm16 E !! path = Some pcm -> pcm <> [] ->
     exists r,
       audio_detector.audio_lsb_statistics E path = Ok r
       /\ verdict_with_margin (fraction_of_ones (lsbs (astype_int16 pcm)))
            (verdict r))
  /\ (forall E frames,
        grey_lsbs E frames <> [] ->
        exists r,
          video_detector.frame_lsb_statistics E frames = Ok r
          /\ verdict_with_margin (fraction_of_ones (grey_lsbs E frames))
               (verdict r)).
Proof.
  split.
  - intros E path pcm Hp Hne.
    assert (Hl : lsbs (astype_int16 pcm) <> [])
      by (destruct pcm; [congruence | discriminate]).
    eexists. split; [apply audio_statistics_nonempty; eassumption|].
    cbn [verdict].
    apply lsb_verdict_with_margin, fraction_of_ones_range, Hl.
  - intros E frames Hne.
    eexists. split; [apply video_statistics_nonempty; assumption|].
    cbn [verdict].
    apply lsb_verdict_with_margin, fraction_of_ones_range, Hne.
Qed.

Lemma verdict_by_fraction_witness :
  let E := audio_detector.mkEnv {[ "a.wav"%string := [1; 2; 3; 4] ]}
             (fun _ => []) NotThere NotThere in
  exists r,
    audio_detector.audio_lsb_statistics E "a.wav" = Ok r
    /\ verdict r = "Suspicious (LSB distribution very balanced)"%string.
Proof.
  intros E. destruct verdict_by_fraction as [Ha _].
  destruct (Ha E "a.wav"%string [1; 2; 3; 4]) as (r & Hr & _ & Hv & _).
  - apply lookup_singleton_eq.
  - discriminate.
  - exists r. split; [exact Hr|]. apply Hv. split; discriminate.
Defined.

(** ** More on the overview *)

Lemma keep_best_pair r1 r2 s1 :
  score r1 = Some s1 ->
  fold_left keep_best [r1; r2] (None, None)
  = match score r2 with
    | Some s2 =>
        if Qlt_bool s1 s2 then (Some s2, Some (method r2))
        else (Some s1, Some (method r1))
    | None => (Some s1, Some (method r1))
    end.
Proof.
  intros H1. cbn [fold_left]. unfold keep_best at 2. rewrite H1. cbn [fst].
  unfold keep_best. cbn [fst]. destruct (score r2); reflexivity.
Qed.

Lemma audio_statistics_scored E path r :
  audio_detector.audio_lsb_statistics E path = Ok r ->
  method r = "A1_LSB_stats"%string /\ exists s, score r = Some s.
Proof.
  unfold audio_detector.audio_lsb_statistics.
  destruct (audio_detector._load_audio_pcm16 E path) as [pcm|e]; [|discriminate].
  cbn [bind]. destruct (_ =? _).
  - intros [= <-]. split; [reflexivity | eexists; reflexivity].
  - destruct (py_div _ _) as [a|e]; [|discriminate]. cbn [bind].
    destruct (py_div _ _) as [b|e]; [|discriminate]. cbn [bind].
    intros [= <-]. split; [reflexivity | eexists; reflexivity].
Qed.

Lemma video_statistics_scored E frames r :
  video_detector.frame_lsb_statistics E frames = Ok r ->
  method r = "V1_frame_LSB_stats"%string /\ exists s, score r = Some s.
Proof.
  unfold video_detector.frame_lsb_statistics. destruct frames as [|f rest].
  - intros [= <-]. split; [reflexivity | eexists; reflexivity].
  - destruct (py_div _ _) as [a|e]; [|discriminate]. cbn [bind].
    destruct (py_div _ _) as [b|e]; [|discriminate]. cbn [bind].
    intros [= <-]. split; [reflexivity | eexists; reflexivity].
Qed.

Lemma pair_overview r1 r2 s1 :
  score r1 = Some s1 ->
  let best := fold_left keep_best [r1; r2] (None, None) in
  statistical_unless_beaten r1 r2 (mkOverview (fst best) (snd best) [r1; r2]).
Proof.
  intros H1 best. unfold best. rewrite (keep_best_pair r1 r2 s1 H1).
  unfold statistical_unless_beaten. exists s1.
  destruct (score r2) as [s2|] eqn:E2.
  - destruct (Qlt_bool s1 s2) eqn:Elt.
    + apply Qlt_bool_iff in Elt. exists s2. cbn [best_score best_method fst snd].
      split; [exact H1|]. split; [reflexivity|].
      split; [apply Qlt_le_weak, Elt|]. right. auto.
    + apply Qlt_bool_false in Elt. exists s1. cbn [best_score best_method fst snd].
      split; [exact H1|]. split; [reflexivity|]. split; [apply Qle_refl|].
      left. split; [reflexivity|]. split; [reflexivity|].
      intros s [= <-]. exact Elt.
  - exists s1. cbn [best_score best_method fst snd].
    split; [exact H1|]. split; [reflexivity|]. split; [apply Qle_refl|].
    left. split; [reflexivity|]. split; [reflexivity|]. discriminate.
Qed.

(** X12: an analysis that returns always names a best method with a
    non-null best score, which is at least the statistical score; it names
    the learned method only when that one's score is strictly greater, and
    the statistical method otherwise, in particular on a tie. *)
Theorem statistical_method_wins_ties :
  (forall E path a1 a2,
     audio_detector.audio_lsb_statistics E path = Ok a1 ->
     audio_detector.audio_mfcc_svm E path = Ok a2 ->
     exists ov,
       audio_detector.analyze_audio E path = Ok ov
       /\ method a1 = "A1_LSB_stats"%string
       /\ statistical_unless_beaten a1 a2 ov)
  /\ (forall E path v1,
        video_detector.frame_lsb_statistics E (video_detector.extract_frames E path)
        = Ok v1 ->
        exists ov,
          video_detector.analyze_video E path = Ok ov
          /\ method v1 = "V1_frame_LSB_stats"%string
          /\ method (video_detector.video_frame_svm E path) = "V2_frame_SVM"%string
          /\ statistical_unless_beaten v1 (video_detector.video_frame_svm E path) ov).
Proof.
  split.
  - intros E path a1 a2 H1 H2.
    destruct (audio_statistics_scored E path a1 H1) as [Hm [s1 Hs1]].
    unfold audio_detector.analyze_audio. rewrite H1, H2. cbn [bind app].
    pose proof (pair_overview a1 a2 s1 Hs1) as Hp. cbn zeta in Hp.
    destruct (fold_left keep_best [a1; a2] (None, None)) as [bs bm].
    eexists. split; [reflexivity|]. split; [exact Hm | exact Hp].
  - intros E path v1 H1.
    destruct (video_statistics_scored E _ v1 H1) as [Hm [s1 Hs1]].
    unfold video_detector.analyze_video. rewrite H1. cbn [bind].
    pose proof (pair_overview v1 (video_detector.video_frame_svm E path) s1 Hs1)
      as Hp. cbn zeta in Hp.
    destruct (fold_left keep_best _ (None, None)) as [bs bm].
    eexists. split; [reflexivity|]. split; [exact Hm|]. split; [|exact Hp].
    unfold video_detector.video_frame_svm.
    repeat match goal with
    | |- context [match ?x with _ => _ end] => destruct x
    | |- context [if ?x then _ else _] => destruct x
    end; reflexivity.
Qed.

Lemma statistical_method_wins_ties_witness :
  let E := video_detector.mkEnv (fun _ => []) (fun _ => [])
             (fun _ => Ok [0%Q]) (fun x => x)
             (Stored (mkScaler 1 (fun x => x)))
             (Stored (mkSvc (Some (fun _ => Ok 0%Q)) (fun _ => Ok 0%Q))) in
  exists ov,
    video_detector.analyze_video E "clip.mp4" = Ok ov
    /\ score (video_detector.video_frame_svm E "clip.mp4") = Some 0%Q
    /\ best_score ov = Some 0%Q
    /\ best_method ov = Some "V1_frame_LSB_stats"%string.
Proof.
  intros E. destruct statistical_method_wins_ties as [_ Hv].
  destruct (Hv E "clip.mp4"%string
              (mkResult "V1_frame_LSB_stats" (Some 0%Q) "No frames extracted"
                 None None) eq_refl)
    as (ov & Ho & _ & _ & s1 & s & Hs1 & Hbs & _ & Hcase).
  exists ov. split; [exact Ho|]. split; [reflexivity|].
  cbn [score] in Hs1. injection Hs1 as <-.
  destruct Hcase as [(Hm & -> & _) | (_ & Hs2 & Hlt)].
  - split; [exact Hbs | exact Hm].
  - exfalso. change (score (video_detector.video_frame_svm E "clip.mp4"))
      with (Some 0%Q) in Hs2. injection Hs2 as <-. revert Hlt. apply Qlt_irrefl.
Defined.

(** ** When the learned methods give a score *)

Lemma transform_Ok sc feats out :
  transform sc feats = Ok out <->
  length feats = n_features_in_ sc /\ out = scale sc feats.
Proof.
  unfold transform.
  destruct (Nat.eqb_spec (length feats) (n_features_in_ sc)) as [H|H].
  - split; [intros [= <-]; auto | intros [_ ->]; reflexivity].
  - split; [discriminate | intros [? _]; contradiction].
Qed.

(** X13: the learned video method returns a score exactly when both
    artifacts load, the features are extracted and have the dimension the
    scaler was fitted on, and the classifier answers; the score is then the
    classifier's answer. The learned audio method returns a result with a
    score under the same conditions, except that it needs a classifier with
    probability estimates. *)
Theorem learned_score_exactly_when :
  (forall E path p,
     score (video_detector.video_frame_svm E path) = Some p <->
     exists sc clf feats,
       video_detector.VIDEO_SCALER_PATH E = Stored sc
       /\ video_detector.VIDEO_SVM_PATH E = Stored clf
       /\ video_detector.extract_video_features E path = Ok feats
       /\ length feats = n_features_in_ sc
       /\ video_probability E clf (scale sc feats) = Ok p)
  /\ (forall E path p,
        (exists r, audio_detector.audio_mfcc_svm E path = Ok r /\ score r = Some p)
        <->
        exists sc clf feats f,
          audio_detector.AUDIO_SCALER_PATH E = Stored sc
          /\ audio_detector.AUDIO_SVM_PATH E = Stored clf
          /\ audio_detector.extract_audio_features E path = Ok feats
          /\ length feats = n_features_in_ sc
          /\ predict_proba clf = Some f
          /\ f (scale sc feats) = Ok p).
Proof.
  split.
  - intros E path p. unfold video_detector.video_frame_svm. split.
    + destruct (video_detector.VIDEO_SCALER_PATH E) as [|e1|sc];
        [discriminate | destruct (video_detector.VIDEO_SVM_PATH E); discriminate |].
      destruct (video_detector.VIDEO_SVM_PATH E) as [|e2|clf];
        [discriminate | discriminate |].
      cbn [exists_ negb orb joblib_load bind].
      destruct (video_detector.extract_video_features E path) as [feats|e];
        [|discriminate].
      destruct (transform sc feats) as [out|e] eqn:Et; [|discriminate].
      apply transform_Ok in Et as [Hlen ->].
      fold (video_probability E clf (scale sc feats)).
      destruct (video_probability E clf (scale sc feats)) as [q|e] eqn:Ep;
        [|discriminate].
      cbn [score]. intros [= <-]. exists sc, clf, feats. auto.
    + intros (sc & clf & feats & -> & -> & -> & Hlen & Hp).
      cbn [exists_ negb orb joblib_load bind].
      assert (Et : transform sc feats = Ok (scale sc feats))
        by (apply transform_Ok; auto).
      rewrite Et. fold (video_probability E clf (scale sc feats)). rewrite Hp.
      reflexivity.
  - intros E path p. unfold audio_detector.audio_mfcc_svm. split.
    + intros (r & Hr & Hs). revert Hr.
      destruct (audio_detector.AUDIO_SCALER_PATH E) as [|e1|sc].
      * intros [= <-]. discriminate.
      * destruct (audio_detector.AUDIO_SVM_PATH E); [intros [= <-]|..]; discriminate.
      * destruct (audio_detector.AUDIO_SVM_PATH E) as [|e2|clf];
          [intros [= <-]; discriminate | discriminate |].
        cbn [exists_ negb orb joblib_load bind].
        destruct (audio_detector.extract_audio_features E path) as [feats|e];
          [|discriminate]. cbn [bind].
        destruct (transform sc feats) as [out|e] eqn:Et; [|discriminate].
        apply transform_Ok in Et as [Hlen ->]. cbn [bind].
        destruct (predict_proba clf) as [f|] eqn:Ef; [|discriminate].
        destruct (f (scale sc feats)) as [q|e] eqn:Eq; [|discriminate].
        cbn [bind]. intros [= <-]. cbn [score] in Hs. injection Hs as ->.
        exists sc, clf, feats, f. auto 7.
    + intros (sc & clf & feats & f & -> & -> & -> & Hlen & Hf & Hp).
      cbn [exists_ negb orb joblib_load bind].
      assert (Et : transform sc feats = Ok (scale sc feats))
        by (apply transform_Ok; auto).
      rewrite Et. cbn [bind]. rewrite Hf, Hp. cbn [bind].
      eexists. split; reflexivity.
Qed.

(** ** Frames read with OpenCV *)

Lemma py_mod_nonzero a b : b <> 0 -> py_mod a b = Ok (a mod b).
Proof. intros H. unfold py_mod. destruct (Z.eqb_spec b 0); [contradiction|reflexivity]. Qed.

Lemma neg_mod_multiple i step :
  1 <= step -> i mod step = 0 ->
  (- i) mod step = 0 /\ (- (i + 1)) mod step = step - 1.
Proof.
  intros Hs Hm. apply Z.mod_divide in Hm as [q ->]; [|lia]. split; symmetry.
  - apply (Z.mod_unique_pos _ _ (- q)); lia.
  - apply (Z.mod_unique_pos _ _ (- q - 1)); lia.
Qed.

Lemma neg_mod_between i step :
  1 <= step -> i mod step <> 0 ->
  (- i) mod step = (- (i + 1)) mod step + 1.
Proof.
  intros Hs Hm.
  pose proof (Z.div_mod i step ltac:(lia)) as Hd.
  pose proof (Z.mod_pos_bound i step ltac:(lia)) as Hb.
  set (q := i / step) in *. set (r := i mod step) in *.
  rewrite <- (Z.mod_unique_pos (- i) step (- q - 1) (step - r)) by lia.
  rewrite <- (Z.mod_unique_pos (- (i + 1)) step (- q - 1) (step - r - 1)) by lia.
  lia.
Qed.

Lemma read_loop_spec step max_frames :
  1 <= step ->
  forall reads i frames,
    0 <= i -> len frames < Z.max 1 max_frames ->
    exists out,
      utils_av.read_loop step max_frames reads i frames = Ok (frames ++ out)
      /\ forall j : nat,
           out !! j
           = if (j <? Z.to_nat (Z.max 1 max_frames - len frames))%nat
             then reads !! (Z.to_nat ((- i) mod step) + j * Z.to_nat step)%nat
             else None.
Proof.
  intros Hstep. induction reads as [|f rest IH]; intros i frames Hi Hlen.
  - exists []. split; [cbn; rewrite app_nil_r; reflexivity|].
    intros j. destruct (_ <? _)%nat; reflexivity.
  - cbn [utils_av.read_loop]. rewrite py_mod_nonzero by lia. cbn [bind].
    assert (Hl0 : 0 <= len frames) by (unfold len; lia).
    destruct (Z.eqb_spec (i mod step) 0) as [Hm|Hm].
    + destruct (neg_mod_multiple i step Hstep Hm) as [Hr Hr1].
      assert (Hl1 : len (frames ++ [f]) = len frames + 1)
        by (unfold len; rewrite length_app; cbn; lia).
      rewrite Hl1.
      destruct (Z.leb_spec max_frames (len frames + 1)) as [Hfull|Hmore].
      * exists [f]. split; [reflexivity|]. intros j.
        assert (Hlim : Z.to_nat (Z.max 1 max_frames - len frames) = 1%nat) by lia.
        rewrite Hlim, Hr. destruct j as [|j]; [reflexivity|].
        cbn [Nat.ltb Nat.leb]. reflexivity.
      * destruct (IH (i + 1) (frames ++ [f])) as (out & Ho & Hspec); [lia | lia |].
        exists (f :: out). split; [rewrite Ho, <- app_assoc; reflexivity|].
        intros j. rewrite Hr. destruct j as [|j].
        -- cbn [lookup list_lookup]. destruct (Nat.ltb_spec 0 (Z.to_nat (Z.max 1 max_frames - len frames))); [reflexivity | lia].
        -- cbn [lookup list_lookup]. fold (lookup (M:=list ndarray) j out).
           change (list_lookup j out) with (out !! j).
           rewrite Hspec, Hl1, Hr1.
           replace (Z.to_nat 0 + S j * Z.to_nat step)%nat
             with (S (Z.to_nat (step - 1) + j * Z.to_nat step)) by lia.
           cbn [lookup list_lookup].
           destruct (Nat.ltb_spec j (Z.to_nat (Z.max 1 max_frames - (len frames + 1))));
             destruct (Nat.ltb_spec (S j) (Z.to_nat (Z.max 1 max_frames - len frames)));
             try lia; reflexivity.
    + pose proof (neg_mod_between i step Hstep Hm) as Hr.
      assert (Hr0 : 0 <= (- (i + 1)) mod step)
        by (apply Z.mod_pos_bound; lia).
      destruct (IH (i + 1) frames) as (out & Ho & Hspec); [lia | lia |].
      exists out. split; [exact Ho|]. intros j. rewrite Hspec, Hr.
      replace (Z.to_nat ((- (i + 1)) mod step + 1) + j * Z.to_nat step)%nat
        with (S (Z.to_nat ((- (i + 1)) mod step) + j * Z.to_nat step)) by lia.
      reflexivity.
Qed.

Lemma read_loop_every_nth step max_frames reads :
  1 <= step ->
  exists out,
    utils_av.read_loop step max_frames reads 0 [] = Ok out
    /\ every_nth (Z.to_nat step) (Z.to_nat (Z.max 1 max_frames)) reads out.
Proof.
  intros Hstep.
  destruct (read_loop_spec step max_frames Hstep reads 0 []) as (out & Ho & Hspec);
    [lia | unfold len; cbn; lia |].
  exists out. split; [exact Ho|]. intros j. rewrite Hspec.
  change (len (@nil ndarray)) with 0. rewrite Z.sub_0_r.
  change (- 0) with 0. rewrite Z.mod_0_l by lia. reflexivity.
Qed.

Lemma every_nth_nonempty step limit reads out :
  (1 <= limit)%nat -> reads <> [] -> every_nth step limit reads out -> out <> [].
Proof.
  intros Hl Hr H ->. specialize (H 0%nat).
  destruct (Nat.ltb_spec 0 limit); [|lia].
  destruct reads; [congruence | discriminate].
Qed.

Lemma every_nth_length step limit reads out :
  every_nth step limit reads out -> (length out <= limit)%nat.
Proof.
  intros H. destruct (Nat.le_gt_cases (length out) limit) as [|Hgt]; [assumption|].
  specialize (H limit). rewrite Nat.ltb_irrefl in H.
  apply lookup_ge_None in H. lia.
Qed.

(** X14: when the path is no [.mkv], the capture opens and delivers at
    least one frame, and the step is at least 1, [extract_frames] returns
    the delivered frames at the positions 0, step, 2 * step, ..., at most
    [max_frames] of them but always the first one; the fallback library is
    not consulted. *)
Theorem extract_frames_samples_every_step E video_path max_frames frame_step reads :
  utils_av.suffix_lower E video_path <> ".mkv"%string ->
  utils_av.VideoCapture E video_path = Some reads ->
  reads <> [] -> 1 <= frame_step ->
  exists out,
    utils_av.extract_frames E video_path max_frames frame_step = Ok out
    /\ every_nth (Z.to_nat frame_step) (Z.to_nat (Z.max 1 max_frames)) reads out
    /\ out !! 0%nat = reads !! 0%nat
    /\ (1 <= length out <= Z.to_nat (Z.max 1 max_frames))%nat.
Proof.
  intros Hs Hc Hr Hstep. unfold utils_av.extract_frames.
  destruct (String.eqb_spec (utils_av.suffix_lower E video_path) ".mkv");
    [contradiction|].
  rewrite Hc.
  destruct (read_loop_every_nth frame_step max_frames reads Hstep)
    as (out & Ho & Hspec).
  rewrite Ho. cbn [bind].
  assert (Hne : out <> []).
  { apply (every_nth_nonempty (Z.to_nat frame_step)
             (Z.to_nat (Z.max 1 max_frames)) reads out);
      [lia | exact Hr | exact Hspec]. }
  exists out. destruct out as [|o out']; [congruence|].
  split; [reflexivity|]. split; [exact Hspec|]. split.
  - rewrite (Hspec 0%nat). destruct (Nat.ltb_spec 0 (Z.to_nat (Z.max 1 max_frames)));
      [reflexivity | lia].
  - split; [cbn; lia | apply (every_nth_length _ _ _ _ Hspec)].
Qed.

Lemma extract_frames_samples_every_step_witness :
  let f n := mkArr [1%nat; 1%nat; 3%nat] [n; n; n] in
  let E := utils_av.mkEnv (fun _ => ".mp4"%string)
             (fun _ => Some [f 0; f 1; f 2; f 3; f 4; f 5; f 6])
             (fun _ => None) (fun a => Ok a) in
  utils_av.extract_frames E "clip.mp4" 2 3 = Ok [f 0; f 3].
Proof.
  intros f E.
  destruct (extract_frames_samples_every_step E "clip.mp4" 2 3
              [f 0; f 1; f 2; f 3; f 4; f 5; f 6])
    as (out & Ho & Hspec & _).
  - discriminate.
  - reflexivity.
  - discriminate.
  - lia.
  - rewrite Ho. f_equal. apply list_eq. intros j. rewrite (Hspec j).
    destruct j as [|[|j]]; reflexivity.
Defined.

(** X15: with a step of 0 [extract_frames] raises the division error as
    soon as the capture delivers a frame of a path that is no [.mkv]; for
    a [.mkv] path, a capture that does not open or one that delivers no
    frame, it returns what the fallback library gives, whatever the
    step. *)
Theorem extract_frames_step_zero_and_fallback E video_path max_frames :
  (forall reads,
     utils_av.suffix_lower E video_path <> ".mkv"%string ->
     utils_av.VideoCapture E video_path = Some reads -> reads <> [] ->
     utils_av.extract_frames E video_path max_frames 0 = Raise ZeroDivisionError)
  /\ (forall frame_step,
        utils_av.suffix_lower E video_path = ".mkv"%string
        \/ utils_av.VideoCapture E video_path = None
        \/ utils_av.VideoCapture E video_path = Some [] ->
        utils_av.extract_frames E video_path max_frames frame_step
        = Ok (utils_av._extract_frames_moviepy E video_path max_frames)).
Proof.
  split.
  - intros reads Hs Hc Hr. unfold utils_av.extract_frames.
    destruct (String.eqb_spec (utils_av.suffix_lower E video_path) ".mkv");
      [contradiction|].
    rewrite Hc. destruct reads as [|f rest]; [congruence|]. reflexivity.
  - intros frame_step H. unfold utils_av.extract_frames.
    destruct (String.eqb_spec (utils_av.suffix_lower E video_path) ".mkv");
      [reflexivity|].
    destruct H as [H | [-> | ->]]; [contradiction | reflexivity | reflexivity].
Qed.

Lemma extract_frames_step_zero_and_fallback_witness :
  let f n := mkArr [1%nat; 1%nat; 3%nat] [n; n; n] in
  let E := utils_av.mkEnv (fun _ => ".mp4"%string) (fun _ => Some [f 0; f 1])
             (fun _ => None) (fun a => Ok a) in
  let E' := utils_av.mkEnv (fun _ => ".mkv"%string) (fun _ => Some [f 0; f 1])
              (fun _ => None) (fun a => Ok a) in
  utils_av.extract_frames E "clip.mp4" 50 0 = Raise ZeroDivisionError
  /\ utils_av.extract_frames E' "clip.mkv" 50 0 = Ok [].
Proof.
  intros f E E'. split.
  - destruct (extract_frames_step_zero_and_fallback E "clip.mp4" 50) as [H _].
    apply (H [f 0; f 1]); [discriminate | reflexivity | discriminate].
  - destruct (extract_frames_step_zero_and_fallback E' "clip.mkv" 50) as [_ H].
    rewrite (H 0); [reflexivity | left; reflexivity].
Defined.

(** ** Frames fetched with the fallback library *)

Lemma grab_loop_spec E c max_frames ts : forall frames,
  exists out,
    utils_av.grab_loop E c max_frames ts frames = frames ++ out
    /\ (length out <= length ts)%nat
    /\ Forall (fun f => exists t rgb,
                 In t ts /\ utils_av.get_frame c t = Some rgb
                 /\ utils_av.cvtColor_RGB2BGR E rgb = Ok f) out.
Proof.
  induction ts as [|t rest IH]; intros frames.
  - exists []. cbn. rewrite app_nil_r. repeat split; [lia | constructor].
  - cbn [utils_av.grab_loop].
    destruct (utils_av.get_frame c t) as [rgb|] eqn:Eg.
    + destruct (utils_av.cvtColor_RGB2BGR E rgb) as [bgr|e] eqn:Ec.
      * destruct (_ <=? _).
        -- exists [bgr]. split; [reflexivity|]. split; [cbn; lia|].
           constructor; [|constructor]. exists t, rgb. cbn. auto.
        -- destruct (IH (frames ++ [bgr])) as (out & Ho & Hl & Hall).
           exists (bgr :: out). split; [rewrite Ho, <- app_assoc; reflexivity|].
           split; [cbn; lia|]. constructor.
           ++ exists t, rgb. cbn. auto.
           ++ eapply Forall_impl; [exact Hall|].
              intros f (t' & rgb' & Hin & H1 & H2). exists t', rgb'. cbn. auto.
      * exists []. rewrite app_nil_r. split; [reflexivity|].
        split; [cbn; lia | constructor].
    + destruct (IH frames) as (out & Ho & Hl & Hall).
      exists out. split; [exact Ho|]. split; [cbn; lia|].
      eapply Forall_impl; [exact Hall|].
      intros f (t' & rgb' & Hin & H1 & H2). exists t', rgb'. cbn. auto.
Qed.

Lemma times_inside d n t :
  (0 < d)%Q -> In t (utils_av.times d n) -> (0 < t)%Q /\ (t < d)%Q.
Proof.
  intros Hd Hin. unfold utils_av.times, utils_av.range in Hin.
  apply in_map_iff in Hin as (i & <- & Hi).
  apply in_map_iff in Hi as (k & <- & Hk). apply in_seq in Hk.
  assert (Hn : 0 < n) by lia.
  assert (HnQ : (0 < inject_Z n)%Q)
    by (change 0%Q with (inject_Z 0); rewrite <- Zlt_Qlt; exact Hn).
  assert (Hk0 : (0 <= inject_Z (Z.of_nat k))%Q)
    by (change 0%Q with (inject_Z 0); rewrite <- Zle_Qle; lia).
  assert (Hk1 : (inject_Z (Z.of_nat k) + 1 <= inject_Z n)%Q).
  { change 1%Q with (inject_Z 1). rewrite <- inject_Z_plus, <- Zle_Qle. lia. }
  split.
  - apply Qlt_shift_div_l; [exact HnQ|]. rewrite Qmult_0_l.
    apply Qmult_lt_0_compat; [exact Hd | lra].
  - apply Qlt_shift_div_r; [exact HnQ|].
    apply Qmult_lt_l; [exact Hd | lra].
Qed.

(** X16: the fallback extraction returns at most [max_frames] frames;
    none when the clip does not open or has no positive duration; and each
    returned frame is the converted frame of the clip at a sample time
    strictly between 0 and the duration. *)
Theorem moviepy_frames_bounded E video_path max_frames :
  let out := utils_av._extract_frames_moviepy E video_path max_frames in
  (length out <= Z.to_nat max_frames)%nat
  /\ (utils_av.VideoFileClip E video_path = None -> out = [])
  /\ (forall c,
        utils_av.VideoFileClip E video_path = Some c ->
        (utils_av.duration c = None
         \/ exists d, utils_av.duration c = Some d /\ (d <= 0)%Q) ->
        out = [])
  /\ (forall c d,
        utils_av.VideoFileClip E video_path = Some c ->
        utils_av.duration c = Some d -> (0 < d)%Q ->
        Forall (fun f => exists t rgb,
                  (0 < t)%Q /\ (t < d)%Q
                  /\ utils_av.get_frame c t = Some rgb
                  /\ utils_av.cvtColor_RGB2BGR E rgb = Ok f) out).
Proof.
  cbn zeta. unfold utils_av._extract_frames_moviepy.
  destruct (utils_av.VideoFileClip E video_path) as [c|].
  2: { repeat split; try (cbn; lia); try discriminate; auto. }
  set (dur := match utils_av.duration c with
              | Some d => if Qeq_bool d 0 then 0%Q else d
              | None => 0%Q
              end).
  destruct (grab_loop_spec E c max_frames (utils_av.times dur max_frames) [])
    as (out & Ho & Hl & Hall).
  assert (Htl : length (utils_av.times dur max_frames) = Z.to_nat max_frames).
  { unfold utils_av.times, utils_av.range. rewrite !length_map, length_seq.
    reflexivity. }
  split; [|split; [|split]].
  - destruct (Qle_bool dur 0); [cbn; lia|]. rewrite Ho. cbn [app]. lia.
  - discriminate.
  - intros c' [= <-] Hd.
    assert (Hle : (dur <= 0)%Q).
    { unfold dur. destruct Hd as [-> | (d & -> & Hd)]; [apply Qle_refl|].
      destruct (Qeq_bool d 0); [apply Qle_refl | exact Hd]. }
    apply Qle_bool_iff in Hle. rewrite Hle. reflexivity.
  - intros c' d [= <-] Hd Hpos.
    assert (Hdur : dur = d).
    { unfold dur. rewrite Hd. destruct (Qeq_bool d 0) eqn:E0; [|reflexivity].
      apply Qeq_bool_eq in E0. lra. }
    destruct (Qle_bool dur 0) eqn:El.
    { apply Qle_bool_iff in El. rewrite Hdur in El. lra. }
    rewrite Ho. cbn [app]. eapply Forall_impl; [exact Hall|].
    intros f (t & rgb & Hin & Hg & Hc). exists t, rgb.
    rewrite Hdur in Hin. destruct (times_inside d max_frames t Hpos Hin).
    auto.
Qed.

Lemma moviepy_frames_bounded_witness :
  let f n := mkArr [1%nat; 1%nat; 3%nat] [n; n; n] in
  let c := utils_av.mkClip (Some 4%Q)
             (fun t => if Qle_bool t 2 then Some (f 1) else None) in
  let E := utils_av.mkEnv (fun _ => ".mkv"%string) (fun _ => None)
             (fun _ => Some c) (fun a => Ok a) in
  utils_av._extract_frames_moviepy E "clip.mkv" 4 = [f 1; f 1]
  /\ (length (utils_av._extract_frames_moviepy E "clip.mkv" 4) <= 4)%nat.
Proof.
  intros f c E. split; [reflexivity|].
  apply (moviepy_frames_bounded E "clip.mkv" 4).
Defined.

(** ** The frames of the video features *)

Lemma sample_loop_read_loop step max_frames reader : forall idx frames,
  video_features.sample_loop step max_frames reader idx frames
  = utils_av.read_loop step max_frames
      (map (fun f => mkArr (shape f) (astype_uint8 (data f))) reader) idx frames.
Proof.
  induction reader as [|f rest IH]; intros idx frames; [reflexivity|].
  cbn [video_features.sample_loop utils_av.read_loop map].
  destruct (py_mod idx step) as [r|e]; [|reflexivity]. cbn [bind].
  destruct (r =? 0); cbn [negb]; [|apply IH].
  destruct (_ <=? _); [reflexivity | apply IH].
Qed.

(** X17: on a stored video and with a step of at least 1, the features
    are computed from the frames at the positions 0, step, 2 * step, ...,
    at most [max_frames] of them, the first frame always among them; a
    video without frames raises the error that says so, and a file that
    cannot be opened raises the reader's error. *)
Theorem feature_frames_sampled w path max_frames frame_step :
  1 <= frame_step ->
  (forall fps frames,
     stego_video.files w !! path = Some (stego_video.Video fps frames) ->
     Forall is_byte (flatten frames) ->
     (frames = [] ->
      video_features.sampled_frames w path max_frames frame_step
      = Raise (LibraryError "No frames extracted from video."))
     /\ (frames <> [] ->
         exists out,
           video_features.sampled_frames w path max_frames frame_step = Ok out
           /\ every_nth (Z.to_nat frame_step) (Z.to_nat (Z.max 1 max_frames))
                frames out
           /\ out !! 0%nat = frames !! 0%nat))
  /\ (forall err,
        stego_video.files w !! path = Some (stego_video.Unreadable err) ->
        video_features.sampled_frames w path max_frames frame_step
        = Raise (IOError err)).
Proof.
  intros Hstep. split.
  - intros fps frames Hf Hb. unfold video_features.sampled_frames.
    rewrite (get_reader_video _ _ _ _ Hf Hb). split.
    + intros ->. reflexivity.
    + intros Hne. rewrite sample_loop_read_loop.
      rewrite normalise_frames by assumption.
      destruct (read_loop_every_nth frame_step max_frames frames Hstep)
        as (out & Ho & Hspec).
      rewrite Ho. cbn [bind].
      assert (Hout : out <> []).
      { apply (every_nth_nonempty (Z.to_nat frame_step)
                 (Z.to_nat (Z.max 1 max_frames)) frames out);
          [lia | exact Hne | exact Hspec]. }
      exists out. destruct out as [|o out']; [congruence|].
      split; [reflexivity|]. split; [exact Hspec|].
      rewrite (Hspec 0%nat).
      destruct (Nat.ltb_spec 0 (Z.to_nat (Z.max 1 max_frames))); [reflexivity | lia].
  - intros err Hf. unfold video_features.sampled_frames, stego_video.get_reader.
    rewrite Hf. reflexivity.
Qed.

Lemma feature_frames_sampled_witness :
  let f n := mkArr [1%nat; 1%nat; 3%nat] [n; n; n] in
  let w := stego_video.mkWorld
             {[ "clip.avi"%string := stego_video.Video 25 [f 0; f 1; f 2; f 3; f 4] ]}
             None (stego_video.Working stego_video.exact_ffv1) in
  video_features.sampled_frames w "clip.avi" 40 2 = Ok [f 0; f 2; f 4].
Proof.
  intros f w.
  destruct (feature_frames_sampled w "clip.avi" 40 2 ltac:(lia)) as [H _].
  destruct (H 25%Q [f 0; f 1; f 2; f 3; f 4]) as [_ Hs].
  - apply lookup_singleton_eq.
  - repeat (constructor; [unfold is_byte; lia|]). constructor.
  - destruct (Hs ltac:(discriminate)) as (out & Ho & Hspec & _).
    rewrite Ho. f_equal. apply list_eq. intros j. rewrite (Hspec j).
    destruct j as [|[|[|j]]]; try reflexivity.
    cbn [lookup list_lookup]. destruct (_ <? _)%nat; [|reflexivity].
    replace (S (S (S j)) * Z.to_nat 2)%nat with (S (S (S (S (S (S (j + j))))))) by lia.
    reflexivity.
Defined.

(** ** File kinds *)

Lemma extensions_disjoint ext :
  ext ∈ utils_av.AUDIO_EXTENSIONS -> ext ∈ utils_av.VIDEO_EXTENSIONS -> False.
Proof.
  unfold utils_av.AUDIO_EXTENSIONS, utils_av.VIDEO_EXTENSIONS.
  rewrite !elem_of_union, !elem_of_singleton.
  intros Ha Hv. destruct_or!; subst; discriminate.
Qed.

(** X18: no path is both an audio file and a video file; and the web
    application's classification agrees with the two tests: the kind is
    audio exactly for audio files, video exactly for video files, and
    absent for all others. *)
Theorem file_kinds_exclusive_and_agree E path :
  (utils_av.is_audio_file E path && utils_av.is_video_file E path = false)
  /\ (fst (streamlit_app.classify_file_type E path) = Some "audio"%string
      <-> utils_av.is_audio_file E path = true)
  /\ (fst (streamlit_app.classify_file_type E path) = Some "video"%string
      <-> utils_av.is_video_file E path = true)
  /\ (fst (streamlit_app.classify_file_type E path) = None
      <-> utils_av.is_audio_file E path = false
          /\ utils_av.is_video_file E path = false)
  /\ snd (streamlit_app.classify_file_type E path) = utils_av.suffix_lower E path.
Proof.
  unfold utils_av.is_audio_file, utils_av.is_video_file,
    streamlit_app.classify_file_type.
  fold utils_av.AUDIO_EXTENSIONS utils_av.VIDEO_EXTENSIONS.
  change ({[ ".wav"; ".mp3"; ".flac"; ".ogg"; ".m4a" ]}%string : gset string)
    with utils_av.AUDIO_EXTENSIONS.
  change ({[ ".mp4"; ".avi"; ".mkv"; ".mov"; ".flv" ]}%string : gset string)
    with utils_av.VIDEO_EXTENSIONS.
  pose proof (extensions_disjoint (utils_av.suffix_lower E path)) as Hd.
  destruct (bool_decide_reflect
              (utils_av.suffix_lower E path ∈ utils_av.AUDIO_EXTENSIONS)) as [Ha|Ha];
    destruct (bool_decide_reflect
                (utils_av.suffix_lower E path ∈ utils_av.VIDEO_EXTENSIONS)) as [Hv|Hv];
    cbn [fst snd andb]; try (exfalso; auto; fail);
    repeat split; try discriminate; try reflexivity; try (intros [? ?]; discriminate).
Qed.

(** ** Message limits of the web application *)

Lemma utf8_encode_char_length c bs :
  utf8_encode_char c = Ok bs -> (1 <= length bs <= 4)%nat.
Proof.
  unfold utf8_encode_char.
  destruct (c <? 128); [intros [= <-]; cbn; lia|].
  destruct (c <? 2048); [intros [= <-]; cbn; lia|].
  destruct (is_surrogate c); [discriminate|].
  destruct (c <? 65536); intros [= <-]; cbn; lia.
Qed.

Lemma utf8_encode_length message : forall msg_bytes,
  utf8_encode message = Ok msg_bytes ->
  len message <= len msg_bytes <= 4 * len message.
Proof.
  induction message as [|c t IH]; intros msg_bytes.
  - intros [= <-]. unfold len. cbn. lia.
  - cbn [utf8_encode].
    destruct (utf8_encode_char c) as [bs|e] eqn:Ec; [|discriminate]. cbn [bind].
    destruct (utf8_encode t) as [rest|e]; [|discriminate]. cbn [bind].
    intros [= <-]. specialize (IH rest eq_refl).
    apply utf8_encode_char_length in Ec.
    unfold len in *. rewrite length_app. cbn [length]. lia.
Qed.

(** X19: a message that passes the length test of the web application for
    its file kind has at most 80000 UTF-8 bytes, below the maximum of both
    decoders; so, when it is not blank, decoding what the encoder returns
    for it, followed by any carrier bits, gives the message back with the
    audio and with the video default. *)
Theorem accepted_messages_decode (kind : string) (message : pystr) :
  kind = "audio"%string \/ kind = "video"%string ->
  Forall code_point message ->
  (forall c, In c message -> is_surrogate c = false) ->
  streamlit_app.message_too_long kind message = false ->
  exists msg_bytes bits,
    utf8_encode message = Ok msg_bytes
    /\ len msg_bytes <= 80000
    /\ stego_audio._encode_message_to_bits message = Ok bits
    /\ stego_video._encode_message_to_bits message = Ok bits
    /\ (~ blank message ->
        forall tail, Forall is_bit tail ->
          stego_audio._decode_bits_to_message (bits ++ tail)
            stego_audio.max_len_bytes_default = Ok (Some message)
          /\ stego_video._decode_bits_to_message (bits ++ tail)
               stego_video.max_len_bytes_default = Ok (Some message)).
Proof.
  intros Hk Hcp Hsur Hlong.
  assert (Hlen : len message <= 20000).
  { unfold streamlit_app.message_too_long in Hlong.
    destruct Hk as [-> | ->]; cbn in Hlong; apply Z.ltb_ge in Hlong;
      unfold streamlit_app.MAX_AUDIO_MESSAGE_CHARS,
        streamlit_app.MAX_VIDEO_MESSAGE_CHARS in Hlong; lia. }
  assert (Hu : exists msg_bytes, utf8_encode message = Ok msg_bytes).
  { clear Hlong Hlen Hcp. induction message as [|c t IH]; [eexists; reflexivity|].
    destruct IH as [rest Hrest]; [intros c' Hc'; apply Hsur; right; exact Hc'|].
    cbn [utf8_encode]. rewrite Hrest.
    unfold utf8_encode_char. rewrite (Hsur c (or_introl eq_refl)).
    destruct (c <? 128); [eexists; reflexivity|].
    destruct (c <? 2048); [eexists; reflexivity|].
    destruct (c <? 65536); eexists; reflexivity. }
  destruct Hu as [msg_bytes Hu].
  pose proof (utf8_encode_length _ _ Hu) as Hl.
  pose proof (utf8_encode_bytes _ _ Hcp Hu) as Hb.
  assert (Hl32 : len msg_bytes < 2 ^ 32) by lia.
  exists msg_bytes, (flat_map byte_bits (be_bytes 4 (len msg_bytes) ++ msg_bytes)).
  split; [exact Hu|]. split; [lia|].
  split; [apply audio_encode_bits; assumption|].
  split; [apply video_encode_bits; assumption|].
  intros Hblank tail Ht.
  change (stego_video._decode_bits_to_message ?b ?m)
    with (stego_audio._decode_bits_to_message b m).
  rewrite !audio_decode_eq by (apply frame_bits; assumption).
  rewrite !(framed_message_decoded msg_bytes message tail _ Hcp Hblank Hu);
    [split; reflexivity | | lia | | lia].
  - change stego_video.max_len_bytes_default with 200000. lia.
  - change stego_audio.max_len_bytes_default with 100000. lia.
Qed.

Lemma accepted_messages_decode_witness :
  exists msg_bytes bits,
    utf8_encode (py "HELLO") = Ok msg_bytes
    /\ len msg_bytes <= 80000
    /\ stego_audio._encode_message_to_bits (py "HELLO") = Ok bits
    /\ stego_audio._decode_bits_to_message (bits ++ [1; 1; 0])
         stego_audio.max_len_bytes_default = Ok (Some (py "HELLO")).
Proof.
  destruct (accepted_messages_decode "audio" (py "HELLO"))
    as (msg_bytes & bits & Hu & Hl & Ha & _ & Hd).
  - left. reflexivity.
  - apply py_code_points.
  - intros c Hc. cbn in Hc. intuition (subst; reflexivity).
  - reflexivity.
  - exists msg_bytes, bits. split; [exact Hu|]. split; [exact Hl|].
    split; [exact Ha|].
    apply (Hd HELLO_not_blank [1; 1; 0]). all_bits.
Defined.

(** ** Truncated and missing carriers *)

Lemma header_of_prefix bits (k : nat) :
  (32 <= k)%nat -> header_length (take k bits) = header_length bits.
Proof.
  intros Hk. unfold header_length, slice.
  change (Z.to_nat 0) with 0%nat. rewrite !drop_0.
  change (Z.to_nat (32 - 0)) with 32%nat.
  rewrite take_take. f_equal. f_equal. lia.
Qed.

(** X20: a carrier cut short is noticed: decoding any proper prefix of
    what an encoder returned for a message gives absent, whatever the
    maximum length, never a part of the message. *)
Theorem truncated_payload_is_absent (message : pystr) (bits : list Z)
    (k : nat) (max_len : Z) :
  Forall code_point message ->
  stego_audio._encode_message_to_bits message = Ok bits ->
  (k < length bits)%nat ->
  stego_audio._decode_bits_to_message (take k bits) max_len = Ok None
  /\ stego_video._decode_bits_to_message (take k bits) max_len = Ok None.
Proof.
  intros Hcp He Hk.
  pose proof (encoded_bits _ _ Hcp He) as Hbits.
  destruct (audio_encode_inv _ _ Hcp He) as (mb & Hu & Hb & Hl & Heq).
  assert (Hlen : len bits = 32 + 8 * len mb) by (rewrite Heq; apply encoded_length).
  assert (Hh : header_length bits = len mb).
  { rewrite Heq.
    rewrite <- (app_nil_r (flat_map byte_bits (be_bytes 4 (len mb) ++ mb))).
    apply (frame_header mb [] Hl). }
  change (stego_video._decode_bits_to_message ?b ?m)
    with (stego_audio._decode_bits_to_message b m).
  rewrite audio_decode_eq by (apply Forall_take, Hbits).
  assert (Hd : decoded (take k bits) max_len = None).
  { unfold decoded.
    assert (Hlk : len (take k bits) = Z.of_nat k)
      by (unfold len; rewrite length_take; lia).
    rewrite Hlk.
    destruct (Z.ltb_spec (Z.of_nat k) 32) as [|Hge]; [reflexivity|].
    rewrite header_of_prefix, Hh by lia. cbn [orb].
    destruct (Z.leb_spec (len mb) 0); [reflexivity|]. cbn [orb].
    destruct (Z.ltb_spec ((Z.of_nat k - 32) / 8) (len mb)) as [|Hx]; [reflexivity|].
    exfalso. unfold len in *.
    assert ((Z.of_nat k - 32) / 8 < Z.of_nat (length mb)); [|lia].
    apply Z.div_lt_upper_bound; lia. }
  rewrite Hd. split; reflexivity.
Qed.

Lemma truncated_payload_is_absent_witness :
  stego_audio._decode_bits_to_message
    (take 71 (wire_format [72; 69; 76; 76; 79])) 100000 = Ok None
  /\ stego_video._decode_bits_to_message
       (take 71 (wire_format [72; 69; 76; 76; 79])) 100000 = Ok None.
Proof.
  apply (truncated_payload_is_absent (py "HELLO") _ 71 100000 (py_code_points _)
           eq_refl).
  vm_compute. lia.
Defined.

(** X21: on a path that holds no file the audio extraction and the audio
    embedding raise, and the embedding leaves every stored file as it was;
    the video extraction instead returns a bracketed text that starts with
    [[Failed to open video: ], also for a file the reader rejects, and the
    video embedding raises with the stored files as they were. *)
Theorem missing_carrier_behaviour :
  (forall fs path stego_path message,
     fs !! path = None ->
     stego_audio.extract_lsb_audio fs path = Raise (IOError path)
     /\ stego_audio.embed_lsb_audio fs path stego_path message
        = (Raise (IOError path), fs))
  /\ (forall w path stego_path message,
        stego_video.files w !! path = None
        \/ (exists err, stego_video.files w !! path
                        = Some (stego_video.Unreadable err)) ->
        (exists err,
           stego_video.extract_lsb_video w path
           = Ok (py "[Failed to open video: " ++ py err ++ py "]"))
        /\ exists e,
             stego_video.embed_lsb_video w path stego_path message = (Raise e, w)).
Proof.
  split.
  - intros fs path stego_path message Hf.
    unfold stego_audio.extract_lsb_audio, stego_audio.embed_lsb_audio,
      stego_audio._load_audio_int16.
    rewrite Hf. split; reflexivity.
  - intros w path stego_path message Hf.
    unfold stego_video.extract_lsb_video, stego_video.embed_lsb_video,
      stego_video.get_reader.
    destruct Hf as [Hf | [err Hf]]; rewrite Hf.
    + split; [eexists; reflexivity|].
      destruct (stego_video.ffmpeg w); eexists; reflexivity.
    + split; [eexists; reflexivity|].
      destruct (stego_video.ffmpeg w); eexists; reflexivity.
Qed.

Lemma missing_carrier_behaviour_witness :
  stego_audio.extract_lsb_audio ∅ "nothing.wav" = Raise (IOError "nothing.wav")
  /\ exists err,
       stego_video.extract_lsb_video
         (stego_video.mkWorld ∅ None stego_video.Absent) "nothing.avi"
       = Ok (py "[Failed to open video: " ++ py err ++ py "]").
Proof.
  destruct missing_carrier_behaviour as [Ha Hv]. split.
  - apply (Ha ∅ "nothing.wav"%string "out.wav"%string []). apply lookup_empty.
  - apply (Hv (stego_video.mkWorld ∅ None stego_video.Absent)
             "nothing.avi"%string "out.avi"%string []).
    left. apply lookup_empty.
Defined.

Lemma moviepy_length E video_path max_frames :
  (length (utils_av._extract_frames_moviepy E video_path max_frames)
   <= Z.to_nat max_frames)%nat.
Proof.
  unfold utils_av._extract_frames_moviepy.
  destruct (utils_av.VideoFileClip E video_path) as [c|]; [|cbn; lia].
  destruct (Qle_bool _ 0); [cbn; lia|].
  destruct (grab_loop_spec E c max_frames
              (utils_av.times
                 match utils_av.duration c with
                 | Some d => if Qeq_bool d 0 then 0%Q else d
                 | None => 0%Q
                 end max_frames) []) as (out & Ho & Hl & _).
  rewrite Ho. cbn [app].
  unfold utils_av.times, utils_av.range in Hl.
  rewrite !length_map, length_seq in Hl. exact Hl.
Qed.

(** X22: with a step of at least 1, as in the call of the video analysis
    (step 10, at most 200 frames), [extract_frames] never raises and
    returns at most [max_frames] frames, or one frame when [max_frames] is
    below 1 and the capture delivers frames. *)
Theorem extract_frames_total_and_bounded E video_path max_frames frame_step :
  1 <= frame_step ->
  exists out,
    utils_av.extract_frames E video_path max_frames frame_step = Ok out
    /\ (length out <= Z.to_nat (Z.max 1 max_frames))%nat.
Proof.
  intros Hstep. unfold utils_av.extract_frames.
  pose proof (moviepy_length E video_path max_frames) as Hm.
  destruct (String.eqb (utils_av.suffix_lower E video_path) ".mkv").
  { eexists. split; [reflexivity | lia]. }
  destruct (utils_av.VideoCapture E video_path) as [reads|].
  - destruct (read_loop_every_nth frame_step max_frames reads Hstep)
      as (out & Ho & Hspec).
    rewrite Ho. cbn [bind]. destruct out as [|o out'].
    + eexists. split; [reflexivity | lia].
    + eexists. split; [reflexivity|]. apply (every_nth_length _ _ _ _ Hspec).
  - cbn [bind]. eexists. split; [reflexivity | lia].
Qed.

Lemma extract_frames_total_and_bounded_witness :
  let f n := mkArr [1%nat; 1%nat; 3%nat] [n; n; n] in
  let E := utils_av.mkEnv (fun _ => ".mp4"%string)
             (fun _ => Some [f 0; f 1; f 2])
             (fun _ => None) (fun a => Ok a) in
  exists out,
    utils_av.extract_frames E "clip.mp4" 200 10 = Ok out
    /\ (length out <= 200)%nat.
Proof.
  intros f E.
  apply (extract_frames_total_and_bounded E "clip.mp4" 200 10). lia.
Defined.
